(* ===== verification/_CoqProject ===== *)
-Q . S2P
Prelude.v
Strconv.v
Itoa.v
Url.v
Seats.v
Notify.v
Watcher.v
Registry.v
Invariant.v
Exec.v
Zombie.v
Safety.v
WatcherSpec.v
Logging.v
Leak.v
Timed.v
Adequacy.v
Refinement.v
Progress.v
Answers.v
Termination.v
Dispatch.v
