(* ===== verification/Prelude.v ===== *)
(** * NuBanner: a verification development of the course-seat watcher

    The program (src/new_nu_check/new_main.go) is a small HTTP server.
    [POST /start-course-check?email=..&CRN=..] runs
    [startCourseCheckHandler]: under the global mutex [subscriptionsMux]
    it checks the global map [subscriptions] (e-mail to [stopChan]),
    inserts a fresh unbuffered channel and starts a goroutine
    [checkCourseAvailability].  That goroutine polls the university's
    enrolment API every 60 seconds, extracts the seat count with
    [parseAvailableSeats] (a regex and [strconv.Atoi]) and calls
    [sendEmailNotification] when it is positive; any error makes it
    return.  [POST /stop-course-check?email=..] runs
    [stopCourseCheckHandler]: under the mutex it sends [true] on the
    e-mail's channel, closes it and deletes the entry.

    ** Files
    - [Prelude] (this file): Go's error values as [goerror], [(T, error)]
      as [goresult T]; labelled transition sequences [lstar] with their
      induction principles and [stable] invariants; [cnt] (counting in a
      list); string and wrap-around lemmas; the [invc] and
      [list_lookup_cases] tactics and the [nubanner] hint databases.
    - [Strconv] (Module [Strconv]): Go's [strconv.Atoi] (the fast path for
      strings under 19 bytes and [ParseInt]/[ParseUint] with the 64-bit
      cutoff and overflow checks, [int] conversion written as
      wrap-around) and [strconv.Itoa] ([formatBits] with fuel 20: a
      64-bit magnitude has at most 20 digits, so the fuel never runs out,
      which [format_loop_spec] proves).
    - [Itoa] (Module [Itoa]): Go's own [FormatInt] in base 10: the
      table [smallsString], the fast path [small] for [[0, 100)] and the
      [formatBits] loop writing two digits per round, defined with
      Equations by well-founded recursion on the bit length of the value
      (no fuel), proved equal to [Strconv.itoa] on every [int64].
    - [Url] (Module [Url]): [net/url] as the program uses it:
      [QueryEscape]/[QueryUnescape], [Values.Add] and [Values.Encode]
      (keys sorted with [merge_sort]), and [ParseQuery] as gin's
      [c.Query] reads it (pieces split on ['&'], a piece with [';']
      or a malformed escape dropped, the first value of a key or [""]);
      [parse_query_encode]: parsing an encoded form gives back its pairs.
    - [Seats] (Module [Seats]): [parseAvailableSeats]; the regex search
      [FindStringSubmatch] specialised to the fixed pattern: a scan for
      the leftmost position where the literal prefix, [-?\d+] (greedy)
      and the literal suffix match.
    - [Notify] (Module [Notify]): the message of [sendEmailNotification]
      and the arguments it passes to [smtp.SendMail], as a [mail] value.
    - [Watcher] (Module [Watcher]): the request of the ticker branch (the
      form of lines 87-91 through [Url], [http.NewRequest]); [tick]: the
      ticker branch (lines 85-120) as a function of what the network
      returned, every [return] included; the goroutine's state [watcher]
      (its e-mail, CRN, channel, whether it is in [select] or returned,
      and the deferred [resp.Body.Close] calls not yet run); [after_tick],
      [after_stop].
    - [WatcherSpec] (Module [WatcherSpec]): the collaborators of spec
      section 1 as type classes ([AvailabilityChecker], [Notifier]), the
      watcher of spec section 4.2 written against them, the program's
      instances (the fetch-and-parse of lines 86-116,
      [sendEmailNotification]) and the refinement: the program's loop
      over any ticks sends the spec watcher's mails and returns when it
      terminates.
    - [Logging] (Module [Logging]): every [log.Println] of the program as
      the line [fmt.Sprintln] writes, with the [Error()] text of the
      errors it prints ([errors.New], [strconv.NumError] with
      [strconv.Quote]); a tick logs exactly when it returns, the stages
      print distinct lines, and the exact line of an overflowing count.
    - [Registry] (Module [Registry]): the whole program as an interleaving
      semantics.  [world] holds [subscriptions] (a [gmap]), the mutex, the
      closed channels, the channel allocator, the handler goroutines (one
      per request, by a program counter [hpc]) and the watcher goroutines.
      [step] has one rule per atomic action: the validation of the
      parameters (and its 400 answer), [Lock] when the mutex is free,
      the map lookup with its [Unlock] on the refusing branches, the
      insert with [make(chan bool)] and [Unlock], [go], the rendezvous
      of [stopChan <- true] with a watcher in [select],
      [close]/[delete]/[Unlock], each [c.JSON] answer given after the
      mutex is released ([HAnswer], [step_answer]), a tick, a receive on
      a closed channel, and the panics of send/close on a closed channel.
      [exec] and [run] compute the same steps ([Exec.exec_step_iff]);
      [w ⟶[ tr ]* w'] (in [nubanner_scope]) is the run
      [lstar step w tr w'].
    - [Invariant] (Module [Invariant]): the invariant [inv] of reachable
      states (lock ownership, channel freshness, one live watcher per
      subscribed channel, pending sends and closes only on open channels)
      and [inv_step]: every rule preserves it.
    - [Exec] (Module [Exec]): [exec] is [step], and concrete schedules.
    - [Safety] (Module [Safety]): at most one running watcher per e-mail,
      mutual exclusion, absence of panics, and at the [close] of a Stop
      the e-mail's entry removed and its watchers returned and silent.
    - [Zombie] (Module [Zombie]): the zombie entry left by a watcher that
      returned on an error, its permanence, and the deadlock of a later
      Stop that blocks in its send holding the mutex.
    - [Leak] (Module [Leak]): the deferred [resp.Body.Close] calls of a
      running watcher are exactly its page reads: none is ever run.
    - [Timed] (Module [Timed]): the clock (nanoseconds) and the ticker of
      each watcher ([time.NewTicker(60 * time.Second)], its runtime timer,
      [ticker.C] holding at most one tick, the deferred [ticker.Stop()])
      over [Registry]: [tstep] lets a watcher tick only when a tick waits
      in its [C]; the invariant [tinv]; erasing the clock gives a
      registry run; a watcher polls at most once per 60 seconds.
    - [Adequacy] (Module [Adequacy]): the converse: every registry run is
      the erasure of a timed run, so the untimed model has exactly the
      runs of the timed one.
    - [Refinement] (Module [Refinement]): the registry contract of spec
      section 4.1 as operations on a [gset] ([spec_op]), the
      linearization point of each handler ([lin]: the branch it takes
      under the mutex, read off its next program counter), and
      linearizability: the linearization points of any run, replayed on
      the contract, give the concrete key set and the results the
      handlers chose, and every answer to a validated request follows
      its handler's linearization point and reports its result.
    - [Progress] (Module [Progress]): runs that exist: a Stop completes
      when its watcher is running, a Start for a free e-mail completes,
      and a notification can overtake a Stop already committed to
      cancelling (Go's [select] has no priority).
    - [Answers] (Module [Answers]): a well-formedness invariant of runs
      linking each handler's program counter to its request and the
      answers given so far: every answer answers one request, once, with
      a response its handler can give.
    - [Termination] (Module [Termination]): progress: a handler that has
      not finished can act unless it waits for the mutex held by another
      handler or at the send of line 67 with no live watcher on the
      channel.
    - [Dispatch] (Module [Dispatch]): [main]: the gin engine, its two
      [POST] routes as a route table, [router.Run]'s error and
      [log.Fatal]; gin's routing with its default trailing-slash
      redirect (301/307) and 404, and [c.Query] on the raw query
      ([Url.query_get]), composed
      with [Registry]: an encoded Start call runs to "started", and a
      Start call with a malformed escape in [email] gets the 400 answer.

    ** Theorems
    Functional correctness of the pure parts (Atoi on [-?\d+] with the
    overflow clamp, Atoi's nil error only on signed decimal strings, the
    Itoa/Atoi round trip, leftmost-first matching, the result of a tick
    on every outcome, the notification on a positive count and the
    bounds of its count, injectivity of the message, Go's two-digit
    [FormatInt] equal to the reference [Itoa]); invariants of every
    reachable state by rule induction over [step]; linearizability of
    the registry contract and a refinement of the spec's watcher; the
    type of every answer; the places where a handler can block; the
    runs in which Start and Stop complete, from the HTTP call through
    the routes [main] registers (and the redirects gin adds); the
    exactness of the untimed abstraction and the rate of polls under the
    real ticker; and the defects: a watcher that fails leaves a zombie
    entry (spec section 4.2 asks for self-deregistration), the zombie is
    permanent, a Stop for it deadlocks the server, a notification can
    overtake a pending Stop, response bodies leak, an e-mail with a
    malformed escape is answered as missing, and the error lines carry a
    doubled space. Each theorem that has hypotheses comes with a witness
    on a concrete schedule evaluated by [vm_compute].

    ** Bounds and abstractions
    Go's [int] is 64-bit: integers are [Z] with the 64-bit range and the
    wrap-around written out. [Registry] abstracts time: a tick may occur
    whenever a watcher waits in [select]; [Timed] and [Adequacy] show this
    abstraction has exactly the runs of the model with the clock and the
    60-second tickers (time in nanoseconds, [time.Duration]'s unit; a
    spawned watcher's ticker is created when it is spawned, which only
    fixes the phase of its ticks). The network and SMTP are abstracted as
    the outcome a tick receives (this over-approximates: [http.NewRequest]
    on the constant URL cannot fail, yet the model lets it). Not modelled:
    the date and time [log] writes before a line (wall clock), the texts
    of [net/http] and [net/smtp] errors (taken as given), the HTTP
    exchange of [client.Do] and the SMTP exchange of [smtp.SendMail] with
    the [smtp.PlainAuth] credentials (the password is not copied into the
    model), the [X-Forwarded-Prefix] header and the query string of gin's
    redirect [Location], gin's Logger and Recovery middleware (the only panics, on a
    closed channel, are unreachable: [Safety]), its server loop and the
    listening socket of [router.Run] (I/O): [Dispatch] starts from the
    method, path and raw query of a call, and [main] from the error [Run]
    returns. The fuel of [Strconv.format_loop] is 20, the number of
    decimal digits of [2^64-1]; [Itoa.format_bits] needs none. Handlers
    and watchers are never removed from the state: a finished goroutine
    stays with its final program counter, which keeps indices stable.
    The [make]/insert/[Unlock] of lines 50-52 and the
    [close]/[delete]/[Unlock] of lines 68-70 are single steps: they run
    under the mutex, and the only goroutine that receives on the
    channel has returned before line 68 runs ([Invariant.inv_close]), so
    no other goroutine can observe the states in between. *)

From Stdlib Require Import ZArith Lia Ascii.
From stdpp Require Export base list gmap strings.

Declare Scope nubanner_scope.
Delimit Scope nubanner_scope with nb.

(** ** Go errors

    The errors the program can observe.  A Go function returning
    [(T, error)] is modelled as a pair [T * option goerror], [None] being
    Go's [nil]. *)
Inductive goerror :=
| ErrSyntax       (** [strconv.ErrSyntax] *)
| ErrRange        (** [strconv.ErrRange] *)
| ErrNoSeats      (** [errors.New("could not find available seats in HTML")] *)
| ErrNewRequest   (** [http.NewRequest] failed *)
| ErrDo           (** [client.Do] failed *)
| ErrReadBody     (** [ioutil.ReadAll] failed *)
| ErrSmtp.        (** [smtp.SendMail] failed *)

#[export] Instance goerror_eq_dec : EqDecision goerror.
Proof. solve_decision. Defined.

Definition goresult (A : Type) : Type := (A * option goerror)%type.

(** ** Labelled transition sequences

    [lstar step s tr s'] : [s] reaches [s'] by the steps whose labels,
    in order, are [tr]. *)
Section LStar.
Context {S L : Type} (step : S -> L -> S -> Prop).

Inductive lstar : S -> list L -> S -> Prop :=
| lstar_refl s : lstar s [] s
| lstar_step s l s' tr s'' :
    step s l s' -> lstar s' tr s'' -> lstar s (l :: tr) s''.

Lemma lstar_one s l s' : step s l s' -> lstar s [l] s'.
Proof. eauto using lstar. Qed.

Lemma lstar_app s tr1 s' tr2 s'' :
  lstar s tr1 s' -> lstar s' tr2 s'' -> lstar s (tr1 ++ tr2) s''.
Proof. induction 1; simpl; eauto using lstar. Qed.

Lemma lstar_snoc s tr s' l s'' :
  lstar s tr s' -> step s' l s'' -> lstar s (tr ++ [l]) s''.
Proof. eauto using lstar_app, lstar_one. Qed.

Lemma lstar_app_inv s tr1 tr2 s'' :
  lstar s (tr1 ++ tr2) s'' -> exists s', lstar s tr1 s' /\ lstar s' tr2 s''.
Proof.
  revert s. induction tr1 as [|l tr1 IH]; intros s H; simpl in H.
  - eauto using lstar.
  - inversion H; subst. destruct (IH _ H5) as (s1 & ? & ?). eauto using lstar.
Qed.

(** Induction along a run, growing it at its end: the principle used
    for invariants that relate the state to the history. *)
Lemma lstar_ind_snoc (s0 : S) (P : list L -> S -> Prop) :
  P [] s0 ->
  (forall tr s l s', lstar s0 tr s -> P tr s -> step s l s' -> P (tr ++ [l]) s') ->
  forall tr s, lstar s0 tr s -> P tr s.
Proof.
  intros H0 HS tr. induction tr as [|l tr IH] using rev_ind; intros s H.
  - inversion H; subst; assumption.
  - apply lstar_app_inv in H as (s1 & H1 & H2).
    inversion H2 as [|? ? ? ? ? Hst Hr]; subst. inversion Hr; subst.
    eapply HS; eauto.
Qed.

Definition stable (I : S -> Prop) : Prop :=
  forall s l s', I s -> step s l s' -> I s'.

Lemma lstar_stable I s tr s' : stable I -> lstar s tr s' -> I s -> I s'.
Proof. intros HI. induction 1; eauto. Qed.
End LStar.

(** ** Counting the elements of a list that satisfy a test *)
Fixpoint cnt {A} (f : A -> bool) (l : list A) : nat :=
  match l with
  | [] => 0
  | x :: l => (if f x then 1 else 0) + cnt f l
  end%nat.

Section Cnt.
Context {A : Type} (f : A -> bool).

Lemma cnt_app (l1 l2 : list A) : cnt f (l1 ++ l2) = (cnt f l1 + cnt f l2)%nat.
Proof. induction l1; simpl; lia. Qed.

Lemma cnt_insert (l : list A) i x y :
  l !! i = Some x ->
  (cnt f (<[i:=y]> l) + (if f x then 1 else 0) =
   cnt f l + (if f y then 1 else 0))%nat.
Proof.
  revert i. induction l as [|z l IH]; intros [|i] Hi; simpl in *; try done.
  - injection Hi as ->. lia.
  - specialize (IH _ Hi). lia.
Qed.

Lemma cnt_insert_same (l : list A) i x y :
  l !! i = Some x -> f x = f y -> cnt f (<[i:=y]> l) = cnt f l.
Proof. intros Hi Hf. pose proof (cnt_insert l i x y Hi). rewrite Hf in H. lia. Qed.

Lemma cnt_snoc (l : list A) x : cnt f (l ++ [x]) = (cnt f l + if f x then 1 else 0)%nat.
Proof. rewrite cnt_app. simpl. lia. Qed.

Lemma cnt_zero (l : list A) :
  cnt f l = 0%nat <-> forall i x, l !! i = Some x -> f x = false.
Proof.
  induction l as [|z l IH]; simpl.
  - split; [intros _ i x Hx; done | done].
  - split.
    + intros H [|i] x Hx; simpl in Hx.
      * injection Hx as <-. destruct (f z); [lia|done].
      * eapply IH; [lia|done].
    + intros H. rewrite (H 0%nat z eq_refl). apply IH.
      intros i x Hx. exact (H (S i) x Hx).
Qed.

Lemma cnt_pos (l : list A) i x : l !! i = Some x -> f x = true -> (1 <= cnt f l)%nat.
Proof.
  revert i. induction l as [|z l IH]; intros [|i] Hi Hx; simpl in *; try done.
  - injection Hi as ->. rewrite Hx. lia.
  - specialize (IH _ Hi Hx). lia.
Qed.

Lemma cnt_le1_unique (l : list A) i j x y :
  (cnt f l <= 1)%nat -> l !! i = Some x -> l !! j = Some y ->
  f x = true -> f y = true -> i = j.
Proof.
  revert i j. induction l as [|z l IH]; intros [|i] [|j] Hc Hi Hj Hx Hy;
    simpl in *; try done.
  - injection Hi as ->. rewrite Hx in Hc. pose proof (cnt_pos _ _ _ Hj Hy). lia.
  - injection Hj as ->. rewrite Hy in Hc. pose proof (cnt_pos _ _ _ Hi Hx). lia.
  - f_equal. apply IH; auto. destruct (f z); lia.
Qed.
Lemma cnt_lookup (l : list A) :
  (1 <= cnt f l)%nat -> exists i x, l !! i = Some x /\ f x = true.
Proof.
  induction l as [|z l IH]; simpl; [lia|]. intros H.
  destruct (f z) eqn:Hz; [by exists 0%nat, z|].
  destruct (IH H) as (i & x & ? & ?). by exists (S i), x.
Qed.

Lemma cnt_le_length (l : list A) : (cnt f l <= length l)%nat.
Proof. induction l as [|z l IH]; simpl; [lia|]. destruct (f z); lia. Qed.

(** The converse of [cnt_le1_unique]. *)
Lemma cnt_unique_le1 (l : list A) :
  (forall i j x y, l !! i = Some x -> l !! j = Some y -> f x = true -> f y = true -> i = j) ->
  (cnt f l <= 1)%nat.
Proof.
  induction l as [|z l IH]; simpl; intros H; [lia|].
  destruct (f z) eqn:Hz.
  - enough (cnt f l = 0%nat) by lia. apply cnt_zero. intros i x Hx.
    destruct (f x) eqn:Hfx; [|done]. by specialize (H 0%nat (S i) z x eq_refl Hx Hz Hfx).
  - apply IH. intros i j x y Hi Hj Hx Hy. by injection (H (S i) (S j) x y Hi Hj Hx Hy).
Qed.
End Cnt.

(** ** Strings

    stdpp makes [String.append] ([+:+]) [simpl never]; these equations
    unfold it. *)

Lemma string_app_cons (a : ascii) (s1 s2 : string) : String a s1 +:+ s2 = String a (s1 +:+ s2).
Proof. reflexivity. Qed.

Lemma string_app_nil_l (s : string) : "" +:+ s = s.
Proof. reflexivity. Qed.

Lemma string_app_assoc (s1 s2 s3 : string) : (s1 +:+ s2) +:+ s3 = s1 +:+ (s2 +:+ s3).
Proof. induction s1 as [|a s1 IH]; [done|]. rewrite !string_app_cons. simpl. by rewrite IH. Qed.

Lemma string_app_nil_r (s : string) : s +:+ "" = s.
Proof. induction s as [|a s IH]; [done|]. rewrite !string_app_cons. simpl. by rewrite IH. Qed.

Lemma string_length_app (s1 s2 : string) :
  String.length (s1 +:+ s2) = (String.length s1 + String.length s2)%nat.
Proof. induction s1 as [|a s1 IH]; [done|]. rewrite !string_app_cons. simpl. by rewrite IH. Qed.

Lemma string_app_inv_l (p s1 s2 : string) : p +:+ s1 = p +:+ s2 -> s1 = s2.
Proof. induction p as [|a p IH]; [done|]. rewrite !string_app_cons. intros [=]. auto. Qed.

(** ** Wrap-around arithmetic *)

(** A sum that overflows by less than one modulus wraps once. *)
Lemma Z_mod_sub_once (a b : Z) : (0 < b -> b <= a < 2 * b -> a mod b = a - b)%Z.
Proof. intros. symmetry. apply (Z.mod_unique_pos a b 1); lia. Qed.

Lemma Z_mod_add_once (a b : Z) : (0 < b -> - b <= a < 0 -> a mod b = a + b)%Z.
Proof. intros. symmetry. apply (Z.mod_unique_pos a b (-1)); lia. Qed.

(** ** Proof automation shared by the components *)
Ltac invc H := inversion H; subst; clear H.

(** Turn a lookup in an updated or extended list into the cases it
    comes from. *)
Ltac list_lookup_cases :=
  repeat match goal with
  | H : <[_:=_]> _ !! _ = Some _ |- _ =>
      apply list_lookup_insert_Some in H as [(? & ? & ?)|(? & H)]; subst
  | H : (_ ++ [_]) !! _ = Some _ |- _ =>
      apply lookup_snoc_Some in H as [(? & H)|(? & ?)]; subst
  end.

Create HintDb nubanner discriminated.
#[export] Hint Resolve lstar_one lstar_snoc : nubanner.
#[export] Hint Constructors lstar : nubanner.
Create Rewrite HintDb nubanner_rw.
#[export] Hint Rewrite string_app_cons string_app_nil_l string_app_nil_r : nubanner_rw.
