(* ===== verification/Strconv.v ===== *)
(** * Strconv: the integer conversions the watcher relies on

    [parseAvailableSeats] ends in [return strconv.Atoi(matches[1])]
    (new_main.go:135) and [sendEmailNotification] formats the count with
    [strconv.Itoa] (new_main.go:146).  This file models those two calls on
    a 64-bit platform ([int] is 64 bits), following Go's [strconv]
    package: [Atoi]'s fast path for strings shorter than 19 bytes and its
    slow path through [ParseInt]/[ParseUint], with Go's wrap-around on
    [int], [uint64] and [byte] written out; [Itoa] as [FormatInt] in base
    10.  It proves that the fast path agrees with the slow path, the
    exact result of [Atoi] on the strings the seat regex can capture
    (the decimal value, or [ErrRange] outside the [int] range) and the
    round trip [Atoi (Itoa n) = (n, nil)]. *)

From S2P Require Import Prelude.
From Stdlib Require Import ZArith Lia Ascii.

Local Open Scope Z_scope.

Module Strconv.

(** ** Machine integers *)
Definition int64_min : Z := - 2 ^ 63.
Definition int64_max : Z := 2 ^ 63 - 1.
Definition uint64_max : Z := 2 ^ 64 - 1.

(** A Go [int] result: two's-complement wrap to 64 bits. *)
Definition wrap_int (z : Z) : Z := (z + 2 ^ 63) mod 2 ^ 64 - 2 ^ 63.

(** The byte value of a character. *)
Definition byte_val (c : ascii) : Z := Z.of_N (N_of_ascii c).

Definition is_digit (c : ascii) : bool := (48 <=? byte_val c) && (byte_val c <=? 57).

Definition is_sign (c : ascii) : bool := Ascii.eqb c "-"%char || Ascii.eqb c "+"%char.

(** ** [Atoi]'s fast path (0 < len(s) < 19)

    [for _, ch := range []byte(s) { ch -= '0'; if ch > 9 { syntax };
    n = n*10 + int(ch) }]: [ch -= '0'] is byte arithmetic (mod 256) and
    [n*10 + int(ch)] is [int] arithmetic. *)
Fixpoint atoi_digits (s : string) (n : Z) : option Z :=
  match s with
  | EmptyString => Some n
  | String c s' =>
      let ch := (byte_val c - 48) mod 256 in
      if 9 <? ch then None else atoi_digits s' (wrap_int (n * 10 + ch))
  end.

Definition atoi_fast (s0 : string) : goresult Z :=
  match s0 with
  | EmptyString => (0, Some ErrSyntax)
  | String c0 rest =>
      let s := if is_sign c0 then rest else s0 in
      if is_sign c0 && (String.length s <? 1)%nat then (0, Some ErrSyntax)
      else match atoi_digits s 0 with
           | None => (0, Some ErrSyntax)
           | Some n => (if Ascii.eqb c0 "-"%char then wrap_int (- n) else n, None)
           end
  end.

(** ** [ParseUint(s, 10, 64)]

    [cutoff = maxUint64/10 + 1]; per byte: a non-digit is a syntax error,
    [n >= cutoff] is a range error, [n *= 10; n1 := n + d] in [uint64]
    and [n1 < n || n1 > maxVal] is a range error. *)
Definition uint_cutoff : Z := uint64_max / 10 + 1.

Fixpoint parse_uint_loop (s : string) (n : Z) : goresult Z :=
  match s with
  | EmptyString => (n, None)
  | String c s' =>
      if is_digit c then
        let d := byte_val c - 48 in
        if uint_cutoff <=? n then (uint64_max, Some ErrRange)
        else
          let n := (n * 10) mod 2 ^ 64 in
          let n1 := (n + d) mod 2 ^ 64 in
          if (n1 <? n) || (uint64_max <? n1) then (uint64_max, Some ErrRange)
          else parse_uint_loop s' n1
      else (0, Some ErrSyntax)
  end.

Definition parse_uint (s : string) : goresult Z :=
  match s with
  | EmptyString => (0, Some ErrSyntax)
  | _ => parse_uint_loop s 0
  end.

(** ** [ParseInt(s, 10, 64)] *)
Definition parse_int (s0 : string) : goresult Z :=
  match s0 with
  | EmptyString => (0, Some ErrSyntax)
  | String c s' =>
      let '(neg, s) :=
        if Ascii.eqb c "+"%char then (false, s')
        else if Ascii.eqb c "-"%char then (true, s') else (false, s0) in
      let '(un, err) := parse_uint s in
      match err with
      | Some e => if decide (e = ErrRange) then
                    (if negb neg then (2 ^ 63 - 1, Some ErrRange) else (- 2 ^ 63, Some ErrRange))
                  else (0, Some e)
      | None =>
          if negb neg && (2 ^ 63 <=? un) then (2 ^ 63 - 1, Some ErrRange)
          else if neg && (2 ^ 63 <? un) then (- 2 ^ 63, Some ErrRange)
          else let n := wrap_int un in (if neg then wrap_int (- n) else n, None)
      end
  end.

(** ** [Atoi] *)
Definition atoi (s : string) : goresult Z :=
  let len := String.length s in
  if (0 <? len)%nat && (len <? 19)%nat then atoi_fast s else parse_int s.

(** ** [Itoa] = [FormatInt(int64(i), 10)]

    Decimal digits of a [uint64], least significant first into the
    accumulator; a [uint64] has at most 20 decimal digits. *)
Definition digit_of (d : Z) : ascii := ascii_of_N (Z.to_N (48 + d)).

Fixpoint format_loop (fuel : nat) (u : Z) (acc : string) : string :=
  match fuel with
  | O => acc
  | S f =>
      let acc := String (digit_of (u mod 10)) acc in
      if u <? 10 then acc else format_loop f (u / 10) acc
  end.

Definition format_uint (u : Z) : string := format_loop 20 u EmptyString.

Definition itoa (i : Z) : string :=
  if i <? 0 then String "-"%char (format_uint (- i)) else format_uint i.

(** ** Reference semantics: decimal strings *)
Fixpoint all_digits (s : string) : bool :=
  match s with
  | EmptyString => true
  | String c s' => is_digit c && all_digits s'
  end.

(** Horner value of a digit string, starting from [acc]. *)
Fixpoint dec_value (s : string) (acc : Z) : Z :=
  match s with
  | EmptyString => acc
  | String c s' => dec_value s' (acc * 10 + (byte_val c - 48))
  end.

(** The strings [-?\d+] of the seat regex's capture group. *)
Definition signed_digits (s : string) : bool :=
  match s with
  | String c ds => if Ascii.eqb c "-"%char then negb (String.eqb ds "") && all_digits ds
                   else is_digit c && all_digits ds
  | EmptyString => false
  end.

(** The integer a [-?\d+] string denotes. *)
Definition signed_value (s : string) : Z :=
  match s with
  | String c ds => if Ascii.eqb c "-"%char then - dec_value ds 0 else dec_value s 0
  | EmptyString => 0
  end.

Definition in_int64 (z : Z) : bool := (int64_min <=? z) && (z <=? int64_max).

(** What [Atoi] returns for a [-?\d+] string denoting [v]. *)
Definition atoi_expected (v : Z) : goresult Z :=
  if in_int64 v then (v, None)
  else if v <? 0 then (int64_min, Some ErrRange) else (int64_max, Some ErrRange).

(** ** Arithmetic facts *)

Lemma byte_val_range c : 0 <= byte_val c < 256.
Proof. unfold byte_val. pose proof (N_ascii_bounded c). lia. Qed.

Lemma is_digit_range c : is_digit c = true -> 0 <= byte_val c - 48 <= 9.
Proof. unfold is_digit. rewrite andb_true_iff, !Z.leb_le. lia. Qed.

(** [ch -= '0'; ch > 9] on a byte is exactly the digit test. *)
Lemma byte_sub_digit c : (9 <? (byte_val c - 48) mod 256) = negb (is_digit c).
Proof.
  pose proof (byte_val_range c). unfold is_digit.
  destruct (Z.le_gt_cases 48 (byte_val c)).
  - rewrite Z.mod_small by lia.
    destruct (Z.leb_spec 48 (byte_val c)), (Z.leb_spec (byte_val c) 57),
      (Z.ltb_spec 9 (byte_val c - 48)); simpl; lia.
  - rewrite Z_mod_add_once by lia.
    destruct (Z.leb_spec 48 (byte_val c)), (Z.ltb_spec 9 (byte_val c - 48 + 256));
      simpl; lia.
Qed.

Lemma wrap_int_small z : int64_min <= z <= int64_max -> wrap_int z = z.
Proof.
  unfold wrap_int, int64_min, int64_max. intros H.
  rewrite Z.mod_small by lia. lia.
Qed.

Lemma wrap_int_range z : int64_min <= wrap_int z <= int64_max.
Proof.
  unfold wrap_int, int64_min, int64_max.
  pose proof (Z.mod_pos_bound (z + 2 ^ 63) (2 ^ 64)). lia.
Qed.

(** ** Decimal strings *)

Lemma pow10_ge1 (k : nat) : 1 <= 10 ^ Z.of_nat k.
Proof. pose proof (Z.pow_pos_nonneg 10 (Z.of_nat k)). lia. Qed.

Lemma dec_value_app s1 s2 a : dec_value (s1 +:+ s2) a = dec_value s2 (dec_value s1 a).
Proof. revert a. induction s1; intros; rewrite ?string_app_cons; simpl; auto. Qed.

Lemma all_digits_app s1 s2 : all_digits (s1 +:+ s2) = all_digits s1 && all_digits s2.
Proof. induction s1; [done|]. rewrite string_app_cons. simpl. rewrite IHs1. apply andb_assoc. Qed.

(** A digit string of length [k] read after [a] lands in
    [[a * 10^k, (a+1) * 10^k)]. *)
Lemma dec_value_bounds s a :
  all_digits s = true -> 0 <= a ->
  a * 10 ^ Z.of_nat (String.length s) <= dec_value s a <
  (a + 1) * 10 ^ Z.of_nat (String.length s).
Proof.
  revert a. induction s as [|c s IH]; intros a Hd Ha; simpl in *.
  - lia.
  - apply andb_true_iff in Hd as [Hc Hd]. apply is_digit_range in Hc.
    rewrite Nat2Z.inj_succ, Z.pow_succ_r by lia.
    specialize (IH (a * 10 + (byte_val c - 48)) Hd ltac:(lia)). nia.
Qed.

Lemma dec_value_mono s a : all_digits s = true -> 0 <= a -> a <= dec_value s a.
Proof.
  intros Hd Ha. pose proof (dec_value_bounds s a Hd Ha).
  assert (1 <= 10 ^ Z.of_nat (String.length s)) by apply pow10_ge1.
  nia.
Qed.

(** ** [ParseUint]: exact value or [ErrRange] *)

Lemma uint_cutoff_val : uint_cutoff = 1844674407370955162.
Proof. reflexivity. Qed.

Lemma uint64_max_val : uint64_max = 18446744073709551615.
Proof. reflexivity. Qed.

Lemma two64_val : 2 ^ 64 = 18446744073709551616.
Proof. reflexivity. Qed.

Lemma parse_uint_loop_digits s n :
  all_digits s = true -> 0 <= n <= uint64_max ->
  parse_uint_loop s n =
  if dec_value s n <=? uint64_max then (dec_value s n, None)
  else (uint64_max, Some ErrRange).
Proof.
  revert n. induction s as [|c s IH]; intros n Hd Hn; simpl in *.
  - rewrite (proj2 (Z.leb_le _ _)) by lia. done.
  - apply andb_true_iff in Hd as [Hc Hd]. rewrite Hc.
    pose proof (is_digit_range c Hc) as Hc'.
    set (d := byte_val c - 48) in *.
    pose proof (dec_value_mono s (n * 10 + d) Hd ltac:(lia)).
    rewrite uint_cutoff_val, two64_val. rewrite uint64_max_val in *.
    destruct (Z.leb_spec 1844674407370955162 n).
    { rewrite (proj2 (Z.leb_nle _ _)) by lia. done. }
    rewrite (Z.mod_small (n * 10)) by lia.
    destruct (Z.le_gt_cases (n * 10 + d) 18446744073709551615).
    + rewrite Z.mod_small by lia.
      destruct (Z.ltb_spec (n * 10 + d) (n * 10)); [lia|].
      destruct (Z.ltb_spec 18446744073709551615 (n * 10 + d)); [lia|].
      apply IH; [done|lia].
    + rewrite Z_mod_sub_once by lia.
      rewrite (proj2 (Z.ltb_lt _ _)) by lia.
      rewrite (proj2 (Z.leb_nle _ _)) by lia. done.
Qed.

(** On short strings no [uint64] overflow can occur, and the fast path's
    digit loop computes what [ParseUint]'s loop computes. *)
Lemma atoi_digits_parse_uint_loop s n :
  0 <= n -> (n + 1) * 10 ^ Z.of_nat (String.length s) <= 10 ^ 18 ->
  parse_uint_loop s n =
  match atoi_digits s n with Some v => (v, None) | None => (0, Some ErrSyntax) end.
Proof.
  revert n. induction s as [|c s IH]; intros n Hn Hb; simpl in *; [done|].
  rewrite byte_sub_digit.
  rewrite Nat2Z.inj_succ, Z.pow_succ_r in Hb by lia.
  pose proof (pow10_ge1 (String.length s)).
  destruct (is_digit c) eqn:Hc; simpl; [|done].
  pose proof (is_digit_range c Hc). pose proof (byte_val_range c).
  assert (n * 10 + 10 <= 10 ^ 18) by nia.
  change (10 ^ 18) with 1000000000000000000 in *.
  rewrite uint_cutoff_val, two64_val, uint64_max_val.
  rewrite (proj2 (Z.leb_nle _ _)) by lia.
  rewrite (Z.mod_small (n * 10)) by lia.
  rewrite (Z.mod_small (n * 10 + _)) by lia.
  rewrite (proj2 (Z.ltb_nlt _ _)) by lia.
  rewrite (proj2 (Z.ltb_nlt _ _)) by lia. simpl.
  rewrite (Z.mod_small (byte_val c - 48)) by lia.
  rewrite wrap_int_small by (unfold int64_min, int64_max; lia).
  apply IH; [lia|]. nia.
Qed.

Lemma parse_uint_loop_ok_digits s n v :
  parse_uint_loop s n = (v, None) -> all_digits s = true.
Proof.
  revert n. induction s as [|c s IH]; intros n H; simpl in *; [done|].
  destruct (is_digit c); [|done]. simpl.
  repeat case_match; try done. eauto.
Qed.

(** The fast path's digit loop, on a short string: the decimal value or
    a syntax error; it never wraps. *)
Lemma atoi_digits_spec s n :
  0 <= n -> (n + 1) * 10 ^ Z.of_nat (String.length s) <= 10 ^ 18 ->
  atoi_digits s n = if all_digits s then Some (dec_value s n) else None.
Proof.
  intros Hn Hb. pose proof (atoi_digits_parse_uint_loop s n Hn Hb) as H.
  destruct (all_digits s) eqn:Hd.
  - pose proof (dec_value_bounds s n Hd Hn).
    rewrite parse_uint_loop_digits in H by (rewrite ?uint64_max_val; auto; lia).
    rewrite (proj2 (Z.leb_le _ _)) in H by (rewrite uint64_max_val; lia).
    destruct (atoi_digits s n); congruence.
  - destruct (atoi_digits s n); [|done].
    apply parse_uint_loop_ok_digits in H. congruence.
Qed.

(** [int64(u)] then [-n], for a magnitude up to [2^63]. *)
Lemma wrap_int_neg_magnitude u : 0 <= u <= 2 ^ 63 -> wrap_int (- wrap_int u) = - u.
Proof.
  intros Hu. destruct (Z.eq_dec u (2 ^ 63)) as [->|Hne]; [reflexivity|].
  rewrite (wrap_int_small u) by (unfold int64_min, int64_max; lia).
  apply wrap_int_small. unfold int64_min, int64_max. lia.
Qed.

Lemma is_digit_not_sign c : is_digit c = true -> Ascii.eqb c "-"%char = false /\ Ascii.eqb c "+"%char = false.
Proof.
  intros H. split; destruct (Ascii.eqb_spec c "-"%char), (Ascii.eqb_spec c "+"%char);
    subst; done.
Qed.

Lemma short_string_bound (s : string) :
  (String.length s < 19)%nat -> 10 ^ Z.of_nat (String.length s) <= 10 ^ 18.
Proof. intros. apply Z.pow_le_mono_r; lia. Qed.

(** [ParseUint]'s loop on a string shorter than 19 bytes: the decimal
    value, or a syntax error; never a range error. *)
Lemma parse_uint_short s :
  (String.length s < 19)%nat ->
  parse_uint_loop s 0 = if all_digits s then (dec_value s 0, None) else (0, Some ErrSyntax).
Proof.
  intros Hl. pose proof (short_string_bound s Hl).
  rewrite atoi_digits_parse_uint_loop, atoi_digits_spec by lia.
  by destruct (all_digits s).
Qed.

Lemma dec_value_short s :
  all_digits s = true -> (String.length s < 19)%nat -> 0 <= dec_value s 0 < 10 ^ 18.
Proof.
  intros Hd Hl. pose proof (short_string_bound s Hl).
  pose proof (dec_value_bounds s 0 Hd ltac:(lia)). lia.
Qed.

Local Ltac short_path :=
  cbn -[atoi_digits parse_uint_loop wrap_int];
  match goal with
  | |- context [atoi_digits ?t 0] =>
      pose proof (short_string_bound t ltac:(simpl in *; lia));
      rewrite atoi_digits_spec, parse_uint_short by (simpl in *; lia);
      destruct (all_digits t) eqn:Hd; [|reflexivity];
      pose proof (dec_value_short t Hd ltac:(simpl in *; lia));
      set (v := dec_value t 0) in *; clearbody v
  end;
  rewrite ?(proj2 (Z.leb_nle _ _)) by lia;
  rewrite ?(proj2 (Z.ltb_nlt _ _)) by lia; simpl;
  rewrite ?wrap_int_neg_magnitude by lia;
  rewrite ?wrap_int_small by (unfold int64_min, int64_max; lia); reflexivity.

(** [Atoi] is [ParseInt] on every input: the fast path agrees with it on
    short strings. *)
Lemma atoi_parse_int s : atoi s = parse_int s.
Proof.
  unfold atoi. destruct s as [|c rest]; [reflexivity|].
  simpl String.length. destruct (Nat.ltb_spec (S (String.length rest)) 19); [|reflexivity].
  simpl andb.
  unfold atoi_fast, parse_int, parse_uint.
  destruct (Ascii.eqb_spec c "+"%char) as [->|Hp];
    [|destruct (Ascii.eqb_spec c "-"%char) as [->|Hm]].
  1,2: destruct rest as [|c' r']; [reflexivity|short_path].
  assert (is_sign c = false) as -> by
    (apply orb_false_iff; split; apply Ascii.eqb_neq; done).
  short_path.
Qed.

(** [ParseInt] on a [-?\d+] string: its value, or [ErrRange] with the
    clamped value. *)
Lemma parse_int_signed s :
  signed_digits s = true -> parse_int s = atoi_expected (signed_value s).
Proof.
  destruct s as [|c ds]; [done|]. unfold signed_digits, signed_value, parse_int, parse_uint.
  unfold atoi_expected, in_int64, int64_min, int64_max.
  destruct (Ascii.eqb_spec c "-"%char) as [->|Hm]; simpl Ascii.eqb; cbv iota.
  - intros [Hne Hd]%andb_true_iff. destruct ds as [|c' ds']; [done|].
    rewrite parse_uint_loop_digits by (rewrite ?uint64_max_val; auto; lia).
    pose proof (dec_value_mono _ 0 Hd ltac:(lia)).
    set (v := dec_value (String c' ds') 0) in *. clearbody v.
    rewrite uint64_max_val. simpl.
    destruct (Z.leb_spec v 18446744073709551615); simpl.
    + destruct (Z.ltb_spec (2 ^ 63) v); simpl.
      * rewrite (proj2 (Z.leb_nle (- 2 ^ 63) (- v))) by lia. simpl.
        rewrite (proj2 (Z.ltb_lt _ _)) by lia. done.
      * rewrite wrap_int_neg_magnitude by lia.
        rewrite (proj2 (Z.leb_le (- 2 ^ 63) (- v))), (proj2 (Z.leb_le (- v) _)) by lia.
        done.
    + rewrite (proj2 (Z.leb_nle (- 2 ^ 63) (- v))) by lia. simpl.
      rewrite (proj2 (Z.ltb_lt _ _)) by lia. done.
  - intros Hd. assert (Hd' : all_digits (String c ds) = true) by exact Hd.
    apply andb_true_iff in Hd as [Hc _].
    destruct (is_digit_not_sign c Hc) as [_ ->].
    rewrite parse_uint_loop_digits by (rewrite ?uint64_max_val; auto; lia).
    pose proof (dec_value_mono _ 0 Hd' ltac:(lia)).
    set (v := dec_value (String c ds) 0) in *. clearbody v.
    rewrite uint64_max_val. simpl.
    destruct (Z.leb_spec v 18446744073709551615); simpl.
    + destruct (Z.leb_spec (2 ^ 63) v); simpl.
      * rewrite (proj2 (Z.leb_nle v _)) by lia. rewrite andb_false_r.
        rewrite (proj2 (Z.ltb_nlt _ _)) by lia. done.
      * rewrite wrap_int_small by (unfold int64_min, int64_max; lia).
        rewrite (proj2 (Z.leb_le (- 2 ^ 63) v)), (proj2 (Z.leb_le v _)) by lia. done.
    + rewrite (proj2 (Z.leb_nle v _)) by lia. rewrite andb_false_r.
      rewrite (proj2 (Z.ltb_nlt _ _)) by lia. done.
Qed.

Lemma digit_of_val d : 0 <= d <= 9 -> byte_val (digit_of d) = 48 + d.
Proof.
  intros Hd. unfold byte_val, digit_of.
  rewrite N_ascii_embedding by lia. lia.
Qed.

Lemma digit_of_is_digit d : 0 <= d <= 9 -> is_digit (digit_of d) = true.
Proof.
  intros Hd. unfold is_digit. rewrite digit_of_val by lia.
  apply andb_true_iff; split; apply Z.leb_le; lia.
Qed.

Lemma format_loop_spec f u acc :
  (0 < f)%nat -> 0 <= u < 10 ^ Z.of_nat f ->
  exists ds, format_loop f u acc = ds +:+ acc /\ all_digits ds = true /\
             ds <> EmptyString /\ dec_value ds 0 = u.
Proof.
  revert u acc. induction f as [|f IH]; intros u acc Hf Hu; [lia|].
  pose proof (Z.mod_pos_bound u 10 ltac:(lia)).
  cbn [format_loop]. destruct (Z.ltb_spec u 10).
  - exists (String (digit_of (u mod 10)) EmptyString). split; [done|].
    simpl. rewrite digit_of_is_digit, digit_of_val by lia.
    rewrite Z.mod_small by lia. split; [done|]. split; [done|]. lia.
  - rewrite Nat2Z.inj_succ, Z.pow_succ_r in Hu by lia.
    destruct f as [|f']; [simpl in Hu; lia|].
    destruct (IH (u / 10) (String (digit_of (u mod 10)) acc)) as (ds & Heq & Hd & Hne & Hv);
      [lia| split; [apply Z.div_pos; lia | apply Z.div_lt_upper_bound; lia] |].
    exists (ds +:+ String (digit_of (u mod 10)) EmptyString).
    rewrite Heq, string_app_assoc. split; [done|].
    rewrite all_digits_app, Hd, dec_value_app, Hv. simpl.
    rewrite digit_of_is_digit, digit_of_val by lia. split; [done|]. split.
    + destruct ds; [done|]. rewrite string_app_cons. done.
    + pose proof (Z.div_mod u 10). lia.
Qed.

Lemma format_uint_spec u :
  0 <= u <= uint64_max ->
  all_digits (format_uint u) = true /\ format_uint u <> EmptyString /\
  dec_value (format_uint u) 0 = u.
Proof.
  intros Hu. rewrite uint64_max_val in Hu. unfold format_uint.
  destruct (format_loop_spec 20 u EmptyString) as (ds & -> & Hd & Hne & Hv);
    [lia | change (10 ^ Z.of_nat 20) with 100000000000000000000; lia |].
  rewrite string_app_nil_r. auto.
Qed.

Lemma itoa_signed n :
  in_int64 n = true -> signed_digits (itoa n) = true /\ signed_value (itoa n) = n.
Proof.
  unfold in_int64, int64_min, int64_max, itoa. rewrite andb_true_iff, !Z.leb_le.
  intros Hn. destruct (Z.ltb_spec n 0).
  - destruct (format_uint_spec (- n)) as (Hd & Hne & Hv);
      [rewrite uint64_max_val; lia|].
    simpl. rewrite Hd, Hv. destruct (format_uint (- n)); [done|]. split; [done|lia].
  - destruct (format_uint_spec n) as (Hd & Hne & Hv); [rewrite uint64_max_val; lia|].
    destruct (format_uint n) as [|c ds]; [done|].
    simpl in Hd |- *. apply andb_true_iff in Hd as [Hc Hd].
    destruct (is_digit_not_sign c Hc) as [-> _]. rewrite Hc, Hd. split; [done|].
    exact Hv.
Qed.

Lemma in_int64_wrap z : in_int64 (wrap_int z) = true.
Proof.
  pose proof (wrap_int_range z). unfold in_int64. apply andb_true_iff. split; apply Z.leb_le; lia.
Qed.

(** [ParseUint] succeeds only on a non-empty digit string, with its value. *)
Lemma parse_uint_ok s u :
  parse_uint s = (u, None) ->
  s <> EmptyString /\ all_digits s = true /\ u = dec_value s 0 /\ u <= uint64_max.
Proof.
  destruct s as [|c s']; [done|]. unfold parse_uint. intros H.
  pose proof (parse_uint_loop_ok_digits _ _ _ H) as Hd.
  rewrite parse_uint_loop_digits in H by (rewrite ?uint64_max_val; auto; lia).
  destruct (Z.leb_spec (dec_value (String c s') 0) uint64_max); [|done].
  injection H as <-. done.
Qed.

(** ** Properties of the conversions *)

(** C27: On a string of the form [-?\d+] (what the seat regex captures),
    [Atoi] returns the integer the string denotes with a nil error when
    it fits a 64-bit [int], and otherwise [ErrRange] with the value
    clamped to [int64_min] or [int64_max]. *)
Theorem atoi_signed_digits s :
  signed_digits s = true -> atoi s = atoi_expected (signed_value s).
Proof. intros H. rewrite atoi_parse_int. by apply parse_int_signed. Qed.

Lemma atoi_signed_digits_witness :
  signed_digits "9223372036854775808" = true /\
  atoi "9223372036854775808" = atoi_expected (signed_value "9223372036854775808").
Proof. split; [reflexivity | apply atoi_signed_digits; reflexivity]. Defined.

(** C29: Round trip: [strconv.Atoi(strconv.Itoa(n))] returns [n] with a
    nil error for every 64-bit [int] [n], [int64_min] included. *)
Theorem atoi_itoa n : in_int64 n = true -> atoi (itoa n) = (n, None).
Proof.
  intros Hn. destruct (itoa_signed n Hn) as [Hs Hv].
  rewrite atoi_parse_int, parse_int_signed, Hv by done.
  unfold atoi_expected. by rewrite Hn.
Qed.

Lemma atoi_itoa_witness :
  in_int64 (-9223372036854775808) = true /\
  atoi (itoa (-9223372036854775808)) = (-9223372036854775808, None).
Proof. split; [reflexivity | apply atoi_itoa; reflexivity]. Defined.

(** C28: [Atoi] returns a nil error only on a decimal string with an
    optional sign, [+] or [-], and then returns the integer it denotes,
    which fits a 64-bit [int]. *)
Theorem atoi_nil_error s n :
  atoi s = (n, None) ->
  in_int64 n = true /\
  exists ds, ds <> EmptyString /\ all_digits ds = true /\
    ((s = ds /\ n = dec_value ds 0) \/ (s = String "+" ds /\ n = dec_value ds 0) \/
     (s = String "-" ds /\ n = - dec_value ds 0)).
Proof.
  rewrite atoi_parse_int. destruct s as [|c s']; [done|]. unfold parse_int.
  destruct (Ascii.eqb_spec c "+"%char) as [->|Hp];
    [|destruct (Ascii.eqb_spec c "-"%char) as [->|Hm]]; cbv iota;
    destruct (parse_uint _) as [u [e|]] eqn:Hu;
    try (intros ?; repeat (case_decide || case_match); discriminate);
    destruct (parse_uint_ok _ _ Hu) as (Hne & Hd & -> & Hmax); cbn [negb andb].
  - destruct (Z.leb_spec (2 ^ 63) (dec_value s' 0)); [done|]. intros [= <-].
    pose proof (dec_value_mono s' 0 Hd ltac:(lia)).
    split; [apply in_int64_wrap|].
    rewrite (wrap_int_small (dec_value s' 0)) by (unfold int64_min, int64_max; lia). exists s'. eauto 6.
  - destruct (Z.ltb_spec (2 ^ 63) (dec_value s' 0)); [done|]. intros [= <-].
    pose proof (dec_value_mono s' 0 Hd ltac:(lia)).
    split; [apply in_int64_wrap|]. exists s'. rewrite wrap_int_neg_magnitude by lia. eauto 6.
  - change (dec_value s' (0 * 10 + (byte_val c - 48))) with (dec_value (String c s') 0).
    destruct (Z.leb_spec (2 ^ 63) (dec_value (String c s') 0)); [done|]. intros [= <-].
    pose proof (dec_value_mono _ 0 Hd ltac:(lia)).
    split; [apply in_int64_wrap|].
    exists (String c s'). do 2 (split; [done|]). left. split; [done|].
    apply wrap_int_small. unfold int64_min, int64_max. lia.
Qed.

Lemma atoi_nil_error_witness :
  atoi "+0042" = (42, None) /\
  (in_int64 42 = true /\
   exists ds, ds <> EmptyString /\ all_digits ds = true /\
     (("+0042" = ds /\ 42 = dec_value ds 0) \/ ("+0042" = String "+" ds /\ 42 = dec_value ds 0) \/
      ("+0042" = String "-" ds /\ 42 = - dec_value ds 0))).
Proof.
  assert (H : atoi "+0042" = (42, None)) by reflexivity.
  split; [exact H | exact (atoi_nil_error _ _ H)].
Defined.

End Strconv.
