(* ===== verification/Itoa.v ===== *)
(** * Itoa: Go's [FormatInt] in base 10, two digits at a time

    [Strconv.itoa] formats a count one digit per step, a loop with fuel
    20 (a [uint64] has at most 20 decimal digits).  Go's [strconv.Itoa]
    (called at new_main.go:146) is [FormatInt(int64(i), 10)], which
    answers a value in [[0, 100)] from its table of small numbers and
    otherwise runs [formatBits]: negate a negative value as a [uint64],
    write the last two digits from [smallsString] while the value is at
    least 100, then one or two more, then the sign.  [format_bits] is that
    loop, by well-founded recursion (Equations) on the bit length of the
    value, which every round lowers, so it needs
    no fuel; [itoa_go_spec] shows that [itoa_go] agrees with [itoa] on
    every [int64], which carries the round trip and the format of the
    notification over to Go's algorithm. *)

From S2P Require Import Prelude Strconv.
From Stdlib Require Import ZArith Lia Ascii.
From Equations Require Import Equations.

Local Open Scope Z_scope.

Module Itoa.
Import Strconv.

(** [inspect] keeps the equation of the test in the clause. *)
Definition inspect {A} (a : A) : {b | a = b} := exist _ a eq_refl.

(** ** Go's tables *)

(** [const digits = "0123456789abcdefghijklmnopqrstuvwxyz"], base 10 part. *)
Definition digits : string := "0123456789".

(** [const smallsString = "00010203...9899"]. *)
Definition smallsString : string := "00010203040506070809101112131415161718192021222324252627282930313233343536373839404142434445464748495051525354555657585960616263646566676869707172737475767778798081828384858687888990919293949596979899".

(** [smallsString[i]] (a byte past the end never happens below). *)
Definition smalls (i : Z) : ascii :=
  match String.get (Z.to_nat i) smallsString with Some c => c | None => "0"%char end.

(** [small(i)]: [digits[i:i+1]] below 10, [smallsString[i*2:i*2+2]] else. *)
Definition small (i : Z) : string :=
  if Z.ltb i 10 then
    match String.get (Z.to_nat i) digits with Some c => String c EmptyString | None => EmptyString end
  else String (smalls (i * 2)) (String (smalls (i * 2 + 1)) EmptyString).

(** The base-10 loop of [formatBits]: [acc] is [a[i:]] and [ix] is Go's [is], the digits
    written so far from the right. *)
Equations format_bits (us : Z) (acc : string) : string by wf (Z.to_nat (Z.log2 us)) lt :=
  format_bits us acc with inspect (Z.ltb us 100) := {
    | exist _ true _ =>
        let ix := us * 2 in
        let acc := String (smalls (ix + 1)) acc in
        if Z.leb 10 us then String (smalls ix) acc else acc ;
    | exist _ false H =>
        let ix := us mod 100 * 2 in
        format_bits (us / 100) (String (smalls ix) (String (smalls (ix + 1)) acc)) }.
Next Obligation.
  apply Z.ltb_ge in H.
  assert (Z.log2 (us / 100) <= Z.log2 (us / 2))
    by (apply Z.log2_le_mono, Z.div_le_compat_l; lia).
  change (us / 2) with (us / 2 ^ 1) in H0.
  rewrite <- (Z.shiftr_div_pow2 us 1), Z.log2_shiftr in H0 by lia.
  pose proof (Z.log2_nonneg (us / 100)). pose proof (Z.log2_le_mono 2 us ltac:(lia)).
  change (Z.log2 2) with 1 in *. apply Z2Nat.inj_lt; lia.
Qed.

(** [FormatInt(i, 10)]: the small fast path, else [formatBits] with
    [u = uint64(i)] negated as a [uint64] when [i < 0]. *)
Definition itoa_go (i : Z) : string :=
  if (Z.leb 0 i && Z.ltb i 100)%bool then small i
  else
    let u := if Z.ltb i 0 then (- i) mod 2 ^ 64 else i in
    let s := format_bits u EmptyString in
    if Z.ltb i 0 then String "-"%char s else s.

(** ** The tables against the digit loop *)

Definition smalls_ok (k : Z) : bool :=
  Ascii.eqb (smalls (k * 2)) (digit_of (k / 10)) && Ascii.eqb (smalls (k * 2 + 1)) (digit_of (k mod 10)).

Definition small_ok (k : Z) : bool := String.eqb (small k) (format_uint k).

(** A property of the first hundred numbers, checked by evaluation. *)
Lemma below_100 (p : Z -> bool) k :
  forallb (fun n => p (Z.of_nat n)) (seq 0 100) = true -> 0 <= k < 100 -> p k = true.
Proof.
  intros Hall Hk. rewrite forallb_forall in Hall.
  rewrite <- (Z2Nat.id k) by lia. apply Hall, in_seq. lia.
Qed.

Lemma smalls_spec k :
  0 <= k < 100 -> smalls (k * 2) = digit_of (k / 10) /\ smalls (k * 2 + 1) = digit_of (k mod 10).
Proof.
  intros Hk. pose proof (below_100 smalls_ok k ltac:(vm_compute; reflexivity) Hk) as H.
  unfold smalls_ok in H. apply andb_true_iff in H as [H1 H2].
  apply Ascii.eqb_eq in H1, H2. done.
Qed.

Lemma small_spec k : 0 <= k < 100 -> small k = format_uint k.
Proof.
  intros Hk. apply String.eqb_eq, (below_100 small_ok k ltac:(vm_compute; reflexivity) Hk).
Qed.

(** The two low digits of [u], by [u mod 100]. *)
Lemma mod100_digits u :
  0 <= u -> (u mod 100) / 10 = (u / 10) mod 10 /\ (u mod 100) mod 10 = u mod 10.
Proof.
  intros Hu.
  assert (H : u mod 100 = 10 * ((u / 10) mod 10) + u mod 10).
  { pose proof (Z.div_mod u 100 ltac:(lia)). pose proof (Z.div_mod u 10 ltac:(lia)).
    pose proof (Z.div_mod (u / 10) 10 ltac:(lia)). rewrite Z.div_div in * by lia. change (10 * 10) with 100 in *. lia. }
  rewrite H.
  pose proof (Z.mod_pos_bound u 10 ltac:(lia)). pose proof (Z.mod_pos_bound (u / 10) 10 ltac:(lia)).
  split; [symmetry; apply Z.div_unique with (u mod 10) | symmetry; apply Z.mod_unique with ((u / 10) mod 10)]; lia.
Qed.

(** Two steps of the digit loop on a value of three digits or more. *)
Lemma format_loop_two f u acc :
  100 <= u ->
  format_loop (S (S f)) u acc =
  format_loop f (u / 100) (String (digit_of ((u / 10) mod 10)) (String (digit_of (u mod 10)) acc)).
Proof.
  intros Hu. cbn [format_loop].
  destruct (Z.ltb_spec u 10); [lia|].
  assert (10 <= u / 10) by (apply Z.div_le_lower_bound; lia).
  destruct (Z.ltb_spec (u / 10) 10); [lia|]. by rewrite Z.div_div by lia.
Qed.

(** [formatBits] computes what the digit loop computes, given the fuel
    the value's digits need. *)
Lemma format_bits_loop u acc :
  forall f, (0 < f)%nat -> 0 <= u < 10 ^ Z.of_nat f -> format_bits u acc = format_loop f u acc.
Proof.
  funelim (format_bits u acc); intros f Hf Hu.
  - pose proof (proj1 (Z.ltb_lt _ _) e). destruct f as [|f]; [lia|].
    destruct (smalls_spec us) as [-> ->]; [lia|]. cbn [format_loop].
    destruct (Z.leb_spec 10 us), (Z.ltb_spec us 10); try lia; [|done].
    destruct f as [|f]; [simpl in Hu; lia|].
    assert (0 <= us / 10 < 10) by (split; [apply Z.div_pos | apply Z.div_lt_upper_bound]; lia).
    cbn [format_loop]. destruct (Z.ltb_spec (us / 10) 10); [|lia].
    by rewrite (Z.mod_small (us / 10)).
  - pose proof (proj1 (Z.ltb_ge _ _) H). destruct f as [|[|[|f]]]; [lia | simpl in Hu; lia | simpl in Hu; lia |].
    replace (Z.of_nat (S (S (S f)))) with (2 + Z.of_nat (S f)) in Hu by lia.
    rewrite Z.pow_add_r in Hu by lia. change (10 ^ 2) with 100 in Hu.
    rewrite (H0 (S f)); [| lia | split; [apply Z.div_pos | apply Z.div_lt_upper_bound]; lia].
    rewrite format_loop_two by lia.
    pose proof (Z.mod_pos_bound us 100 ltac:(lia)).
    destruct (smalls_spec (us mod 100)) as [-> ->]; [lia|].
    by destruct (mod100_digits us) as [-> ->]; [lia|].
Qed.

(** ** Properties *)

(** C30: Go's [strconv.Itoa] (fast path for [[0, 100)], [formatBits]
    two digits at a time, the sign after) returns on every [int64] the
    decimal string of the digit-by-digit reference [itoa], with no fuel:
    its loop terminates by well-founded recursion on the bit length of the value. *)
Theorem itoa_go_spec i :
  int64_min <= i <= int64_max -> itoa_go i = itoa i.
Proof.
  intros Hi. unfold int64_min, int64_max in Hi. unfold itoa_go, itoa.
  assert (H20 : 2 ^ 64 < 10 ^ Z.of_nat 20) by (vm_compute; reflexivity).
  destruct (Z.leb_spec 0 i), (Z.ltb_spec i 100), (Z.ltb_spec i 0); simpl; try lia.
  all: lazymatch goal with
       | |- small _ = _ => apply small_spec; lia
       | |- _ => unfold format_uint; rewrite ?Z.mod_small by lia; try f_equal;
                 apply format_bits_loop; lia
       end.
Qed.

Lemma itoa_go_spec_witness :
  int64_min <= int64_min <= int64_max /\
  itoa_go int64_min = "-9223372036854775808"%string /\ itoa_go int64_min = itoa int64_min.
Proof.
  assert (H : int64_min <= int64_min <= int64_max) by (vm_compute; split; discriminate).
  split; [exact H|]. split; [vm_compute; reflexivity | exact (itoa_go_spec int64_min H)].
Defined.

End Itoa.
