(* ===== verification/Url.v ===== *)
(** * Url: the [net/url] encoding the program relies on

    The watcher builds its request body with [url.Values]
    (new_main.go:87-91: [form.Add] twice, then [form.Encode()]), and gin
    reads the handlers' parameters with [c.Query] (lines 36, 37, 59),
    which is [url.ParseQuery] on the request's query string.  This file
    models both sides as Go's [net/url] implements them (Go 1.17 and
    later, where a [';'] in a query is an error):
    - [query_escape] is [url.QueryEscape]; [query_unescape] is
      [url.QueryUnescape];
    - [values] is [url.Values] as the list of its keys with their values,
      [values_add] is [Add], [values_encode] is [Encode] (keys sorted
      byte-wise, one [k=v] per value, joined by ['&']);
    - [parse_query] is [url.ParseQuery]: the pairs it keeps, in order
      (pieces that are empty, contain [';'] or fail to unescape are
      dropped), and [query_get] is [Values.Get] / [c.Query] (the first
      value, [""] when the key is absent).
    The main lemma is the round trip [parse_query_encode]: parsing an
    encoded list of pairs gives the pairs back. *)

From S2P Require Import Prelude Strconv.
From Stdlib Require Import ZArith Lia Ascii.
From stdpp Require Import sorting.

Local Open Scope Z_scope.

Module Url.
Import Strconv.

(** ** [url.QueryEscape] *)

(** One byte: unreserved bytes are kept, a space is ['+'], anything else
    is [%XX] with upper-case hex digits. *)
Definition hex_digit (n : Z) : ascii :=
  if n <? 10 then ascii_of_N (Z.to_N (48 + n)) else ascii_of_N (Z.to_N (55 + n)).

Definition is_unreserved (c : ascii) : bool :=
  let b := byte_val c in
  ((65 <=? b) && (b <=? 90)) || ((97 <=? b) && (b <=? 122)) || ((48 <=? b) && (b <=? 57)) ||
  Ascii.eqb c "-"%char || Ascii.eqb c "_"%char || Ascii.eqb c "."%char || Ascii.eqb c "~"%char.

Fixpoint query_escape (s : string) : string :=
  match s with
  | EmptyString => EmptyString
  | String c s' =>
      if is_unreserved c then String c (query_escape s')
      else if Ascii.eqb c " "%char then String "+"%char (query_escape s')
      else String "%"%char (String (hex_digit (byte_val c / 16))
                             (String (hex_digit (byte_val c mod 16)) (query_escape s')))
  end.

(** ** [url.QueryUnescape]: ['+'] is a space, [%XY] a byte, anything else
    itself; a malformed escape is an error. *)
Definition hex_val (c : ascii) : option Z :=
  let b := byte_val c in
  if (48 <=? b) && (b <=? 57) then Some (b - 48)
  else if (65 <=? b) && (b <=? 70) then Some (b - 55)
  else if (97 <=? b) && (b <=? 102) then Some (b - 87)
  else None.

Fixpoint query_unescape (s : string) : option string :=
  match s with
  | EmptyString => Some EmptyString
  | String c s' =>
      if Ascii.eqb c "%"%char then
        match s' with
        | String h1 (String h2 s'') =>
            match hex_val h1, hex_val h2 with
            | Some x, Some y =>
                option_map (String (ascii_of_N (Z.to_N (16 * x + y)))) (query_unescape s'')
            | _, _ => None
            end
        | _ => None
        end
      else if Ascii.eqb c "+"%char then option_map (String " "%char) (query_unescape s')
      else option_map (String c) (query_unescape s')
  end.

(** ** [url.Values] *)
Definition values : Type := list (string * list string).

(** [v[key] = append(v[key], value)] *)
Fixpoint values_add (vs : values) (key value : string) : values :=
  match vs with
  | [] => [(key, [value])]
  | (k, xs) :: vs' =>
      if String.eqb k key then (k, xs ++ [value]) :: vs' else (k, xs) :: values_add vs' key value
  end.

(** [sort.Strings(keys)]: byte-wise order of the keys. *)
Definition key_le (a b : string * list string) : Prop := String.leb a.1 b.1 = true.

#[export] Instance key_le_dec : RelDecision key_le.
Proof. intros a b. unfold key_le. apply _. Defined.

(** [k=v] with both sides escaped, for each pair, joined by ['&']. *)
Fixpoint encode_pairs (kvs : list (string * string)) : string :=
  match kvs with
  | [] => EmptyString
  | [(k, v)] => query_escape k +:+ "=" +:+ query_escape v
  | (k, v) :: kvs' => query_escape k +:+ "=" +:+ query_escape v +:+ "&" +:+ encode_pairs kvs'
  end.

(** The pairs of [Values], keys in sorted order, values in order. *)
Definition values_pairs (vs : values) : list (string * string) :=
  concat (map (fun kv => map (fun v => (kv.1, v)) kv.2) (merge_sort key_le vs)).

Definition values_encode (vs : values) : string := encode_pairs (values_pairs vs).

(** ** [url.ParseQuery] *)

(** [strings.Split(s, sep)] *)
Fixpoint split_on (sep : ascii) (s : string) : list string :=
  match s with
  | EmptyString => [EmptyString]
  | String c s' =>
      if Ascii.eqb c sep then EmptyString :: split_on sep s'
      else match split_on sep s' with
           | p :: ps => String c p :: ps
           | [] => [String c EmptyString]
           end
  end.

(** [strings.Cut(s, sep)]: before and after the first [sep]. *)
Fixpoint cut (sep : ascii) (s : string) : string * string :=
  match s with
  | EmptyString => (EmptyString, EmptyString)
  | String c s' =>
      if Ascii.eqb c sep then (EmptyString, s') else let '(a, b) := cut sep s' in (String c a, b)
  end.

Fixpoint has_char (c : ascii) (s : string) : bool :=
  match s with
  | EmptyString => false
  | String c' s' => Ascii.eqb c' c || has_char c s'
  end.

(** One piece between ['&']s: dropped when empty, when it holds a
    [';'], or when its key or value does not unescape. *)
Definition parse_pair (piece : string) : option (string * string) :=
  if has_char ";"%char piece then None
  else if String.eqb piece EmptyString then None
  else let '(k, v) := cut "="%char piece in
       match query_unescape k, query_unescape v with
       | Some k', Some v' => Some (k', v')
       | _, _ => None
       end.

Definition parse_query (q : string) : list (string * string) :=
  omap parse_pair (split_on "&"%char q).

(** [c.Query(key)]: the first value of [key], [""] when there is none. *)
Definition query_get (q : string) (key : string) : string :=
  match list_find (fun kv => kv.1 = key) (parse_query q) with
  | Some (_, kv) => kv.2
  | None => EmptyString
  end.

(** The bytes [query_escape] may output. *)
Definition escaped_char (c : ascii) : bool :=
  is_unreserved c || Ascii.eqb c "%"%char || Ascii.eqb c "+"%char.

Fixpoint all_chars (p : ascii -> bool) (s : string) : bool :=
  match s with
  | EmptyString => true
  | String c s' => p c && all_chars p s'
  end.

(** ** Escaping *)

Lemma hex_val_digit n : 0 <= n < 16 -> hex_val (hex_digit n) = Some n.
Proof.
  intros Hn. replace n with (Z.of_nat (Z.to_nat n)) by lia.
  assert (Hk : (Z.to_nat n < 16)%nat) by lia. revert Hk.
  generalize (Z.to_nat n) as k. intros k Hk.
  do 16 (destruct k as [|k]; [reflexivity|]). lia.
Qed.

Lemma hex_digit_escaped n : 0 <= n < 16 -> escaped_char (hex_digit n) = true.
Proof.
  intros Hn. replace n with (Z.of_nat (Z.to_nat n)) by lia.
  assert (Hk : (Z.to_nat n < 16)%nat) by lia. revert Hk.
  generalize (Z.to_nat n) as k. intros k Hk.
  do 16 (destruct k as [|k]; [reflexivity|]). lia.
Qed.

Lemma unreserved_not_special c :
  is_unreserved c = true -> Ascii.eqb c "%"%char = false /\ Ascii.eqb c "+"%char = false.
Proof. intros H. split; apply Ascii.eqb_neq; intros ->; discriminate H. Qed.

Lemma byte_val_split c :
  ascii_of_N (Z.to_N (16 * (byte_val c / 16) + byte_val c mod 16)) = c.
Proof.
  rewrite <- Z.div_mod by lia. unfold byte_val. rewrite N2Z.id. apply ascii_N_embedding.
Qed.

(** [QueryUnescape] undoes [QueryEscape], whose output has only
    unreserved bytes, ['%'] and ['+']. *)
Lemma query_escape_spec s :
  query_unescape (query_escape s) = Some s /\ all_chars escaped_char (query_escape s) = true.
Proof.
  induction s as [|c s [IH Hall]]; [done|]. simpl.
  destruct (is_unreserved c) eqn:Hu.
  - cbn [query_unescape all_chars]. destruct (unreserved_not_special c Hu) as [-> ->].
    rewrite IH, Hall. unfold escaped_char. by rewrite Hu.
  - destruct (Ascii.eqb_spec c " "%char) as [->|Hsp]; simpl; [by rewrite IH, Hall|].
    pose proof (byte_val_range c).
    assert (H1 : 0 <= byte_val c / 16 < 16)
      by (split; [apply Z.div_pos | apply Z.div_lt_upper_bound]; lia).
    assert (H2 : 0 <= byte_val c mod 16 < 16) by (apply Z.mod_pos_bound; lia).
    rewrite !hex_val_digit by done. simpl.
    by rewrite IH, byte_val_split, !hex_digit_escaped, Hall.
Qed.

(** ** Splitting *)

(** [s] has no byte [sep]. *)
Definition avoids (sep : ascii) (s : string) : bool := all_chars (fun c => negb (Ascii.eqb c sep)) s.

Lemma avoids_app sep s1 s2 : avoids sep (s1 +:+ s2) = avoids sep s1 && avoids sep s2.
Proof.
  induction s1 as [|c s1 IH]; [done|]. rewrite string_app_cons. unfold avoids in *. simpl.
  by rewrite IH, andb_assoc.
Qed.

(** ['&'], ['='] and [';'] are never output by [query_escape]. *)
Lemma escaped_avoids s sep :
  all_chars escaped_char s = true -> sep = "&"%char \/ sep = "="%char \/ sep = ";"%char ->
  avoids sep s = true.
Proof.
  intros Hs Hsep. unfold avoids. induction s as [|c s IH]; [done|]. simpl in *.
  apply andb_true_iff in Hs as [Hc Hs]. rewrite IH by done. rewrite andb_true_r.
  apply negb_true_iff, Ascii.eqb_neq. intros ->. by destruct Hsep as [->|[->| ->]].
Qed.

Lemma split_on_cons sep p : exists q qs, split_on sep p = q :: qs.
Proof.
  induction p as [|c p [q [qs IH]]]; simpl; [by eexists _, _|].
  rewrite IH. case_match; eauto.
Qed.

Lemma avoids_spec s sep :
  avoids sep s = true ->
  (forall p q qs, split_on sep p = q :: qs -> split_on sep (s +:+ p) = (s +:+ q) :: qs) /\
  (forall p, cut sep (s +:+ String sep p) = (s, p)) /\
  (forall p, has_char sep (s +:+ p) = has_char sep p).
Proof.
  intros Hs. induction s as [|c s IH].
  { split; [|split]; intros p; rewrite ?string_app_nil_l;
      [done | simpl; by rewrite Ascii.eqb_refl | done]. }
  simpl in Hs. apply andb_true_iff in Hs as [Hc%negb_true_iff Hs].
  destruct (IH Hs) as (H1 & H2 & H3).
  split; [|split]; intros p; rewrite !string_app_cons; simpl; rewrite Hc.
  - intros q qs Hp. by rewrite (H1 p q qs Hp).
  - by rewrite H2.
  - by rewrite H3.
Qed.

(** ** The round trip *)

Definition encode_pair (kv : string * string) : string :=
  query_escape kv.1 +:+ "=" +:+ query_escape kv.2.

Lemma encode_pair_avoids kv sep :
  sep = "&"%char \/ sep = ";"%char -> avoids sep (encode_pair kv) = true.
Proof.
  intros Hsep. unfold encode_pair. rewrite !avoids_app.
  assert (Hs : sep = "&"%char \/ sep = "="%char \/ sep = ";"%char) by naive_solver.
  rewrite (escaped_avoids (query_escape kv.1) sep (proj2 (query_escape_spec _)) Hs).
  rewrite (escaped_avoids (query_escape kv.2) sep (proj2 (query_escape_spec _)) Hs).
  by destruct Hsep as [-> | ->].
Qed.

Lemma has_char_avoids sep s : avoids sep s = true -> has_char sep s = false.
Proof.
  unfold avoids. induction s as [|c s IH]; [done|]. simpl.
  intros [Hc%negb_true_iff Hs]%andb_true_iff. by rewrite Hc, IH.
Qed.

Lemma parse_pair_encode kv : parse_pair (encode_pair kv) = Some kv.
Proof.
  destruct kv as [k v]. unfold parse_pair.
  rewrite (has_char_avoids _ _ (encode_pair_avoids (k, v) ";"%char (or_intror eq_refl))).
  assert (Hne : String.eqb (encode_pair (k, v)) EmptyString = false)
    by (unfold encode_pair; simpl; by destruct (query_escape k)).
  rewrite Hne. unfold encode_pair. simpl.
  destruct (query_escape_spec k) as [Hk Hak], (query_escape_spec v) as [Hv _].
  destruct (avoids_spec _ "="%char (escaped_avoids _ "="%char Hak (or_intror (or_introl eq_refl)))) as (_ & Hc & _).
  change ("=" +:+ query_escape v) with (String "="%char (query_escape v)).
  rewrite Hc. simpl. by rewrite Hk, Hv.
Qed.

Lemma split_encode_pairs kvs :
  kvs <> [] -> split_on "&"%char (encode_pairs kvs) = map encode_pair kvs.
Proof.
  induction kvs as [|[k v] kvs IH]; [done|]. intros _.
  destruct (avoids_spec _ _ (encode_pair_avoids (k, v) "&"%char ltac:(auto))) as (H1 & _ & _).
  destruct kvs as [|kv' kvs'].
  - change (encode_pairs [(k, v)]) with (encode_pair (k, v)).
    rewrite <- (string_app_nil_r (encode_pair (k, v))).
    by rewrite (H1 EmptyString EmptyString [] eq_refl), string_app_nil_r.
  - assert (E : encode_pairs ((k, v) :: kv' :: kvs') =
                 encode_pair (k, v) +:+ String "&"%char (encode_pairs (kv' :: kvs'))).
    { cbn [encode_pairs]. unfold encode_pair. simpl.
      rewrite !string_app_assoc. reflexivity. }
    rewrite E. destruct (split_on_cons "&"%char (encode_pairs (kv' :: kvs'))) as (q & qs & Hq).
    assert (Hs : split_on "&"%char (String "&"%char (encode_pairs (kv' :: kvs'))) =
                 EmptyString :: q :: qs) by (rewrite <- Hq; reflexivity).
    rewrite (H1 _ _ _ Hs).
    rewrite string_app_nil_r, <- Hq, IH by done. done.
Qed.

(** [url.ParseQuery] gives back every list of pairs from its encoding. *)
Lemma parse_query_encode kvs : parse_query (encode_pairs kvs) = kvs.
Proof.
  destruct kvs as [|kv kvs]; [done|]. unfold parse_query.
  rewrite split_encode_pairs by done. simpl. rewrite parse_pair_encode.
  f_equal. induction kvs as [|kv' kvs IH]; [done|]. simpl. by rewrite parse_pair_encode, IH.
Qed.

End Url.
