(* ===== verification/Seats.v ===== *)
(** * Seats: [parseAvailableSeats] (new_main.go:128-136)

    [regexp.MustCompile(`Enrollment Seats Available:</span> <span
    dir="ltr"> (-?\d+) </span>`)], [FindStringSubmatch] (the leftmost
    match and its group 1), then [strconv.Atoi] of the group.

    The pattern is a literal prefix, the group [-?\d+] and a literal
    suffix.  Go's engine has leftmost-first semantics; at a given start
    the pattern admits at most one match (the greedy [\d+] is followed by
    a space, which is not a digit, and [-?] followed by [\d+] cannot skip
    a ['-']), so the scan below, which tries each start position in turn
    and matches the group greedily, is that engine on this pattern.  The
    pattern is ASCII and UTF-8 continuation bytes are never ASCII, so
    matching bytes is matching runes.

    Proved here: the scan agrees with the declarative reading of the
    regex (sound, complete, leftmost), the exact result of
    [parseAvailableSeats] on every page, and the round trip from a page
    that shows a count to that count. *)

From S2P Require Import Prelude Strconv.
From Stdlib Require Import ZArith Lia Ascii.

Local Open Scope Z_scope.

Module Seats.
Import Strconv.

(** ** The pattern *)
Definition dquote : ascii := ascii_of_nat 34.

(** [Enrollment Seats Available:</span> <span dir="ltr"> ] *)
Definition seats_prefix : string :=
  "Enrollment Seats Available:</span> <span dir=" +:+
  String dquote ("ltr" +:+ String dquote "> ").

(** [ </span>] *)
Definition seats_suffix : string := " </span>".

(** ** The matcher *)
Fixpoint strip_prefix (p s : string) : option string :=
  match p, s with
  | EmptyString, _ => Some s
  | String a p', String b s' => if Ascii.eqb a b then strip_prefix p' s' else None
  | String _ _, EmptyString => None
  end.

(** Greedy [\d+]: the longest run of ASCII digits. *)
Fixpoint span_digits (s : string) : string * string :=
  match s with
  | String c s' =>
      if is_digit c then let '(ds, r) := span_digits s' in (String c ds, r)
      else (EmptyString, s)
  | EmptyString => (EmptyString, EmptyString)
  end.

(** [(-?\d+) </span>] after the literal prefix: the group, if it matches. *)
Definition match_group (r : string) : option string :=
  let '(sign, r1) :=
    match r with
    | String c r' => if Ascii.eqb c "-"%char then (String c EmptyString, r') else (EmptyString, r)
    | EmptyString => (EmptyString, r)
    end in
  let '(ds, r2) := span_digits r1 in
  if String.eqb ds EmptyString then None
  else match strip_prefix seats_suffix r2 with
       | Some _ => Some (sign +:+ ds)
       | None => None
       end.

(** A match starting at the first byte of [s]. *)
Definition match_at (s : string) : option string :=
  match strip_prefix seats_prefix s with
  | Some r => match_group r
  | None => None
  end.

(** [re.FindStringSubmatch(htmlStr)]: [matches[1]] of the leftmost match,
    [None] when [len(matches) < 2]. *)
Fixpoint find_submatch (s : string) : option string :=
  match s with
  | EmptyString => match_at s
  | String _ s' =>
      match match_at s with
      | Some g => Some g
      | None => find_submatch s'
      end
  end.

Definition parseAvailableSeats (htmlStr : string) : goresult Z :=
  match find_submatch htmlStr with
  | None => (0, Some ErrNoSeats)
  | Some g => atoi g
  end.

(** ** Declarative reading of the regex *)

(** [s] matches the pattern at its first byte with group [g]. *)
Definition regex_match_at (s g : string) : Prop :=
  signed_digits g = true /\ exists rest, s = seats_prefix +:+ g +:+ seats_suffix +:+ rest.

(** The suffix of [s] from byte [k]. *)
Fixpoint sdrop (k : nat) (s : string) : string :=
  match k, s with
  | O, _ => s
  | S k', String _ s' => sdrop k' s'
  | S _, EmptyString => EmptyString
  end.

(** A string with no ['E'] byte: no match of the pattern can start in it. *)
Fixpoint no_E (s : string) : bool :=
  match s with
  | EmptyString => true
  | String c s' => negb (Ascii.eqb c "E"%char) && no_E s'
  end.

(** [r] is empty or starts with a byte that is not a digit: where a
    greedy [\d+] stops. *)
Definition starts_nondigit (r : string) : bool :=
  match r with
  | String c _ => negb (is_digit c)
  | EmptyString => true
  end.

(** ** The matcher's building blocks *)

Lemma strip_prefix_app p s : strip_prefix p (p +:+ s) = Some s.
Proof. induction p; [done|]. rewrite string_app_cons. simpl. by rewrite Ascii.eqb_refl. Qed.

Lemma strip_prefix_inv p s r : strip_prefix p s = Some r -> s = p +:+ r.
Proof.
  revert s. induction p as [|a p IH]; intros [|b s] H; simpl in *;
    rewrite ?string_app_nil_l; try congruence.
  destruct (Ascii.eqb_spec a b); [subst|done]. rewrite string_app_cons.
  f_equal. auto.
Qed.

Lemma span_digits_inv s ds r :
  span_digits s = (ds, r) ->
  s = ds +:+ r /\ all_digits ds = true /\ starts_nondigit r = true.
Proof.
  revert ds r. induction s as [|c s IH]; intros ds r H; simpl in H.
  - by injection H as <- <-.
  - destruct (is_digit c) eqn:Hc.
    + destruct (span_digits s) as [ds' r'] eqn:E. injection H as <- <-.
      destruct (IH _ _ eq_refl) as (-> & Hd & Hr).
      rewrite string_app_cons. simpl. by rewrite Hc, Hd.
    + injection H as <- <-. simpl. by rewrite Hc.
Qed.

Lemma span_digits_app ds r :
  all_digits ds = true -> starts_nondigit r = true -> span_digits (ds +:+ r) = (ds, r).
Proof.
  induction ds as [|c ds IH]; intros Hd Hr;
    rewrite ?string_app_nil_l, ?string_app_cons; simpl in *.
  - destruct r as [|c r]; [done|]. simpl in *. by destruct (is_digit c).
  - apply andb_true_iff in Hd as [Hc Hd]. by rewrite Hc, IH.
Qed.

(** The group matcher is the regex [(-?\d+) </span>] read declaratively. *)
Lemma match_group_spec r g :
  match_group r = Some g <->
  signed_digits g = true /\ exists rest, r = g +:+ seats_suffix +:+ rest.
Proof.
  split.
  - unfold match_group. intros H. destruct r as [|c r']; [done|].
    destruct (Ascii.eqb_spec c "-"%char) as [->|Hm].
    + destruct (span_digits r') as [ds r2] eqn:E.
      apply span_digits_inv in E as (-> & Hd & _).
      destruct (String.eqb_spec ds EmptyString) as [->|Hne]; [done|].
      destruct (strip_prefix seats_suffix r2) as [rest|] eqn:Es; [|done].
      injection H as <-. apply strip_prefix_inv in Es as ->.
      rewrite string_app_cons, string_app_nil_l. split.
      * simpl. rewrite Hd. by destruct (String.eqb_spec ds EmptyString).
      * exists rest. done.
    + destruct (span_digits (String c r')) as [ds r2] eqn:E.
      apply span_digits_inv in E as (Er & Hd & _).
      destruct (String.eqb_spec ds EmptyString) as [->|Hne]; [done|].
      destruct (strip_prefix seats_suffix r2) as [rest|] eqn:Es; [|done].
      injection H as <-. apply strip_prefix_inv in Es as ->.
      destruct ds as [|c' ds]; [done|]. rewrite string_app_cons in Er.
      injection Er as <- ->. split.
      * simpl. apply Ascii.eqb_neq in Hm. by rewrite Hm.
      * exists rest. done.
  - intros [Hs [rest ->]]. destruct g as [|c ds]; [done|].
    unfold signed_digits in Hs. unfold match_group.
    rewrite string_app_cons. cbn -[seats_suffix span_digits strip_prefix String.append].
    destruct (Ascii.eqb_spec c "-"%char) as [->|Hm].
    + apply andb_true_iff in Hs as [Hne Hd].
      rewrite span_digits_app by done.
      destruct (String.eqb_spec ds EmptyString); [done|].
      by rewrite strip_prefix_app.
    + rewrite <- string_app_cons.
      rewrite span_digits_app by (exact Hs || reflexivity).
      cbn -[seats_suffix strip_prefix String.append]. by rewrite strip_prefix_app.
Qed.

(** The matcher at one position is the regex at that position. *)
Lemma match_at_spec s g : match_at s = Some g <-> regex_match_at s g.
Proof.
  unfold match_at, regex_match_at. split.
  - destruct (strip_prefix seats_prefix s) as [r|] eqn:E; [|done].
    apply strip_prefix_inv in E as ->. intros (Hs & rest & ->)%match_group_spec.
    split; [done|]. exists rest. done.
  - intros (Hs & rest & ->). rewrite strip_prefix_app.
    apply match_group_spec. eauto.
Qed.

Lemma match_at_none s : match_at s = None <-> forall g, ~ regex_match_at s g.
Proof.
  split.
  - intros H g Hg%match_at_spec. congruence.
  - intros H. destruct (match_at s) as [g|] eqn:E; [|done].
    apply match_at_spec in E. by destruct (H g).
Qed.

(** The scan returns the match at the first position that has one. *)
Lemma find_submatch_first s g :
  find_submatch s = Some g <->
  exists k, match_at (sdrop k s) = Some g /\ forall j, (j < k)%nat -> match_at (sdrop j s) = None.
Proof.
  induction s as [|c s IH]; simpl.
  - split; [intros H; exists 0%nat; split; [done|lia]|].
    intros (k & Hk & _). by destruct k.
  - destruct (match_at (String c s)) as [g'|] eqn:E.
    + split.
      * intros [= <-]. exists 0%nat. split; [done|lia].
      * intros ([|k] & Hk & Hj); simpl in Hk; [congruence|].
        specialize (Hj 0%nat ltac:(lia)). simpl in Hj. congruence.
    + rewrite IH. split.
      * intros (k & Hk & Hj). exists (S k). split; [done|].
        intros [|j] Hj'; [done|]. apply Hj. lia.
      * intros ([|k] & Hk & Hj); simpl in Hk; [congruence|].
        exists k. split; [done|]. intros j Hj'. apply (Hj (S j)). lia.
Qed.

Lemma find_submatch_none s :
  find_submatch s = None <-> forall k, match_at (sdrop k s) = None.
Proof.
  induction s as [|c s IH]; simpl.
  - split; [intros H [|k]; done | intros H; exact (H 0%nat)].
  - destruct (match_at (String c s)) as [g'|] eqn:E.
    + split; [done|]. intros H. specialize (H 0%nat). simpl in H. congruence.
    + rewrite IH. split.
      * intros H [|k]; [done|]. apply H.
      * intros H k. exact (H (S k)).
Qed.

Lemma seats_prefix_head : exists p, seats_prefix = String "E"%char p.
Proof. eexists. reflexivity. Qed.

(** No match starts at a byte other than ['E']. *)
Lemma find_submatch_skip pre t : no_E pre = true -> find_submatch (pre +:+ t) = find_submatch t.
Proof.
  induction pre as [|c pre IH]; [done|]. intros H. simpl in H.
  apply andb_true_iff in H as [Hc Hp]. rewrite string_app_cons. cbn [find_submatch].
  replace (match_at (String c (pre +:+ t))) with (@None string) by
    (unfold match_at; destruct seats_prefix_head as [p ->]; cbn [strip_prefix];
     rewrite Ascii.eqb_sym; destruct (Ascii.eqb c "E"%char); done).
  auto.
Qed.

Lemma find_submatch_signed s g : find_submatch s = Some g -> signed_digits g = true.
Proof. intros (k & Hk%match_at_spec & _)%find_submatch_first. apply Hk. Qed.

(** A [-?\d+] token followed by a non-digit is determined by the string:
    two such decompositions agree. *)
Lemma signed_digits_app_inj a b x y :
  signed_digits a = true -> signed_digits b = true ->
  starts_nondigit x = true -> starts_nondigit y = true ->
  a +:+ x = b +:+ y -> a = b /\ x = y.
Proof.
  destruct a as [|ca da], b as [|cb db]; try done. simpl.
  rewrite !string_app_cons. intros Hsa Hsb Hx Hy Heq.
  assert (ca = cb) as <- by congruence.
  assert (Heq' : da +:+ x = db +:+ y) by congruence.
  destruct (Ascii.eqb_spec ca "-"%char) as [->|Ha].
  - apply andb_true_iff in Hsa as [_ Hsa]. apply andb_true_iff in Hsb as [_ Hsb].
    pose proof (span_digits_app da x Hsa Hx) as H.
    rewrite Heq', span_digits_app in H by done. injection H as -> ->. done.
  - assert (Hd : all_digits (String ca da) = true) by exact Hsa.
    assert (Hd' : all_digits (String ca db) = true) by exact Hsb.
    pose proof (span_digits_app _ x Hd Hx) as H.
    rewrite string_app_cons, Heq', <- string_app_cons, span_digits_app in H by done.
    injection H as -> ->. done.
Qed.

(** ** Properties of [parseAvailableSeats] *)

(** C26: The scan is Go's leftmost-first regex search on this pattern: it
    returns group [g] exactly when the pattern matches at some byte [k]
    with group [g] and at no earlier byte. *)
Theorem find_submatch_leftmost s g :
  find_submatch s = Some g <->
  exists k, regex_match_at (sdrop k s) g /\
            forall j g', (j < k)%nat -> ~ regex_match_at (sdrop j s) g'.
Proof.
  rewrite find_submatch_first. split.
  - intros (k & Hk & Hj). exists k. split; [by apply match_at_spec|].
    intros j g' Hjk. by apply match_at_none, Hj.
  - intros (k & Hk & Hj). exists k. split; [by apply match_at_spec|].
    intros j Hjk. apply match_at_none. intros g'. by apply Hj.
Qed.

(** [parseAvailableSeats] returns [(0, ErrNoSeats)] when the page has no
    match, and otherwise exactly what [Atoi] gives on the leftmost group:
    its value, or [ErrRange] when it does not fit an [int]; it never
    fails with a syntax error. *)
Theorem parseAvailableSeats_spec s :
  parseAvailableSeats s =
  match find_submatch s with
  | None => (0, Some ErrNoSeats)
  | Some g => atoi_expected (signed_value g)
  end.
Proof.
  unfold parseAvailableSeats. destruct (find_submatch s) as [g|] eqn:E; [|done].
  rewrite atoi_parse_int. apply parse_int_signed. by apply (find_submatch_signed s).
Qed.

(** A page that shows [n] seats in the pattern, after any text with no
    ['E'] byte, parses to [n] with a nil error, for every 64-bit [n]. *)
Theorem parseAvailableSeats_page pre n post :
  no_E pre = true -> in_int64 n = true ->
  parseAvailableSeats (pre +:+ seats_prefix +:+ itoa n +:+ seats_suffix +:+ post) = (n, None).
Proof.
  intros Hpre Hn. unfold parseAvailableSeats. rewrite find_submatch_skip by done.
  destruct (itoa_signed n Hn) as [Hs Hv].
  assert (Hm : match_at (seats_prefix +:+ itoa n +:+ seats_suffix +:+ post) = Some (itoa n))
    by (apply match_at_spec; split; [done | by exists post]).
  destruct (seats_prefix_head) as [p Hp].
  replace (find_submatch (seats_prefix +:+ itoa n +:+ seats_suffix +:+ post))
    with (Some (itoa n))
    by (rewrite Hp in Hm |- *; rewrite string_app_cons in Hm |- *; simpl; by rewrite Hm).
  rewrite atoi_parse_int, parse_int_signed, Hv by done.
  unfold atoi_expected. by rewrite Hn.
Qed.


End Seats.
