(* ===== verification/Notify.v ===== *)
(** * Notify: [sendEmailNotification] (new_main.go:138-155)

    The function builds the message of line 146 and hands it to
    [smtp.SendMail] with the sender, the recipient list [[email]] and the
    server address [smtp.gmail.com:587]; it logs the outcome and returns
    nothing, so a failed delivery never reaches the watcher.  The SMTP
    exchange itself and the account credentials (lines 139-140, 148) are
    outside the model: the delivery outcome is an input.

    Proved here: the message determines the seat count and the course
    number it reports (two notifications with different contents are
    different messages). *)

From S2P Require Import Prelude Strconv Seats.
From Stdlib Require Import ZArith Lia Ascii.

Local Open Scope Z_scope.

Module Notify.
Import Strconv Seats.

Definition smtp_from : string := "jianznucheck@gmail.com".
Definition smtp_host : string := "smtp.gmail.com".
Definition smtp_port : string := "587".

(** ["\r\n"] *)
Definition crlf : string := String (ascii_of_nat 13) (String (ascii_of_nat 10) EmptyString).

Definition message_intro : string :=
  "Subject: Course Slot Available" +:+ crlf +:+ crlf +:+ "A slot is available. There are ".

Definition message_middle : string := " seats available for you subscribe course: ".

(** Line 146: the message bytes. *)
Definition email_message (availableSeats : Z) (crn : string) : string :=
  message_intro +:+ itoa availableSeats +:+ message_middle +:+ crn.

(** What [smtp.SendMail(smtpHost+":"+smtpPort, auth, from, to, message)]
    is asked to deliver. *)
Record mail := mkMail {
  mail_addr : string;
  mail_from : string;
  mail_to : list string;
  mail_body : string
}.

Definition sendEmailNotification (email : string) (availableSeats : Z) (crn : string) : mail :=
  {| mail_addr := smtp_host +:+ ":" +:+ smtp_port;
     mail_from := smtp_from;
     mail_to := [email];
     mail_body := email_message availableSeats crn |}.

(** The log line of lines 150-154, given the delivery outcome. *)
Inductive log_line :=
| LogSendError (e : goerror)     (** ["Error sending email: "] *)
| LogSent (email : string).      (** ["Send Notification to", email, "Successfully"] *)

Definition send_log (email : string) (outcome : option goerror) : log_line :=
  match outcome with
  | Some e => LogSendError e
  | None => LogSent email
  end.

(** ** Properties *)

Lemma message_middle_nondigit crn : starts_nondigit (message_middle +:+ crn) = true.
Proof. reflexivity. Qed.

(** C31: Two notifications carry the same message only if they report the
    same seat count and the same course number: the message determines
    what it reports, for every 64-bit count. *)
Theorem email_message_inj n n' crn crn' :
  in_int64 n = true -> in_int64 n' = true ->
  email_message n crn = email_message n' crn' -> n = n' /\ crn = crn'.
Proof.
  unfold email_message. intros Hn Hn' Heq%string_app_inv_l.
  destruct (itoa_signed n Hn) as [Hs Hv], (itoa_signed n' Hn') as [Hs' Hv'].
  apply signed_digits_app_inj in Heq as [Hi Hc]; auto using message_middle_nondigit.
  split; [congruence|]. by apply string_app_inv_l in Hc.
Qed.

Lemma email_message_inj_witness :
  in_int64 5 = true /\ in_int64 5 = true /\
  (email_message 5 "12345" = email_message 5 "12345" -> 5 = 5 /\ "12345" = "12345").
Proof.
  split; [reflexivity|]. split; [reflexivity|].
  apply email_message_inj; reflexivity.
Defined.

End Notify.
