(* ===== verification/Watcher.v ===== *)
(** * Watcher: one tick of [checkCourseAvailability] (new_main.go:79-126)

    The goroutine loops on [select { case <-ticker.C: ... case
    <-stopChan: return }].  This file models the ticker branch (lines
    85-120) as a function of what the network returned: the request is
    built from the CRN (lines 86-96), [client.Do] and [ioutil.ReadAll]
    may fail, and the body is parsed by [parseAvailableSeats].  Every
    failure logs and returns; a positive count calls
    [sendEmailNotification]; otherwise the loop goes on.  The
    [defer resp.Body.Close()] of line 104 sits inside the loop, so each
    tick that got a response adds one deferred close, run only when the
    goroutine returns: the watcher state counts them.

    The interleaving with the registry and the [stopChan] branch are in
    [Registry.v]; here are the tick's functional properties. *)

From S2P Require Import Prelude Strconv Url Seats Notify.
From Stdlib Require Import ZArith Lia Ascii.

Local Open Scope Z_scope.

Module Watcher.
Import Strconv Url Seats Notify.

(** ** The request of lines 86-96 *)
Definition apiUrl : string :=
  "https://nubanner.neu.edu/StudentRegistrationSsb/ssb/searchResults/getEnrollmentInfo".

Definition term : string := "202430".

Record http_request := mkRequest {
  req_method : string;
  req_url : string;
  req_content_type : string;
  req_body : string
}.

(** Lines 87-89: [form := url.Values{}; form.Add("term", "202430");
    form.Add("courseReferenceNumber", crn)]. *)
Definition form_values (crn : string) : values :=
  values_add (values_add [] "term" term) "courseReferenceNumber" crn.

(** Line 91: [form.Encode()]. *)
Definition form_encode (crn : string) : string := values_encode (form_values crn).

Definition build_request (crn : string) : http_request :=
  {| req_method := "POST"; req_url := apiUrl;
     req_content_type := "application/x-www-form-urlencoded";
     req_body := form_encode crn |}.

(** ** What the network returned to the tick *)
Inductive fetch_outcome :=
| FetchNewRequestError        (** [http.NewRequest] failed (line 92) *)
| FetchDoError                (** [client.Do(req)] failed (line 100) *)
| FetchReadError              (** [ioutil.ReadAll(resp.Body)] failed (line 107) *)
| FetchBody (body : string).  (** the response body was read *)

(** ** The ticker branch *)
Inductive tick_result :=
| TickReturn (e : goerror)             (** logged, the goroutine returns *)
| TickContinue (notify : option Z).    (** back to [select]; [Some n]: notify [n] seats *)

(** The branch's outcome, and whether a [resp.Body.Close()] was deferred. *)
Definition tick (f : fetch_outcome) : tick_result * bool :=
  match f with
  | FetchNewRequestError => (TickReturn ErrNewRequest, false)
  | FetchDoError => (TickReturn ErrDo, false)
  | FetchReadError => (TickReturn ErrReadBody, true)
  | FetchBody body =>
      let '(availableSeats, err) := parseAvailableSeats body in
      match err with
      | Some e => (TickReturn e, true)
      | None => (TickContinue (if 0 <? availableSeats then Some availableSeats else None), true)
      end
  end.

(** ** The goroutine's state *)
Inductive wpc :=
| WSelect    (** waiting in [select] *)
| WDone.     (** returned; its deferred calls have run *)

Record watcher := mkWatcher {
  w_email : string;
  w_crn : string;
  w_chan : nat;            (** its [stopChan] *)
  w_pc : wpc;
  w_open_bodies : nat      (** deferred [resp.Body.Close()] calls not yet run *)
}.

(** The goroutine as [go checkCourseAvailability(email, crn, stopChan)]
    starts it. *)
Definition spawn_watcher (email crn : string) (ch : nat) : watcher :=
  mkWatcher email crn ch WSelect 0.

(** The watcher after a tick with outcome [f], and the mail it sends. *)
Definition after_tick (w : watcher) (f : fetch_outcome) : watcher * option mail :=
  let '(r, deferred) := tick f in
  let opened := (w_open_bodies w + if deferred then 1 else 0)%nat in
  match r with
  | TickReturn _ => (mkWatcher (w_email w) (w_crn w) (w_chan w) WDone 0, None)
  | TickContinue n =>
      (mkWatcher (w_email w) (w_crn w) (w_chan w) WSelect opened,
       option_map (fun k => sendEmailNotification (w_email w) k (w_crn w)) n)
  end.

(** The [stopChan] branch: log and return (the deferred calls run). *)
Definition after_stop (w : watcher) : watcher :=
  mkWatcher (w_email w) (w_crn w) (w_chan w) WDone 0.

Definition live (w : watcher) : bool :=
  match w_pc w with WSelect => true | WDone => false end.

(** A tick keeps the goroutine's e-mail, CRN and channel. *)
Lemma after_tick_ids w f :
  w_email (fst (after_tick w f)) = w_email w /\ w_crn (fst (after_tick w f)) = w_crn w /\
  w_chan (fst (after_tick w f)) = w_chan w.
Proof. unfold after_tick. destruct (tick f) as [[] ?]; done. Qed.

(** ** Properties of a tick *)

(** C20: Notification on a positive count: when the first match of the
    seat pattern in the page (Go's leftmost-first search, lines 129-130)
    captures a count [n] that fits an [int], the tick defers one body
    close, goes back to [select], and calls [sendEmailNotification]
    exactly once, with the watcher's e-mail, [n] and its CRN, when
    [n > 0], and not at all when [n <= 0]. *)
Theorem tick_page_notifies a body g :
  find_submatch body = Some g -> in_int64 (signed_value g) = true ->
  after_tick a (FetchBody body) =
  (mkWatcher (w_email a) (w_crn a) (w_chan a) WSelect (S (w_open_bodies a)),
   if 0 <? signed_value g
   then Some (sendEmailNotification (w_email a) (signed_value g) (w_crn a)) else None).
Proof.
  intros Hg Hn. unfold after_tick, tick. rewrite parseAvailableSeats_spec, Hg. simpl.
  unfold atoi_expected. rewrite Hn. simpl.
  replace (w_open_bodies a + 1)%nat with (S (w_open_bodies a)) by lia.
  by destruct (0 <? signed_value g).
Qed.

(** A page with other counts and an ['E'] before the seat count. *)
Definition course_page : string :=
  "<!DOCTYPE html><td>Enrollment Actual: 27</td>" +:+ seats_prefix +:+ "3" +:+ seats_suffix.

Lemma tick_page_notifies_witness :
  find_submatch course_page = Some "3" /\ in_int64 (signed_value "3") = true /\
  after_tick (spawn_watcher "a@b.c" "12345" 0) (FetchBody course_page) =
  (mkWatcher "a@b.c" "12345" 0 WSelect 1, Some (sendEmailNotification "a@b.c" 3 "12345")).
Proof.
  assert (Hg : find_submatch course_page = Some "3") by (vm_compute; reflexivity).
  assert (Hn : in_int64 (signed_value "3") = true) by reflexivity.
  split; [done|]. split; [done|].
  exact (tick_page_notifies (spawn_watcher "a@b.c" "12345" 0) _ _ Hg Hn).
Defined.

(** C22: Fail-fast: the goroutine returns from a tick exactly when the
    request could not be built or sent, the body could not be read, the
    page has no seat count, or the count does not fit an [int]; on every
    other page it goes back to [select]. *)
Theorem tick_returns_iff f :
  (exists e, fst (tick f) = TickReturn e) <->
  match f with
  | FetchBody body =>
      match find_submatch body with
      | None => True
      | Some g => in_int64 (signed_value g) = false
      end
  | _ => True
  end.
Proof.
  destruct f as [| | |body]; simpl; [naive_solver..|].
  unfold tick. rewrite parseAvailableSeats_spec.
  destruct (find_submatch body) as [g|]; simpl; [|naive_solver].
  unfold atoi_expected. destruct (in_int64 (signed_value g)); simpl;
    [|destruct (signed_value g <? 0)]; naive_solver.
Qed.

(** C21: Bounds of a notification: a tick notifies only with a seat count
    [n] such that [0 < n <= 2^63 - 1], and the mail goes to the
    watcher's e-mail about its CRN. *)
Theorem notify_count_bounds a f m :
  snd (after_tick a f) = Some m ->
  exists n, 0 < n <= int64_max /\ m = sendEmailNotification (w_email a) n (w_crn a).
Proof.
  unfold after_tick, tick. destruct f as [| | |body]; simpl; try done.
  rewrite parseAvailableSeats_spec. destruct (find_submatch body) as [g|]; simpl; [|done].
  unfold atoi_expected. destruct (in_int64 (signed_value g)) eqn:Hin; simpl;
    [|by destruct (signed_value g <? 0)].
  destruct (Z.ltb_spec 0 (signed_value g)); simpl; [|done]. intros [= <-].
  exists (signed_value g). unfold in_int64 in Hin. apply andb_true_iff in Hin as [_ Hle].
  apply Z.leb_le in Hle. split; [lia | done].
Qed.

Lemma notify_count_bounds_witness :
  let a := spawn_watcher "a@b.c" "12345" 0 in
  let page := seats_prefix +:+ "7" +:+ seats_suffix in
  snd (after_tick a (FetchBody page)) = Some (sendEmailNotification "a@b.c" 7 "12345") /\
  exists n, 0 < n <= int64_max /\
            sendEmailNotification "a@b.c" 7 "12345" = sendEmailNotification (w_email a) n (w_crn a).
Proof.
  intros a page.
  assert (H : snd (after_tick a (FetchBody page)) = Some (sendEmailNotification "a@b.c" 7 "12345"))
    by (vm_compute; reflexivity).
  split; [exact H | exact (notify_count_bounds a (FetchBody page) _ H)].
Defined.

End Watcher.
