(* ===== verification/Registry.v ===== *)
(** * Registry: the server as a concurrent system (new_main.go:18-126)

    The state of the program: the global [subscriptions] map from e-mail
    to [stopChan] (line 19), the mutex [subscriptionsMux] (line 20), the
    channels ([make(chan bool)] allocates a fresh one, [close] marks it
    closed), one goroutine per HTTP request running
    [startCourseCheckHandler] (lines 35-56) or [stopCourseCheckHandler]
    (lines 58-77), and one goroutine per [go checkCourseAvailability]
    (lines 79-126).

    [step] is the interleaving semantics: each rule is one atomic action
    of one goroutine, named after the lines it executes.  The handlers'
    [c.JSON] answers are steps of their own, taken after the mutex is
    released ([HAnswer], [step_answer]), so other goroutines can run
    between a handler's [Unlock] (or its [go]) and its answer.  The
    [make]/insert/[Unlock] of lines 50-52 and the [close]/[delete]/[Unlock]
    of lines 68-70 are one action each: they run under the mutex, and
    the only goroutine that receives on the channel ([Invariant.inv_inj])
    has already returned when line 68 runs, so no other goroutine can
    observe the states in between.  A handler
    blocks in [Lock] while the mutex is held; the unbuffered send
    [stopChan <- true] of line 67 is a rendezvous with a watcher waiting
    in its [select]; the watcher's [select] picks either ready case
    (Go chooses at random: both orders are steps).  Sending on or
    closing a closed channel panics; those rules lead to [HPanic]. *)

From S2P Require Import Prelude Strconv Seats Notify Watcher.
From Stdlib Require Import ZArith Lia Ascii.

Module Registry.
Import Strconv Notify Watcher.

(** ** HTTP requests and responses *)
Inductive request :=
| ReqStart (email crn : string)     (** [POST /start-course-check?email=..&CRN=..] *)
| ReqStop (email : string).         (** [POST /stop-course-check?email=..] *)

Inductive response :=
| RespStartBadRequest              (** 400 ["Email and CRN are required"] *)
| RespAlreadyRunning               (** 400 ["A check is already running for this email"] *)
| RespStarted (email : string)     (** 200 ["Course availability check started for " + email] *)
| RespStopBadRequest               (** 400 ["Email is required"] *)
| RespStopped (email : string)     (** 200 ["Course check stopped for " + email] *)
| RespNotFound.                    (** 400 ["No active check found for this email"] *)

Definition resp_status (r : response) : Z :=
  match r with
  | RespStarted _ | RespStopped _ => 200
  | _ => 400
  end.

(** The [gin.H] body: its key and its message. *)
Definition resp_json (r : response) : string * string :=
  match r with
  | RespStartBadRequest => ("error", "Email and CRN are required")
  | RespAlreadyRunning => ("error", "A check is already running for this email")
  | RespStarted e => ("message", "Course availability check started for " +:+ e)
  | RespStopBadRequest => ("error", "Email is required")
  | RespStopped e => ("message", "Course check stopped for " +:+ e)
  | RespNotFound => ("error", "No active check found for this email")
  end.

(** ** Handler goroutines: where each one is *)
Inductive hpc :=
| HStart (email crn : string)             (** entered [startCourseCheckHandler] *)
| HStartLock (email crn : string)         (** at [subscriptionsMux.Lock()], line 43 *)
| HStartCrit (email crn : string)         (** holds the mutex, lines 44-52 *)
| HStartGo (email crn : string) (ch : nat)(** unlocked, at [go ...], line 54 *)
| HStop (email : string)                  (** entered [stopCourseCheckHandler] *)
| HStopLock (email : string)              (** at [subscriptionsMux.Lock()], line 65 *)
| HStopCrit (email : string)              (** holds the mutex, line 66 *)
| HStopSend (email : string) (ch : nat)   (** holds the mutex, at [stopChan <- true], line 67 *)
| HStopClose (email : string) (ch : nat)  (** holds the mutex, at [close(stopChan)], line 68 *)
| HAnswer (r : request) (resp : response) (** unlocked, at [c.JSON], lines 46, 55, 71, 76 *)
| HDone (r : response)                    (** responded *)
| HPanic.                                 (** the goroutine panicked *)

Definition handler_of (r : request) : hpc :=
  match r with
  | ReqStart e c => HStart e c
  | ReqStop e => HStop e
  end.

(** The pcs at which the handler holds [subscriptionsMux]. *)
Definition holds_lock (h : hpc) : bool :=
  match h with
  | HStartCrit _ _ | HStopCrit _ | HStopSend _ _ | HStopClose _ _ => true
  | _ => false
  end.

(** ** The global state *)
Record world := mkWorld {
  subscriptions : gmap string nat;   (** [subscriptions], line 19 *)
  locked : bool;                     (** [subscriptionsMux], line 20 *)
  closed_chans : gset nat;           (** channels that have been [close]d *)
  next_chan : nat;                   (** the next channel [make] allocates *)
  handlers : list hpc;               (** handler goroutines, by request order *)
  watchers : list watcher            (** watcher goroutines, by spawn order *)
}.

Definition init : world := mkWorld ∅ false ∅ 0 [] [].

(** Functional updates of one field. *)
Definition set_handler (w : world) (t : nat) (h : hpc) : world :=
  mkWorld (subscriptions w) (locked w) (closed_chans w) (next_chan w)
          (<[t:=h]> (handlers w)) (watchers w).

Definition set_watcher (w : world) (i : nat) (a : watcher) : world :=
  mkWorld (subscriptions w) (locked w) (closed_chans w) (next_chan w)
          (handlers w) (<[i:=a]> (watchers w)).

Definition set_locked (w : world) (b : bool) : world :=
  mkWorld (subscriptions w) b (closed_chans w) (next_chan w) (handlers w) (watchers w).

Definition after_insert (w : world) (t : nat) (e c : string) : world :=
  mkWorld (<[e:=next_chan w]> (subscriptions w)) false (closed_chans w)
          (S (next_chan w)) (<[t:=HStartGo e c (next_chan w)]> (handlers w)) (watchers w).

Definition after_go (w : world) (t : nat) (e c : string) (ch : nat) : world :=
  mkWorld (subscriptions w) (locked w) (closed_chans w) (next_chan w)
          (<[t:=HAnswer (ReqStart e c) (RespStarted e)]> (handlers w))
          (watchers w ++ [spawn_watcher e c ch]).

Definition after_close (w : world) (t : nat) (e : string) (ch : nat) : world :=
  mkWorld (delete e (subscriptions w)) false ({[ch]} ∪ closed_chans w) (next_chan w)
          (<[t:=HAnswer (ReqStop e) (RespStopped e)]> (handlers w)) (watchers w).

(** ** Observable events *)
Inductive event :=
| EvRequest (r : request)                               (** a request arrives *)
| EvRespond (t : nat) (r : request) (resp : response)   (** handler [t] answers [r] *)
| EvTick (i : nat) (f : fetch_outcome) (m : option mail)(** watcher [i] ticked *)
| EvCancel (t i : nat)                                  (** [stopChan <- true] of [t] met watcher [i] *)
| EvExitClosed (i : nat)                                (** watcher [i] received from a closed channel *)
| EvTau (t : nat).                                      (** an internal step of handler [t] *)

(** ** The interleaving semantics *)
Inductive step : world -> event -> world -> Prop :=
(** a request spawns a handler goroutine *)
| step_request w r :
    step w (EvRequest r)
      (mkWorld (subscriptions w) (locked w) (closed_chans w) (next_chan w)
               (handlers w ++ [handler_of r]) (watchers w))
(** lines 36-41: missing parameter *)
| step_start_invalid w t e c :
    handlers w !! t = Some (HStart e c) ->
    e = "" \/ c = "" ->
    step w (EvRespond t (ReqStart e c) RespStartBadRequest)
      (set_handler w t (HDone RespStartBadRequest))
| step_start_valid w t e c :
    handlers w !! t = Some (HStart e c) ->
    e <> "" -> c <> "" ->
    step w (EvTau t) (set_handler w t (HStartLock e c))
(** line 43: [Lock] when the mutex is free *)
| step_start_lock w t e c :
    handlers w !! t = Some (HStartLock e c) ->
    locked w = false ->
    step w (EvTau t) (set_handler (set_locked w true) t (HStartCrit e c))
(** lines 44-45: already subscribed: unlock *)
| step_start_exists w t e c ch :
    handlers w !! t = Some (HStartCrit e c) ->
    subscriptions w !! e = Some ch ->
    step w (EvTau t)
      (set_handler (set_locked w false) t (HAnswer (ReqStart e c) RespAlreadyRunning))
(** lines 50-52: [make(chan bool)], insert, unlock *)
| step_start_insert w t e c :
    handlers w !! t = Some (HStartCrit e c) ->
    subscriptions w !! e = None ->
    step w (EvTau t) (after_insert w t e c)
(** line 54: [go checkCourseAvailability(email, crn, stopChan)] *)
| step_start_go w t e c ch :
    handlers w !! t = Some (HStartGo e c ch) ->
    step w (EvTau t) (after_go w t e c ch)
(** lines 59-63: missing e-mail *)
| step_stop_invalid w t :
    handlers w !! t = Some (HStop "") ->
    step w (EvRespond t (ReqStop "") RespStopBadRequest)
      (set_handler w t (HDone RespStopBadRequest))
| step_stop_valid w t e :
    handlers w !! t = Some (HStop e) ->
    e <> "" ->
    step w (EvTau t) (set_handler w t (HStopLock e))
(** line 65 *)
| step_stop_lock w t e :
    handlers w !! t = Some (HStopLock e) ->
    locked w = false ->
    step w (EvTau t) (set_handler (set_locked w true) t (HStopCrit e))
(** line 66: found, go on to the send *)
| step_stop_found w t e ch :
    handlers w !! t = Some (HStopCrit e) ->
    subscriptions w !! e = Some ch ->
    step w (EvTau t) (set_handler w t (HStopSend e ch))
(** line 74: not found: unlock *)
| step_stop_missing w t e :
    handlers w !! t = Some (HStopCrit e) ->
    subscriptions w !! e = None ->
    step w (EvTau t) (set_handler (set_locked w false) t (HAnswer (ReqStop e) RespNotFound))
(** line 67 meets line 121: the rendezvous on the unbuffered channel;
    the watcher logs and returns (lines 122-123) *)
| step_cancel w t e ch i a :
    handlers w !! t = Some (HStopSend e ch) ->
    ch ∉ closed_chans w ->
    watchers w !! i = Some a ->
    w_pc a = WSelect -> w_chan a = ch ->
    step w (EvCancel t i)
      (set_watcher (set_handler w t (HStopClose e ch)) i (after_stop a))
(** line 67 on a closed channel panics *)
| step_send_closed w t e ch :
    handlers w !! t = Some (HStopSend e ch) ->
    ch ∈ closed_chans w ->
    step w (EvTau t) (set_handler w t HPanic)
(** lines 68-70: close, delete, unlock *)
| step_stop_close w t e ch :
    handlers w !! t = Some (HStopClose e ch) ->
    ch ∉ closed_chans w ->
    step w (EvTau t) (after_close w t e ch)
(** line 68 on a closed channel panics *)
| step_close_closed w t e ch :
    handlers w !! t = Some (HStopClose e ch) ->
    ch ∈ closed_chans w ->
    step w (EvTau t) (set_handler w t HPanic)
(** lines 46, 55, 71, 76: [c.JSON], after the mutex is released *)
| step_answer w t r resp :
    handlers w !! t = Some (HAnswer r resp) ->
    step w (EvRespond t r resp) (set_handler w t (HDone resp))
(** lines 85-120: the ticker fired *)
| step_tick w i a f :
    watchers w !! i = Some a ->
    w_pc a = WSelect ->
    step w (EvTick i f (snd (after_tick a f))) (set_watcher w i (fst (after_tick a f)))
(** line 121 on a closed [stopChan]: the receive succeeds, return *)
| step_recv_closed w i a :
    watchers w !! i = Some a ->
    w_pc a = WSelect ->
    w_chan a ∈ closed_chans w ->
    step w (EvExitClosed i) (set_watcher w i (after_stop a)).

(** [w ⟶[ tr ]* w']: the schedule [tr] leads from [w] to [w']. *)
Notation "w ⟶[ tr ]* w'" := (lstar step w tr w')
  (at level 70, tr at level 200, format "w  ⟶[ tr ]*  w'") : nubanner_scope.
Local Open Scope nubanner_scope.

Definition reachable (w : world) : Prop := exists tr, init ⟶[ tr ]* w.

(** ** The same semantics as a function of the event

    Given the event the scheduler picks, at most one successor exists:
    [exec] computes it ([Exec.exec_step_iff]). *)
#[export] Instance request_eq_dec : EqDecision request.
Proof. solve_decision. Defined.
#[export] Instance response_eq_dec : EqDecision response.
Proof. solve_decision. Defined.
#[export] Instance hpc_eq_dec : EqDecision hpc.
Proof. solve_decision. Defined.
#[export] Instance wpc_eq_dec : EqDecision wpc.
Proof. solve_decision. Defined.
#[export] Instance mail_eq_dec : EqDecision mail.
Proof. solve_decision. Defined.

Definition exec_tau (w : world) (t : nat) : option world :=
  match handlers w !! t with
  | Some (HStart e c) =>
      if bool_decide (e <> "" /\ c <> "") then Some (set_handler w t (HStartLock e c)) else None
  | Some (HStartLock e c) =>
      if locked w then None else Some (set_handler (set_locked w true) t (HStartCrit e c))
  | Some (HStartCrit e c) =>
      match subscriptions w !! e with
      | None => Some (after_insert w t e c)
      | Some _ =>
          Some (set_handler (set_locked w false) t (HAnswer (ReqStart e c) RespAlreadyRunning))
      end
  | Some (HStartGo e c ch) => Some (after_go w t e c ch)
  | Some (HStop e) =>
      if bool_decide (e <> "") then Some (set_handler w t (HStopLock e)) else None
  | Some (HStopLock e) =>
      if locked w then None else Some (set_handler (set_locked w true) t (HStopCrit e))
  | Some (HStopCrit e) =>
      match subscriptions w !! e with
      | Some ch => Some (set_handler w t (HStopSend e ch))
      | None => Some (set_handler (set_locked w false) t (HAnswer (ReqStop e) RespNotFound))
      end
  | Some (HStopSend _ ch) =>
      if bool_decide (ch ∈ closed_chans w) then Some (set_handler w t HPanic) else None
  | Some (HStopClose e ch) =>
      if bool_decide (ch ∈ closed_chans w) then Some (set_handler w t HPanic)
      else Some (after_close w t e ch)
  | _ => None
  end.

Definition exec_respond (w : world) (t : nat) (r : request) (resp : response) : option world :=
  match handlers w !! t with
  | Some (HStart e c) =>
      if bool_decide ((e = "" \/ c = "") /\ r = ReqStart e c /\ resp = RespStartBadRequest)
      then Some (set_handler w t (HDone RespStartBadRequest)) else None
  | Some (HStop e) =>
      if bool_decide (e = "" /\ r = ReqStop "" /\ resp = RespStopBadRequest)
      then Some (set_handler w t (HDone RespStopBadRequest)) else None
  | Some (HAnswer r' resp') =>
      if bool_decide (r = r' /\ resp = resp') then Some (set_handler w t (HDone resp)) else None
  | _ => None
  end.

Definition exec (w : world) (l : event) : option world :=
  match l with
  | EvRequest r =>
      Some (mkWorld (subscriptions w) (locked w) (closed_chans w) (next_chan w)
                    (handlers w ++ [handler_of r]) (watchers w))
  | EvTau t => exec_tau w t
  | EvRespond t r resp => exec_respond w t r resp
  | EvCancel t i =>
      match handlers w !! t, watchers w !! i with
      | Some (HStopSend e ch), Some a =>
          if bool_decide ((ch ∉ closed_chans w) /\ w_pc a = WSelect /\ w_chan a = ch)
          then Some (set_watcher (set_handler w t (HStopClose e ch)) i (after_stop a)) else None
      | _, _ => None
      end
  | EvTick i f m =>
      match watchers w !! i with
      | Some a =>
          if bool_decide (w_pc a = WSelect /\ m = snd (after_tick a f))
          then Some (set_watcher w i (fst (after_tick a f))) else None
      | None => None
      end
  | EvExitClosed i =>
      match watchers w !! i with
      | Some a =>
          if bool_decide (w_pc a = WSelect /\ (w_chan a ∈ closed_chans w))
          then Some (set_watcher w i (after_stop a)) else None
      | None => None
      end
  end.

Fixpoint run (w : world) (tr : list event) : option world :=
  match tr with
  | [] => Some w
  | l :: tr' => match exec w l with Some w' => run w' tr' | None => None end
  end.

End Registry.
