(* ===== verification/Invariant.v ===== *)
(** * Invariant: what every reachable state of the server satisfies

    [inv] ties the mutex to the handlers that hold it, the
    [subscriptions] map to the channels and to the watcher goroutines,
    and says no handler has panicked.  Each rule of [Registry.step]
    preserves it ([inv_step], one lemma per rule), so every reachable
    state satisfies it ([inv_reachable]). *)

From S2P Require Import Prelude Strconv Seats Notify Watcher Registry.
From Stdlib Require Import ZArith Lia Ascii.

Module Invariant.
Import Watcher Registry.
Local Open Scope nubanner_scope.

(** The channel a handler is about to hand to [go checkCourseAvailability]. *)
Definition go_chan (h : hpc) : option nat :=
  match h with
  | HStartGo _ _ ch => Some ch
  | _ => None
  end.

(** The goroutines that own channel [ch]: the watcher started with it,
    or the handler about to start one with it. *)
Definition owners (w : world) (ch : nat) : nat :=
  (cnt (fun a => Nat.eqb (w_chan a) ch) (watchers w) +
   cnt (fun h => bool_decide (go_chan h = Some ch)) (handlers w))%nat.

Record inv (w : world) : Prop := {
  (** the mutex is held by exactly the handlers in a critical section *)
  inv_lock : cnt holds_lock (handlers w) = (if locked w then 1 else 0)%nat;
  (** channels are allocated once *)
  inv_fresh_subs : forall e ch, subscriptions w !! e = Some ch -> (ch < next_chan w)%nat;
  inv_fresh_watch : forall i a, watchers w !! i = Some a -> (w_chan a < next_chan w)%nat;
  inv_fresh_go : forall t h ch, handlers w !! t = Some h -> go_chan h = Some ch ->
                 (ch < next_chan w)%nat;
  inv_fresh_closed : forall ch, ch ∈ closed_chans w -> (ch < next_chan w)%nat;
  inv_owner : forall ch, (owners w ch <= 1)%nat;
  (** the map is injective and points to open channels *)
  inv_inj : forall e1 e2 ch, subscriptions w !! e1 = Some ch -> subscriptions w !! e2 = Some ch ->
            e1 = e2;
  inv_open : forall e ch, subscriptions w !! e = Some ch -> ch ∉ closed_chans w;
  (** a live watcher is the one the map points to *)
  inv_live : forall i a, watchers w !! i = Some a -> w_pc a = WSelect ->
             subscriptions w !! w_email a = Some (w_chan a);
  (** handlers between the map update and their next step *)
  inv_go : forall t e c ch, handlers w !! t = Some (HStartGo e c ch) ->
           subscriptions w !! e = Some ch;
  inv_send : forall t e ch, handlers w !! t = Some (HStopSend e ch) ->
             subscriptions w !! e = Some ch;
  inv_close : forall t e ch, handlers w !! t = Some (HStopClose e ch) ->
              subscriptions w !! e = Some ch /\
              (exists i a, watchers w !! i = Some a /\ w_chan a = ch) /\
              (forall i a, watchers w !! i = Some a -> w_chan a = ch -> w_pc a = WDone);
  (** no handler has panicked *)
  inv_no_panic : forall t, handlers w !! t = Some HPanic -> False
}.

(** Handler pcs that neither hold the mutex nor refer to a channel. *)
Definition quiet (h : hpc) : bool :=
  match h with
  | HStart _ _ | HStartLock _ _ | HStop _ | HStopLock _ | HAnswer _ _ | HDone _ => true
  | _ => false
  end.

(** Handler pcs inside the critical section before any channel is used. *)
Definition crit (h : hpc) : bool :=
  match h with
  | HStartCrit _ _ | HStopCrit _ => true
  | _ => false
  end.

(** ** Consequences of the counting clauses *)

Lemma lock_holder_unique w t1 t2 h1 h2 :
  inv w -> handlers w !! t1 = Some h1 -> handlers w !! t2 = Some h2 ->
  holds_lock h1 = true -> holds_lock h2 = true -> t1 = t2.
Proof.
  intros Hi H1 H2 Hh1 Hh2. eapply (cnt_le1_unique holds_lock (handlers w)); eauto.
  rewrite (inv_lock _ Hi). destruct (locked w); lia.
Qed.

Lemma lock_holder_locked w t h :
  inv w -> handlers w !! t = Some h -> holds_lock h = true -> locked w = true.
Proof.
  intros Hi Ht Hh. pose proof (cnt_pos _ _ _ _ Ht Hh) as H.
  rewrite (inv_lock _ Hi) in H. destruct (locked w); [done|lia].
Qed.

Lemma owner_watchers w i j a b :
  inv w -> watchers w !! i = Some a -> watchers w !! j = Some b -> w_chan a = w_chan b -> i = j.
Proof.
  intros Hi Ha Hb Hc. pose proof (inv_owner _ Hi (w_chan a)) as H. unfold owners in H.
  eapply (cnt_le1_unique (fun x => Nat.eqb (w_chan x) (w_chan a))); eauto;
    [lia | apply Nat.eqb_refl | rewrite Hc; apply Nat.eqb_refl].
Qed.

Lemma owner_watcher_go w i a t h :
  inv w -> watchers w !! i = Some a -> handlers w !! t = Some h -> go_chan h = Some (w_chan a) ->
  False.
Proof.
  intros Hi Ha Ht Hg. pose proof (inv_owner _ Hi (w_chan a)) as H. unfold owners in H.
  pose proof (cnt_pos (fun x => Nat.eqb (w_chan x) (w_chan a)) _ _ _ Ha (Nat.eqb_refl _)).
  pose proof (cnt_pos (fun h => bool_decide (go_chan h = Some (w_chan a))) _ _ _ Ht
                (bool_decide_eq_true_2 _ Hg)).
  lia.
Qed.

Lemma owner_go_go w t1 t2 h1 h2 ch :
  inv w -> handlers w !! t1 = Some h1 -> handlers w !! t2 = Some h2 ->
  go_chan h1 = Some ch -> go_chan h2 = Some ch -> t1 = t2.
Proof.
  intros Hi H1 H2 Hg1 Hg2. pose proof (inv_owner _ Hi ch) as H. unfold owners in H.
  eapply (cnt_le1_unique (fun h => bool_decide (go_chan h = Some ch))); eauto;
    [lia | by apply bool_decide_eq_true_2 ..].
Qed.

(** ** Map lookups after an update *)

Lemma lookup_insert_fresh {V} (m : gmap string V) e e' x v :
  m !! e = None -> m !! e' = Some v -> <[e:=x]> m !! e' = Some v.
Proof. intros. rewrite lookup_insert_ne; congruence. Qed.

Lemma lookup_delete_other {V} (m : gmap string V) e e' v :
  e <> e' -> m !! e' = Some v -> delete e m !! e' = Some v.
Proof. intros. by rewrite lookup_delete_ne. Qed.

(** ** Preservation, rule by rule *)

(** Introduce a clause's binders, split the lookups in the updated lists
    and close what follows from the old state. *)
Local Ltac inv_auto :=
  intros; try match goal with |- _ <> _ => intro end;
  list_lookup_cases; simplify_eq/=; eauto;
  try match goal with
      | H : quiet ?x = true |- _ => by destruct x
      | H : crit ?x = true |- _ => by destruct x
      end.

(** A handler moves between pcs that do not touch shared state. *)
Lemma inv_set_quiet w t h h' :
  inv w -> handlers w !! t = Some h -> quiet h = true -> quiet h' = true ->
  inv (set_handler w t h').
Proof.
  intros Hi Ht Hq Hq'. destruct Hi. unfold set_handler.
  constructor; simpl; inv_auto.
  - rewrite (cnt_insert_same _ _ _ _ _ Ht); [done|by destruct h, h'].
  - unfold owners in *. simpl. rewrite (cnt_insert_same _ _ _ _ _ Ht); [eauto|].
    by destruct h, h'.
Qed.

(** A new handler goroutine. *)
Lemma inv_snoc_quiet w h :
  inv w -> quiet h = true ->
  inv (mkWorld (subscriptions w) (locked w) (closed_chans w) (next_chan w)
               (handlers w ++ [h]) (watchers w)).
Proof.
  intros Hi Hq. destruct Hi. constructor; simpl; inv_auto.
  - rewrite cnt_snoc, inv_lock0. destruct h; simpl in *; try discriminate; lia.
  - unfold owners in *. simpl. rewrite cnt_snoc.
    specialize (inv_owner0 ch). destruct h; simpl in *; try discriminate; lia.
Qed.

(** [Lock] taken by a handler. *)
Lemma inv_acquire w t h h' :
  inv w -> handlers w !! t = Some h -> quiet h = true -> crit h' = true ->
  locked w = false -> inv (set_handler (set_locked w true) t h').
Proof.
  intros Hi Ht Hq Hc Hl. destruct Hi. unfold set_handler, set_locked.
  constructor; simpl; inv_auto.
  - pose proof (cnt_insert holds_lock _ _ _ h' Ht). rewrite Hl in inv_lock0.
    destruct h, h'; simpl in *; lia.
  - unfold owners in *. simpl. rewrite (cnt_insert_same _ _ _ _ _ Ht); [eauto|].
    by destruct h, h'.
Qed.

(** [Unlock], from the critical section. *)
Lemma inv_release w t h h' :
  inv w -> handlers w !! t = Some h -> crit h = true -> quiet h' = true ->
  inv (set_handler (set_locked w false) t h').
Proof.
  intros Hi Ht Hc Hq. pose proof (lock_holder_locked w t h Hi Ht ltac:(by destruct h)) as Hl.
  destruct Hi. unfold set_handler, set_locked.
  constructor; simpl; inv_auto.
  - pose proof (cnt_insert holds_lock _ _ _ h' Ht). rewrite Hl in inv_lock0.
    destruct h, h'; simpl in *; lia.
  - unfold owners in *. simpl. rewrite (cnt_insert_same _ _ _ _ _ Ht); [eauto|].
    by destruct h, h'.
Qed.

(** No goroutine owns the channel [make] allocates next. *)
Lemma owners_fresh w : inv w -> owners w (next_chan w) = 0%nat.
Proof.
  intros Hi. unfold owners.
  rewrite (proj2 (cnt_zero _ (watchers w))), (proj2 (cnt_zero _ (handlers w))); [done| |].
  - intros t h Ht. apply bool_decide_eq_false_2. intros Hg.
    pose proof (inv_fresh_go _ Hi _ _ _ Ht Hg). lia.
  - intros i a Ha. apply Nat.eqb_neq. pose proof (inv_fresh_watch _ Hi _ _ Ha). lia.
Qed.

(** Lines 50-52: a fresh channel is inserted under [e]. *)
Lemma inv_start_insert w t e c :
  inv w -> handlers w !! t = Some (HStartCrit e c) -> subscriptions w !! e = None ->
  inv (after_insert w t e c).
Proof.
  intros Hi Ht He. unfold after_insert. pose proof (lock_holder_locked _ _ _ Hi Ht eq_refl) as Hl.
  pose proof (owners_fresh w Hi) as Hfresh. destruct Hi. constructor; simpl.
  - pose proof (cnt_insert holds_lock _ _ _ (HStartGo e c (next_chan w)) Ht).
    rewrite Hl in inv_lock0. simpl in *. lia.
  - intros e' ch [[-> <-]|[_ H]]%lookup_insert_Some; [lia|].
    specialize (inv_fresh_subs0 _ _ H). lia.
  - intros i a H. specialize (inv_fresh_watch0 _ _ H). lia.
  - intros t' h ch H Hg. list_lookup_cases; simplify_eq/=; [lia|].
    specialize (inv_fresh_go0 _ _ _ H Hg). lia.
  - intros ch H. specialize (inv_fresh_closed0 _ H). lia.
  - intros ch. unfold owners in *. simpl.
    pose proof (cnt_insert (fun h => bool_decide (go_chan h = Some ch)) _ _ _
                  (HStartGo e c (next_chan w)) Ht) as Hc. simpl in Hc.
    destruct (decide (next_chan w = ch)) as [<-|Hne].
    + rewrite bool_decide_eq_true_2 in Hc by done. lia.
    + rewrite bool_decide_eq_false_2 in Hc by congruence. specialize (inv_owner0 ch). lia.
  - intros e1 e2 ch H1 H2.
    apply lookup_insert_Some in H1 as [[-> <-]|[? H1]];
      apply lookup_insert_Some in H2 as [[-> ?]|[? H2]]; eauto.
    + pose proof (inv_fresh_subs0 _ _ H2). lia.
    + pose proof (inv_fresh_subs0 _ _ H1). lia.
  - intros e' ch [[-> <-]|[? H]]%lookup_insert_Some; eauto.
    intros Hc. pose proof (inv_fresh_closed0 _ Hc). lia.
  - intros i a Ha Hs. apply lookup_insert_fresh; eauto.
  - intros t' e' c' ch H. list_lookup_cases; simplify_eq/=.
    + by rewrite lookup_insert_eq.
    + apply lookup_insert_fresh; eauto.
  - intros t' e' ch H. list_lookup_cases; simplify_eq/=. apply lookup_insert_fresh; eauto.
  - intros t' e' ch H. list_lookup_cases; simplify_eq/=.
    destruct (inv_close0 _ _ _ H) as (? & ? & ?).
    split; [apply lookup_insert_fresh; eauto | auto].
  - intros t' H. list_lookup_cases; simplify_eq/=; eauto.
Qed.

(** Line 54: the watcher goroutine is spawned with the handler's
    channel. *)
Lemma inv_start_go w t e c ch :
  inv w -> handlers w !! t = Some (HStartGo e c ch) ->
  inv (after_go w t e c ch).
Proof.
  intros Hi Ht. unfold after_go. pose proof Hi as Hi'. destruct Hi. constructor; simpl.
  - rewrite (cnt_insert_same _ _ _ _ _ Ht); done.
  - done.
  - intros i a H. list_lookup_cases; simplify_eq/=; eauto.
  - intros t' h ch' H Hg. list_lookup_cases; simplify_eq/=; eauto.
  - done.
  - intros ch'. unfold owners in *. simpl. rewrite cnt_snoc. unfold spawn_watcher. simpl.
    pose proof (cnt_insert (fun h => bool_decide (go_chan h = Some ch')) _ _ _
                  (HAnswer (ReqStart e c) (RespStarted e)) Ht) as Hc. simpl in Hc.
    specialize (inv_owner0 ch'). destruct (decide (ch = ch')) as [<-|Hne].
    + rewrite Nat.eqb_refl. rewrite bool_decide_eq_true_2 in Hc by done. lia.
    + rewrite (proj2 (Nat.eqb_neq _ _) Hne).
      rewrite bool_decide_eq_false_2 in Hc by congruence. lia.
  - done.
  - done.
  - intros i a H Hs. list_lookup_cases; simplify_eq/=; eauto.
  - intros t' e' c' ch' H. list_lookup_cases; simplify_eq/=; eauto.
  - intros t' e' ch' H. list_lookup_cases; simplify_eq/=; eauto.
  - intros t' e' ch' H. list_lookup_cases; simplify_eq/=.
    destruct (inv_close0 _ _ _ H) as (Hs & (i & a & Ha & Hac) & Hd).
    split; [done|]. split.
    + exists i, a. split; [|done]. apply lookup_app_l_Some. done.
    + intros j b Hb Hbc. list_lookup_cases; simplify_eq/=; eauto.
      exfalso. exact (owner_watcher_go w i a t _ Hi' Ha Ht eq_refl).
  - intros t' H. list_lookup_cases; simplify_eq/=; eauto.
Qed.

(** Line 66: found; the handler goes on to the send, still holding the
    mutex. *)
Lemma inv_stop_found w t e ch :
  inv w -> handlers w !! t = Some (HStopCrit e) -> subscriptions w !! e = Some ch ->
  inv (set_handler w t (HStopSend e ch)).
Proof.
  intros Hi Ht He. destruct Hi. unfold set_handler. constructor; simpl; inv_auto.
  - by rewrite (cnt_insert_same _ _ _ _ _ Ht).
  - unfold owners in *. simpl. by rewrite (cnt_insert_same _ _ _ _ _ Ht).
Qed.

Lemma send_chan_open w t e ch :
  inv w -> handlers w !! t = Some (HStopSend e ch) -> ch ∉ closed_chans w.
Proof. intros Hi Ht. eapply inv_open; eauto using inv_send. Qed.

Lemma close_chan_open w t e ch :
  inv w -> handlers w !! t = Some (HStopClose e ch) -> ch ∉ closed_chans w.
Proof. intros Hi Ht. eapply inv_open; [done|]. apply (inv_close _ Hi _ _ _ Ht). Qed.

Lemma live_chan_open w i a :
  inv w -> watchers w !! i = Some a -> w_pc a = WSelect -> w_chan a ∉ closed_chans w.
Proof. intros Hi Ha Hs. eapply inv_open; eauto using inv_live. Qed.

(** Line 67 meets line 121: the watcher returns, the handler moves to the
    close. *)
Lemma inv_cancel w t e ch i a :
  inv w -> handlers w !! t = Some (HStopSend e ch) -> watchers w !! i = Some a ->
  w_pc a = WSelect -> w_chan a = ch ->
  inv (set_watcher (set_handler w t (HStopClose e ch)) i (after_stop a)).
Proof.
  intros Hi Ht Ha Hs Hc. pose proof Hi as Hi'. destruct Hi.
  unfold set_watcher, set_handler. constructor; simpl.
  - by rewrite (cnt_insert_same _ _ _ _ _ Ht).
  - done.
  - intros j b H. list_lookup_cases; simplify_eq/=; eauto.
  - intros t' h ch' H Hg. list_lookup_cases; simplify_eq/=; eauto.
  - done.
  - intros ch'. unfold owners in *. simpl.
    rewrite (cnt_insert_same _ _ _ _ _ Ht), (cnt_insert_same _ _ _ _ _ Ha); done.
  - done.
  - done.
  - intros j b H Hb. list_lookup_cases; simplify_eq/=; eauto.
  - intros t' e' c' ch' H. list_lookup_cases; simplify_eq/=; eauto.
  - intros t' e' ch' H. list_lookup_cases; simplify_eq/=; eauto.
  - intros t' e' ch' H. list_lookup_cases; simplify_eq/=.
    + split; [eauto|]. split.
      * exists i, (after_stop a). split; [|done].
        apply list_lookup_insert_eq. by eapply lookup_lt_Some.
      * intros j b Hb Hbc. list_lookup_cases; simplify_eq/=; [done|].
        assert (i = j) by (apply (owner_watchers w i j a b Hi' Ha Hb); congruence). done.
    + exfalso. assert (t = t') as <- by (eapply lock_holder_unique; eauto). done.
  - intros t' H. list_lookup_cases; simplify_eq/=; eauto.
Qed.

(** Lines 68-70: close, delete, unlock. *)
Lemma inv_stop_close w t e ch :
  inv w -> handlers w !! t = Some (HStopClose e ch) ->
  inv (after_close w t e ch).
Proof.
  intros Hi Ht. unfold after_close. pose proof Hi as Hi'.
  pose proof (lock_holder_locked _ _ _ Hi Ht eq_refl) as Hl.
  destruct (inv_close _ Hi _ _ _ Ht) as (He & (i0 & a0 & Ha0 & Hc0) & Hdone).
  destruct Hi. constructor; simpl.
  - pose proof (cnt_insert holds_lock _ _ _ (HAnswer (ReqStop e) (RespStopped e)) Ht).
    rewrite Hl in inv_lock0. simpl in *. lia.
  - intros e' ch' [_ H]%lookup_delete_Some. eauto.
  - done.
  - intros t' h ch' H Hg. list_lookup_cases; simplify_eq/=; eauto.
  - intros ch' [->%elem_of_singleton|H]%elem_of_union; eauto.
  - intros ch'. unfold owners in *. simpl. by rewrite (cnt_insert_same _ _ _ _ _ Ht).
  - intros e1 e2 ch' [_ H1]%lookup_delete_Some [_ H2]%lookup_delete_Some. eauto.
  - intros e' ch' [Hne H]%lookup_delete_Some [->%elem_of_singleton|Hc]%elem_of_union;
      [|by eapply inv_open0].
    apply Hne. eauto.
  - intros j b Hb Hs. specialize (inv_live0 _ _ Hb Hs).
    apply lookup_delete_other; [|done]. intros Heq. rewrite <- Heq in inv_live0.
    assert (w_chan b = ch) by congruence. specialize (Hdone _ _ Hb H). congruence.
  - intros t' e' c' ch' H. list_lookup_cases; simplify_eq/=.
    specialize (inv_go0 _ _ _ _ H). apply lookup_delete_other; [|done]. intros <-.
    assert (ch' = w_chan a0) as -> by congruence.
    exact (owner_watcher_go w i0 a0 t' _ Hi' Ha0 H eq_refl).
  - intros t' e' ch' H. list_lookup_cases; simplify_eq/=.
    exfalso. assert (t = t') as <- by (eapply lock_holder_unique; eauto). congruence.
  - intros t' e' ch' H. list_lookup_cases; simplify_eq/=.
    exfalso. assert (t = t') as <- by (eapply lock_holder_unique; eauto). done.
  - intros t' H. list_lookup_cases; simplify_eq/=; eauto.
Qed.

(** Lines 85-120: a tick keeps the goroutine's identity. *)
Lemma inv_tick w i a f :
  inv w -> watchers w !! i = Some a -> w_pc a = WSelect ->
  inv (set_watcher w i (fst (after_tick a f))).
Proof.
  intros Hi Ha Hs. pose proof Hi as Hi'. destruct (after_tick_ids a f) as (He & _ & Hc).
  destruct Hi. unfold set_watcher. constructor; simpl; try done.
  - intros j b H. list_lookup_cases; simplify_eq/=; eauto. rewrite Hc. eauto.
  - intros ch'. unfold owners in *. simpl.
    rewrite (cnt_insert_same _ _ _ _ _ Ha); [done|]. by rewrite Hc.
  - intros j b H Hb. list_lookup_cases; simplify_eq/=; eauto. rewrite He, Hc. eauto.
  - intros t' e' ch' H. destruct (inv_close0 _ _ _ H) as (Hs' & (j & b & Hb & Hbc) & Hd).
    split; [done|]. split.
    + destruct (decide (i = j)) as [<-|Hne].
      * exists i, (fst (after_tick a f)). split; [|congruence].
        apply list_lookup_insert_eq. by eapply lookup_lt_Some.
      * exists j, b. split; [|done]. by rewrite list_lookup_insert_ne.
    + intros k b' Hb' Hbc'. list_lookup_cases; simplify_eq/=; eauto.
      rewrite Hc in Hbc'. specialize (Hd _ _ Ha Hbc'). congruence.
Qed.

Lemma inv_init : inv init.
Proof.
  constructor; simpl; try done; intros *; rewrite ?lookup_empty, ?lookup_nil; try done.
  set_solver.
Qed.

(** Every rule preserves the invariant. *)
Lemma inv_step : stable step inv.
Proof.
  intros w l w' Hi Hs. inversion Hs; subst.
  - apply inv_snoc_quiet; [done | by destruct r].
  - by eapply inv_set_quiet.
  - by eapply inv_set_quiet.
  - by eapply inv_acquire.
  - by eapply inv_release.
  - by apply inv_start_insert.
  - by eapply inv_start_go.
  - by eapply inv_set_quiet.
  - by eapply inv_set_quiet.
  - by eapply inv_acquire.
  - by eapply inv_stop_found.
  - by eapply inv_release.
  - by eapply inv_cancel.
  - exfalso. by eapply send_chan_open.
  - by eapply inv_stop_close.
  - exfalso. by eapply close_chan_open.
  - by eapply inv_set_quiet.
  - by eapply inv_tick.
  - exfalso. by eapply live_chan_open.
Qed.

Lemma inv_reachable w : reachable w -> inv w.
Proof. intros [tr H]. eapply lstar_stable; eauto using inv_step, inv_init. Qed.

Lemma inv_lstar w tr w' : inv w -> w ⟶[ tr ]* w' -> inv w'.
Proof. intros Hi H. eapply lstar_stable; eauto using inv_step. Qed.

End Invariant.
