(* ===== verification/Exec.v ===== *)
(** * Exec: the step relation is a function of the scheduled event

    [Registry.exec] computes the successor of a state for a given event;
    [exec_step_iff] proves it is exactly [Registry.step], so the only
    nondeterminism of the model is the scheduler's choice of the next
    event (which goroutine moves, which request arrives, what the network
    returns).  [run] executes a whole schedule; concrete runs evaluate
    with [vm_compute] and give the reachable states the witnesses use. *)

From S2P Require Import Prelude Strconv Seats Notify Watcher Registry.
From Stdlib Require Import ZArith Lia Ascii.

Module Exec.
Import Watcher Registry.
Local Open Scope nubanner_scope.

(** ** Scenarios *)
Definition alice : string := "alice@example.com".
Definition crn : string := "12345".

(** Alice subscribes; her watcher's first poll fails ([client.Do]
    errors); she then asks to stop. *)
Definition zombie_run : list event :=
  [EvRequest (ReqStart alice crn); EvTau 0; EvTau 0; EvTau 0; EvTau 0;
   EvRespond 0 (ReqStart alice crn) (RespStarted alice);
   EvTick 0 FetchDoError None;
   EvRequest (ReqStop alice); EvTau 1; EvTau 1; EvTau 1].

(** Alice subscribes. *)
Definition started_run : list event :=
  [EvRequest (ReqStart alice crn); EvTau 0; EvTau 0; EvTau 0; EvTau 0;
   EvRespond 0 (ReqStart alice crn) (RespStarted alice)].

(** Alice subscribes and stops while her watcher is healthy. *)
Definition stop_run : list event :=
  [EvRequest (ReqStart alice crn); EvTau 0; EvTau 0; EvTau 0; EvTau 0;
   EvRespond 0 (ReqStart alice crn) (RespStarted alice);
   EvRequest (ReqStop alice); EvTau 1; EvTau 1; EvTau 1; EvCancel 1 0].

Definition state_after (tr : list event) : world :=
  match run init tr with Some w => w | None => init end.

(** ** [exec] is [step] *)

Local Ltac exec_split H :=
  repeat (case_match || case_bool_decide); simplify_eq/=.

Lemma exec_sound w l w' : exec w l = Some w' -> step w l w'.
Proof.
  intros H. destruct l; simpl in H; unfold exec_tau, exec_respond in H;
    exec_split H; destruct_and?; subst; try by econstructor.

Qed.

Lemma exec_complete w l w' : step w l w' -> exec w l = Some w'.
Proof.
  intros Hs. inversion Hs; subst; simpl; unfold exec_tau, exec_respond;
    repeat match goal with
    | H : _ !! _ = Some _ |- _ => rewrite H
    | H : subscriptions _ !! _ = None |- _ => rewrite H
    | H : locked _ = false |- _ => rewrite H
    end;
    repeat case_bool_decide; naive_solver.
Qed.

(** [exec] returns exactly the successor that [step] allows, and nothing
    when no rule applies. *)
Lemma exec_step_iff w l w' : exec w l = Some w' <-> step w l w'.
Proof. split; [apply exec_sound | apply exec_complete]. Qed.

(** ** Running a schedule *)
Lemma run_lstar w tr w' : run w tr = Some w' -> w ⟶[ tr ]* w'.
Proof.
  revert w. induction tr as [|l tr IH]; intros w H; simpl in H.
  - injection H as ->. constructor.
  - destruct (exec w l) as [w1|] eqn:E; [|done].
    econstructor; [by apply exec_sound | by apply IH].
Qed.

Lemma run_reachable tr w : run init tr = Some w -> reachable w.
Proof. intros H. exists tr. by apply run_lstar. Qed.

Lemma state_after_reachable tr : is_Some (run init tr) -> reachable (state_after tr).
Proof.
  unfold state_after. intros [w Hw]. rewrite Hw. by apply (run_reachable tr).
Qed.

End Exec.
