(* ===== verification/Zombie.v ===== *)
(** * Zombie: a watcher that returns on its own leaves its entry behind

    [checkCourseAvailability] returns on every request or parse error
    (new_main.go:92-116) without removing [subscriptions[email]].  The
    entry then points to a channel nobody will ever receive from:

    - the e-mail stays registered for ever; every later Start for it is
      refused and no later Stop for it succeeds: the only "started" or
      "stopped" answers for it still to come are those of handlers that
      had already passed their [go] or [close] ([zombie_forever]);
    - a Stop for it takes the mutex and blocks for ever at the unbuffered
      [stopChan <- true] of line 67, holding [subscriptionsMux]; from then
      on the server answers no request that needs the mutex: a request
      that arrives later gets at most a 400 for a missing parameter
      ([zombie_stop_deadlock]). *)

From S2P Require Import Prelude Strconv Seats Notify Watcher Registry Invariant Exec.
From Stdlib Require Import ZArith Lia Ascii.

Module Zombie.
Import Watcher Registry Invariant Exec.
Local Open Scope nubanner_scope.

(** [e] is registered under [ch], but no goroutine will ever receive from
    [ch]: its watcher has returned, no handler is about to start one with
    it, and no Stop has already met its watcher. *)
Definition zombie (w : world) (e : string) (ch : nat) : Prop :=
  subscriptions w !! e = Some ch /\
  Forall (fun a => w_chan a = ch -> w_pc a = WDone) (watchers w) /\
  Forall (fun h => go_chan h <> Some ch /\ h <> HStopClose e ch) (handlers w).

(** [zombie] as a test, for concrete states. *)
Definition zombie_check (w : world) (e : string) (ch : nat) : bool :=
  bool_decide (subscriptions w !! e = Some ch) &&
  forallb (fun a => negb (Nat.eqb (w_chan a) ch) || bool_decide (w_pc a = WDone)) (watchers w) &&
  forallb (fun h => bool_decide (go_chan h <> Some ch /\ h <> HStopClose e ch)) (handlers w).

(** Handler pcs before the mutex, and the 400 answers given there. *)
Definition before_lock (h : hpc) : bool :=
  match h with
  | HStart _ _ | HStop _ | HStartLock _ _ | HStopLock _
  | HDone RespStartBadRequest | HDone RespStopBadRequest => true
  | _ => false
  end.

Lemma zombie_check_sound w e ch : zombie_check w e ch = true -> zombie w e ch.
Proof.
  unfold zombie_check. intros [[Hs Hw]%andb_true_iff Hh]%andb_true_iff.
  split; [by apply bool_decide_eq_true in Hs|]. split; apply Forall_forall.
  - intros a Ha Hc. apply forallb_forall with (x := a) in Hw; [|by apply list_elem_of_In].
    apply orb_true_iff in Hw as [Hw|Hw]; [|by apply bool_decide_eq_true in Hw].
    apply negb_true_iff, Nat.eqb_neq in Hw. congruence.
  - intros h Hh'. apply forallb_forall with (x := h) in Hh; [|by apply list_elem_of_In].
    by apply bool_decide_eq_true in Hh.
Qed.

(** ** A zombie entry is permanent *)

Lemma zombie_step w l w' e ch :
  inv w -> zombie w e ch -> step w l w' -> zombie w' e ch.
Proof.
  intros Hi (Hs & Hw & Hh) Hst. rewrite Forall_lookup in Hw. rewrite Forall_lookup in Hh.
  pose proof (inv_fresh_subs _ Hi _ _ Hs) as Hfresh.
  unfold zombie. rewrite !Forall_lookup.
  inversion Hst; subst;
    unfold set_handler, set_watcher, set_locked, after_insert, after_go, after_close; simpl;
    (split; [|split]); intros *; try intros Hl; list_lookup_cases; simplify_eq/=; eauto;
    try (split; [congruence|congruence]).
  - destruct r; simpl; split; congruence.
  - rewrite lookup_insert_ne; congruence.
  - split; [intros [= <-]; lia | congruence].
  - intros ->. match goal with H : handlers w !! _ = Some (HStartGo _ _ ch) |- _ =>
      destruct (Hh _ _ H) as [Hg _]; simpl in Hg; congruence end.
  - split; [done|]. intros [= -> Hc].
    match goal with Ha : watchers w !! _ = Some a, Hp : w_pc a = WSelect |- _ =>
      specialize (Hw _ _ Ha Hc); congruence end.
  - rewrite lookup_delete_ne; [done|]. intros ->.
    match goal with H : handlers w !! _ = Some (HStopClose e _) |- _ =>
      destruct (inv_close _ Hi _ _ _ H) as (Hs' & _); rewrite Hs in Hs';
      injection Hs' as ->; by destruct (Hh _ _ H) as [_ Hne] end.
  - destruct (after_tick_ids a f) as (_ & _ & Hc). intros Hc'. rewrite Hc in Hc'.
    match goal with Ha : watchers w !! _ = Some a, Hp : w_pc a = WSelect |- _ =>
      specialize (Hw _ _ Ha Hc'); congruence end.
Qed.

Lemma zombie_lstar w tr w' e ch :
  inv w -> zombie w e ch -> w ⟶[ tr ]* w' -> zombie w' e ch.
Proof.
  intros Hi Hz Hr. revert Hi Hz. induction Hr; intros Hi Hz; [done|].
  apply IHHr; [by eapply inv_step | by eapply zombie_step].
Qed.

(** The successful answers for [e]: "started" to a Start, "stopped" to
    a Stop. *)
Definition served (e : string) (r : request) (resp : response) : Prop :=
  match r, resp with
  | ReqStart e1 _, RespStarted e2 | ReqStop e1, RespStopped e2 => e1 = e /\ e2 = e
  | _, _ => False
  end.

(** While [e] is a zombie, no handler reaches a successful answer for
    [e]: every successful answer given was already pending before. *)
Lemma zombie_answer_step w l w' e ch :
  inv w -> zombie w e ch -> step w l w' ->
  (forall t r resp, served e r resp -> handlers w' !! t = Some (HAnswer r resp) ->
                    handlers w !! t = Some (HAnswer r resp)) /\
  (forall t r resp, served e r resp -> l = EvRespond t r resp ->
                    handlers w !! t = Some (HAnswer r resp)).
Proof.
  intros Hi (Hs & _ & Hh) Hst. rewrite Forall_lookup in Hh. split.
  - intros t0 r0 resp0 Hsv Ht0.
    inversion Hst; subst; simpl in *;
      unfold set_handler, set_watcher, set_locked, after_insert, after_go, after_close in Ht0;
      simpl in Ht0; list_lookup_cases; simplify_eq/=; try done; try by destruct r.
    all: destruct Hsv as [-> _].
    all: first
      [ match goal with H : handlers _ !! _ = Some (HStartGo _ _ _) |- _ =>
          pose proof (inv_go _ Hi _ _ _ _ H) as Hg; rewrite Hs in Hg; injection Hg as <-;
          by destruct (Hh _ _ H) as [Hne _] end
      | match goal with H : handlers _ !! _ = Some (HStopClose _ _) |- _ =>
          destruct (inv_close _ Hi _ _ _ H) as (Hc & _); rewrite Hs in Hc; injection Hc as <-;
          by destruct (Hh _ _ H) as [_ Hne] end ].
  - intros t0 r0 resp0 Hsv ->. by inversion Hst; subst.
Qed.

Lemma zombie_answer_lstar w tr w' e ch :
  inv w -> zombie w e ch -> w ⟶[ tr ]* w' ->
  (forall t r resp, served e r resp -> handlers w' !! t = Some (HAnswer r resp) ->
                    handlers w !! t = Some (HAnswer r resp)) /\
  (forall t r resp, served e r resp -> In (EvRespond t r resp) tr ->
                    handlers w !! t = Some (HAnswer r resp)).
Proof.
  intros Hi Hz Hr. induction Hr as [|w l w1 tr w2 Hs _ IH]; [split; [done | by intros ? ? ? ? ?]|].
  destruct (zombie_answer_step _ _ _ _ _ Hi Hz Hs) as [Hp Hl].
  destruct (IH (inv_step _ _ _ Hi Hs) (zombie_step _ _ _ _ _ Hi Hz Hs)) as [Hp' Hl'].
  split; [eauto|]. intros t r resp Hsv [Heq|Hin]; eauto.
Qed.

(** The state of the server while a Stop for a zombie e-mail is blocked:
    handler [t] is stuck at the send, and every handler from index [n] on
    is still before the mutex. *)
Definition blocked (n t : nat) (e : string) (ch : nat) (w : world) : Prop :=
  inv w /\ zombie w e ch /\ handlers w !! t = Some (HStopSend e ch) /\
  forall t' h, (n <= t')%nat -> handlers w !! t' = Some h -> before_lock h = true.

Lemma blocked_step n t e ch w l w' :
  blocked n t e ch w -> step w l w' ->
  blocked n t e ch w' /\
  forall t' r resp, l = EvRespond t' r resp -> (n <= t')%nat ->
                    resp = RespStartBadRequest \/ resp = RespStopBadRequest.
Proof.
  intros (Hi & Hz & Ht & Hn) Hst.
  pose proof (lock_holder_locked _ _ _ Hi Ht eq_refl) as Hl.
  pose proof Hz as (Hs & Hw & _). rewrite Forall_lookup in Hw.
  split; [split; [by eapply inv_step|]; split; [by eapply zombie_step|]|].
  - inversion Hst; subst;
      unfold set_handler, set_watcher, set_locked, after_insert, after_go, after_close;
      simpl; split; try intros t' h Ht' Hh; list_lookup_cases; simplify_eq/=; eauto;
      try (rewrite list_lookup_insert_ne; [done|congruence]);
      try (by apply lookup_app_l_Some);
      try (specialize (Hn _ _ Ht' Hh); done);
      try congruence.
    all: try (exfalso; match goal with
         | H : handlers ?W !! ?x = Some ?h,
           Hn : forall t' h, _ -> handlers ?W !! t' = Some h -> _ |- _ =>
             specialize (Hn _ _ ltac:(eassumption) H); simpl in Hn; congruence
         end).
    all: try (destruct r; done).
    all: match goal with |- <[?x:=_]> _ !! _ = _ =>
           destruct (decide (x = t)) as [->|]; [|by rewrite list_lookup_insert_ne] end;
         exfalso; simplify_eq.
    + match goal with Ha : watchers _ !! _ = Some ?a, Hp : w_pc ?a = WSelect |- _ =>
        specialize (Hw _ _ Ha eq_refl); congruence end.
    + by apply (inv_open _ Hi _ _ Hs).
  - intros t' r resp -> Hle. inversion Hst; subst; try solve [left; done | right; done].
    all: exfalso; match goal with H : handlers _ !! _ = Some _ |- _ =>
           specialize (Hn _ _ ltac:(eassumption) H); simpl in Hn; congruence end.
Qed.

Lemma blocked_lstar n t e ch w tr w' :
  blocked n t e ch w -> w ⟶[ tr ]* w' ->
  blocked n t e ch w' /\
  forall t' r resp, In (EvRespond t' r resp) tr -> (n <= t')%nat ->
                    resp = RespStartBadRequest \/ resp = RespStopBadRequest.
Proof.
  intros Hb Hr. induction Hr as [|w l w1 tr w2 Hs _ IH]; [split; [done | by intros ? ? ? ?]|].
  destruct (blocked_step _ _ _ _ _ _ _ Hb Hs) as [Hb1 Hl].
  destruct (IH Hb1) as [Hb2 Htr]. split; [done|].
  intros t' r resp [Heq|Hin] Hle; [eapply Hl; eauto | eauto].
Qed.

(** ** Properties *)

(** C2: A watcher whose tick ends in [return] (a request, read or parse
    error, new_main.go:92-116) leaves its entry in [subscriptions]: right
    after the tick the entry is a zombie.  The spec (section 4.2)
    requires the watcher to deregister itself; the code does not. *)
Theorem self_exit_zombie w i a f m w' :
  reachable w -> watchers w !! i = Some a -> w_pc a = WSelect ->
  (exists err, fst (tick f) = TickReturn err) ->
  step w (EvTick i f m) w' -> zombie w' (w_email a) (w_chan a).
Proof.
  intros Hr Ha Hp [err Hf] Hs. pose proof (inv_reachable w Hr) as Hi.
  assert (Hw' : w' = set_watcher w i (fst (after_tick a f))).
  { inversion Hs; subst. congruence. }
  assert (Hdone : w_pc (fst (after_tick a f)) = WDone)
    by (unfold after_tick; destruct (tick f) as [r d]; simpl in Hf; by subst r).
  destruct (after_tick_ids a f) as (_ & _ & Hc).
  subst w'. unfold zombie, set_watcher. simpl. split; [by eapply inv_live|].
  split; rewrite Forall_lookup.
  - intros j b Hb Hbc. list_lookup_cases; [done|].
    assert (i = j) by (apply (owner_watchers w i j a b Hi Ha Hb); congruence). done.
  - intros t h Ht. split.
    + intros Hg. exact (owner_watcher_go w i a t h Hi Ha Ht Hg).
    + intros ->. destruct (inv_close _ Hi _ _ _ Ht) as (_ & _ & Hd).
      specialize (Hd i a Ha eq_refl). congruence.
Qed.

Lemma self_exit_zombie_witness :
  let w := state_after started_run in
  reachable w /\ watchers w !! 0 = Some (spawn_watcher alice crn 0) /\
  w_pc (spawn_watcher alice crn 0) = WSelect /\
  (exists err, fst (tick FetchDoError) = TickReturn err) /\
  step w (EvTick 0 FetchDoError None) (set_watcher w 0 (fst (after_tick (spawn_watcher alice crn 0) FetchDoError))) /\
  zombie (set_watcher w 0 (fst (after_tick (spawn_watcher alice crn 0) FetchDoError))) alice 0.
Proof.
  intros w.
  assert (Hr : reachable w) by (apply state_after_reachable; eexists; vm_compute; reflexivity).
  assert (Ha : watchers w !! 0 = Some (spawn_watcher alice crn 0))
    by (vm_compute; reflexivity).
  assert (Hf : exists err, fst (tick FetchDoError) = TickReturn err) by (by eexists).
  assert (Hs : step w (EvTick 0 FetchDoError None)
                 (set_watcher w 0 (fst (after_tick (spawn_watcher alice crn 0) FetchDoError))))
    by (apply exec_sound; vm_compute; reflexivity).
  do 5 (split; [done|]).
  exact (self_exit_zombie w 0 _ FetchDoError None _ Hr Ha eq_refl Hf Hs).
Defined.

(** C3: A zombie entry is permanent: in every later run the e-mail stays
    registered under the same channel, and no Start or Stop for it is
    served again: every "started" or "stopped" answer for it given later
    was already pending (its handler had passed its [go] or its [close])
    when the entry became a zombie. *)
Theorem zombie_forever w e ch tr w' :
  reachable w -> zombie w e ch -> w ⟶[ tr ]* w' ->
  subscriptions w' !! e = Some ch /\
  (forall t c, In (EvRespond t (ReqStart e c) (RespStarted e)) tr ->
               handlers w !! t = Some (HAnswer (ReqStart e c) (RespStarted e))) /\
  (forall t, In (EvRespond t (ReqStop e) (RespStopped e)) tr ->
             handlers w !! t = Some (HAnswer (ReqStop e) (RespStopped e))).
Proof.
  intros Hr Hz Hrun. pose proof (inv_reachable w Hr) as Hi.
  destruct (zombie_answer_lstar _ _ _ _ _ Hi Hz Hrun) as [_ Hl].
  split; [apply (zombie_lstar _ _ _ _ _ Hi Hz Hrun)|].
  split; [intros t c | intros t]; apply Hl; done.
Qed.

(** Alice's watcher fails after its [go] but before her Start is
    answered; the answer and a later Stop follow. *)
Definition zombie_head : list event := firstn 5 zombie_run ++ [EvTick 0 FetchDoError None].
Definition zombie_tail : list event :=
  [EvRespond 0 (ReqStart alice crn) (RespStarted alice);
   EvRequest (ReqStop alice); EvTau 1; EvTau 1; EvTau 1].

Definition zombie_state : world := state_after zombie_head.

Lemma zombie_state_zombie : zombie zombie_state alice 0.
Proof. apply zombie_check_sound. vm_compute. reflexivity. Qed.

Lemma zombie_forever_witness :
  reachable zombie_state /\ zombie zombie_state alice 0 /\
  zombie_state ⟶[ zombie_tail ]* (state_after (zombie_head ++ zombie_tail)) /\
  handlers zombie_state !! 0 = Some (HAnswer (ReqStart alice crn) (RespStarted alice)) /\
  subscriptions (state_after (zombie_head ++ zombie_tail)) !! alice = Some 0 /\
  (forall t c, In (EvRespond t (ReqStart alice c) (RespStarted alice)) zombie_tail ->
               handlers zombie_state !! t = Some (HAnswer (ReqStart alice c) (RespStarted alice))) /\
  (forall t, In (EvRespond t (ReqStop alice) (RespStopped alice)) zombie_tail ->
             handlers zombie_state !! t = Some (HAnswer (ReqStop alice) (RespStopped alice))).
Proof.
  assert (Hr : reachable zombie_state) by (apply state_after_reachable; eexists; vm_compute; reflexivity).
  assert (Hrun : zombie_state ⟶[ zombie_tail ]* (state_after (zombie_head ++ zombie_tail)))
    by (apply run_lstar; vm_compute; reflexivity).
  split; [done|]. split; [apply zombie_state_zombie|]. split; [done|].
  split; [vm_compute; reflexivity|].
  exact (zombie_forever _ _ _ _ _ Hr zombie_state_zombie Hrun).
Defined.

(** C1: Deadlock: once a Stop for a zombie e-mail reaches the send of
    line 67 it stays there for ever holding [subscriptionsMux]; every
    request that arrives afterwards is answered, if at all, only with a
    400 for a missing parameter: no Start or Stop is served again. *)
Theorem zombie_stop_deadlock w e ch t tr w' :
  reachable w -> zombie w e ch -> handlers w !! t = Some (HStopSend e ch) ->
  w ⟶[ tr ]* w' ->
  handlers w' !! t = Some (HStopSend e ch) /\ locked w' = true /\
  forall t' r resp, In (EvRespond t' r resp) tr -> (length (handlers w) <= t')%nat ->
                    resp = RespStartBadRequest \/ resp = RespStopBadRequest.
Proof.
  intros Hr Hz Ht Hrun.
  assert (Hb : blocked (length (handlers w)) t e ch w).
  { split; [by apply inv_reachable|]. split; [done|]. split; [done|].
    intros t' h Hle Hh. apply lookup_lt_Some in Hh. lia. }
  destruct (blocked_lstar _ _ _ _ _ _ _ Hb Hrun) as [(Hi' & _ & Ht' & _) Htr].
  split; [done|]. split; [exact (lock_holder_locked _ _ _ Hi' Ht' eq_refl)|done].
Qed.

Definition bob : string := "bob@example.com".

(** After the deadlock, Bob's Start arrives and is validated; it can only
    wait at [Lock]. *)
Definition after_deadlock : list event := [EvRequest (ReqStart bob crn); EvTau 2].

Lemma zombie_stop_deadlock_witness :
  let w := state_after zombie_run in
  let w' := state_after (zombie_run ++ after_deadlock) in
  reachable w /\ zombie w alice 0 /\ handlers w !! 1 = Some (HStopSend alice 0) /\
  w ⟶[ after_deadlock ]* w' /\
  handlers w' !! 1 = Some (HStopSend alice 0) /\ locked w' = true /\
  handlers w' !! 2 = Some (HStartLock bob crn).
Proof.
  intros w w'.
  assert (Hr : reachable w) by (apply state_after_reachable; eexists; vm_compute; reflexivity).
  assert (Hz : zombie w alice 0).
  { apply zombie_check_sound. vm_compute. reflexivity. }
  assert (Ht : handlers w !! 1 = Some (HStopSend alice 0)) by (vm_compute; reflexivity).
  assert (Hrun : w ⟶[ after_deadlock ]* w') by (apply run_lstar; vm_compute; reflexivity).
  destruct (zombie_stop_deadlock w alice 0 1 after_deadlock w' Hr Hz Ht Hrun) as (H1 & H2 & _).
  do 6 (split; [done|]). vm_compute. reflexivity.
Defined.

End Zombie.
