(* ===== verification/Safety.v ===== *)
(** * Safety: what the server guarantees in every reachable state

    From [Invariant.inv_reachable]: one running watcher per e-mail, one
    handler at a time in the critical section, no panic from the
    channel operations of [stopCourseCheckHandler], and, when a Stop
    closes the channel, the e-mail's watcher has returned and never
    polls again. *)

From S2P Require Import Prelude Strconv Seats Notify Watcher Registry Invariant Exec.
From Stdlib Require Import ZArith Lia Ascii.

Module Safety.
Import Watcher Registry Invariant Exec.
Local Open Scope nubanner_scope.

(** ** Returned goroutines stay returned and stay silent *)

Lemma done_step w l w' i a :
  step w l w' -> watchers w !! i = Some a -> w_pc a = WDone ->
  watchers w' !! i = Some a /\ (forall f m, l <> EvTick i f m).
Proof.
  intros Hs Ha Hd.
  inversion Hs; subst; simpl; unfold set_watcher, set_handler, set_locked; simpl;
    try (split; [done | congruence]).
  - split; [by apply lookup_app_l_Some | congruence].
  - assert (i0 <> i) by congruence.
    split; [by rewrite list_lookup_insert_ne | congruence].
  - assert (i0 <> i) by congruence.
    split; [by rewrite list_lookup_insert_ne | congruence].
  - assert (i0 <> i) by congruence.
    split; [by rewrite list_lookup_insert_ne | congruence].
Qed.

Lemma done_lstar w tr w' i a :
  w ⟶[ tr ]* w' -> watchers w !! i = Some a -> w_pc a = WDone ->
  watchers w' !! i = Some a /\ (forall f m, ~ In (EvTick i f m) tr).
Proof.
  induction 1 as [|w l w1 tr w2 Hs _ IH]; intros Ha Hd; [split; [done | by intros ? ? ?]|].
  destruct (done_step _ _ _ _ _ Hs Ha Hd) as [Ha1 Hl].
  destruct (IH Ha1 Hd) as [Ha2 Hin]. split; [done|].
  intros f m [Heq|Hin']; [by apply (Hl f m)|by apply (Hin f m)].
Qed.

(** ** Properties *)

(** C7: In every reachable state at most one watcher goroutine is running
    for a given e-mail: two running watchers with the same e-mail are the
    same goroutine. *)
Theorem at_most_one_watcher w i j a b :
  reachable w -> watchers w !! i = Some a -> watchers w !! j = Some b ->
  w_pc a = WSelect -> w_pc b = WSelect -> w_email a = w_email b -> i = j.
Proof.
  intros Hr Ha Hb Hsa Hsb He. pose proof (inv_reachable w Hr) as Hi.
  pose proof (inv_live _ Hi _ _ Ha Hsa). pose proof (inv_live _ Hi _ _ Hb Hsb).
  apply (owner_watchers w i j a b Hi Ha Hb). congruence.
Qed.

Lemma at_most_one_watcher_witness :
  reachable (state_after started_run) /\
  watchers (state_after started_run) !! 0 = Some (spawn_watcher alice crn 0) /\
  w_pc (spawn_watcher alice crn 0) = WSelect /\ 0 = 0.
Proof.
  assert (Hr : reachable (state_after started_run))
    by (apply state_after_reachable; eexists; vm_compute; reflexivity).
  assert (Ha : watchers (state_after started_run) !! 0 = Some (spawn_watcher alice crn 0))
    by (vm_compute; reflexivity).
  split; [done|]. split; [done|]. split; [reflexivity|].
  exact (at_most_one_watcher _ 0 0 _ _ Hr Ha Ha eq_refl eq_refl eq_refl).
Defined.

(** C8: [subscriptionsMux] gives mutual exclusion: in every reachable
    state at most one handler is between its [Lock] and its [Unlock]. *)
Theorem mutex_exclusive w t1 t2 h1 h2 :
  reachable w -> handlers w !! t1 = Some h1 -> handlers w !! t2 = Some h2 ->
  holds_lock h1 = true -> holds_lock h2 = true -> t1 = t2.
Proof. intros Hr. apply lock_holder_unique, inv_reachable, Hr. Qed.

Lemma mutex_exclusive_witness :
  reachable (state_after stop_run) /\
  handlers (state_after stop_run) !! 1 = Some (HStopClose alice 0) /\ 1 = 1.
Proof.
  assert (Hr : reachable (state_after stop_run)) by (apply state_after_reachable; eexists; vm_compute; reflexivity).
  assert (Ht : handlers (state_after stop_run) !! 1 = Some (HStopClose alice 0)) by (vm_compute; reflexivity).
  split; [done|]. split; [done|].
  exact (mutex_exclusive _ 1 1 _ _ Hr Ht Ht eq_refl eq_refl).
Defined.

(** C10: No handler ever panics: [stopCourseCheckHandler] never sends on
    nor closes a channel that is already closed. *)
Theorem no_panic w t : reachable w -> handlers w !! t <> Some HPanic.
Proof. intros Hr H. exact (inv_no_panic _ (inv_reachable w Hr) t H). Qed.

Lemma no_panic_witness :
  reachable (state_after zombie_run) /\ handlers (state_after zombie_run) !! 1 <> Some HPanic.
Proof.
  assert (Hr : reachable (state_after zombie_run)) by (apply state_after_reachable; eexists; vm_compute; reflexivity).
  split; [done|]. exact (no_panic _ 1 Hr).
Defined.

(** C9: Cancellation: when a Stop handler holding the mutex closes the
    channel of [e] (lines 68-70, the step before its "stopped" answer),
    the entry of [e] is removed, every watcher goroutine for [e] that
    exists at that moment has returned, and none of them ticks (calls
    the availability source or the notifier) at any later time. *)
Theorem stopped_watchers_silent w t e ch w' tr w'' i a :
  reachable w -> handlers w !! t = Some (HStopClose e ch) -> step w (EvTau t) w' ->
  w' ⟶[ tr ]* w'' -> watchers w !! i = Some a -> w_email a = e ->
  subscriptions w' !! e = None /\ w_pc a = WDone /\ forall f m, ~ In (EvTick i f m) tr.
Proof.
  intros Hr Ht Hs Hrun Ha He. pose proof (inv_reachable w Hr) as Hi.
  apply exec_complete in Hs. simpl in Hs. unfold exec_tau in Hs. rewrite Ht in Hs.
  case_bool_decide as Hc; [by pose proof (close_chan_open _ _ _ _ Hi Ht)|].
  injection Hs as <-.
  destruct (inv_close _ Hi _ _ _ Ht) as (Hsub & _ & Hdone).
  assert (Hd : w_pc a = WDone).
  { destruct (w_pc a) eqn:Hpc; [|done].
    pose proof (inv_live _ Hi _ _ Ha Hpc) as Hl.
    assert (Hc' : w_chan a = ch) by congruence.
    pose proof (Hdone i a Ha Hc'). congruence. }
  split; [apply lookup_delete_eq|]. split; [done|].
  eapply done_lstar; eauto.
Qed.

Lemma stopped_watchers_silent_witness :
  let w := state_after stop_run in
  let w' := after_close w 1 alice 0 in
  reachable w /\ handlers w !! 1 = Some (HStopClose alice 0) /\ step w (EvTau 1) w' /\
  watchers w !! 0 = Some (after_stop (spawn_watcher alice crn 0)) /\
  (subscriptions w' !! alice = None /\ w_pc (after_stop (spawn_watcher alice crn 0)) = WDone /\
   forall f m, ~ In (EvTick 0 f m) []).
Proof.
  intros w w'.
  assert (Hr : reachable w) by (apply state_after_reachable; eexists; vm_compute; reflexivity).
  assert (Ht : handlers w !! 1 = Some (HStopClose alice 0)) by (vm_compute; reflexivity).
  assert (Hs : step w (EvTau 1) w') by (apply exec_sound; vm_compute; reflexivity).
  assert (Ha : watchers w !! 0 = Some (after_stop (spawn_watcher alice crn 0)))
    by (vm_compute; reflexivity).
  split; [done|]. split; [done|]. split; [done|]. split; [done|].
  exact (stopped_watchers_silent w 1 alice 0 w' [] w' 0 _ Hr Ht Hs (lstar_refl _ _) Ha eq_refl).
Defined.

End Safety.
