(* ===== verification/WatcherSpec.v ===== *)
(** * WatcherSpec: the watcher of spec section 4.2 against its collaborators

    Spec section 1 treats the seat source and the mail as external
    collaborators with one operation each: an [AvailabilityChecker]
    answers a count or an error, a [Notifier] delivers a message to a
    recipient about a target and a count.  They are type classes here.
    Spec section 4.2 describes the watcher against them: on each interval
    tick it asks the checker; on an error it terminates; on a count it
    stays running and notifies when the count is positive.
    [spec_tick] and [spec_run] state this for any instances; nothing of
    the program is used.

    The program provides the instances: the checker is the part of the
    ticker branch that builds and sends the request, reads the body and
    parses it (new_main.go:86-116, with the network's answer as the
    observation), and the notifier is [sendEmailNotification].  [ticks]
    is the [for]/[select] loop (lines 83-120) run over the ticks the
    goroutine receives, until it returns.  [watcher_refines_spec]: the
    program's loop sends exactly the mails of the spec's watcher and
    returns exactly when the spec's watcher terminates.  The spec's
    deregistration on termination is a step of the registry, which the
    program does not take ([Zombie]). *)

From S2P Require Import Prelude Strconv Seats Notify Watcher.
From Stdlib Require Import ZArith Lia Ascii.

Local Open Scope Z_scope.

Module WatcherSpec.
Import Seats Notify Watcher.

(** ** The collaborators (spec section 1) *)

(** [CheckAvailability(key) -> (count int, err error)], on what the
    checker observes. *)
Class AvailabilityChecker (Obs : Type) := check_availability : Obs -> goresult Z.

(** [Notify(recipient, key, count)]: the message it delivers. *)
Class Notifier := notify : string -> string -> Z -> mail.

Inductive wstate := Running | Terminated.

(** ** The watcher of spec section 4.2 *)
Section Spec.
Context {Obs : Type} `{AvailabilityChecker Obs} `{Notifier}.
Variables (key target : string).

(** One interval tick (step 2): fail-fast on a checker error, notify on
    a positive count. *)
Definition spec_tick (o : Obs) : wstate * option mail :=
  match check_availability o with
  | (_, Some _) => (Terminated, None)
  | (n, None) => (Running, if 0 <? n then Some (notify key target n) else None)
  end.

(** The watch over the observations of successive ticks: the mails it
    sends and the state it ends in. *)
Fixpoint spec_run (os : list Obs) : wstate * list mail :=
  match os with
  | [] => (Running, [])
  | o :: os' =>
      match spec_tick o with
      | (Terminated, _) => (Terminated, [])
      | (Running, m) => let '(s, ms) := spec_run os' in (s, option_list m ++ ms)
      end
  end.

(** The spec's watcher sends at most one mail per tick. *)
Lemma spec_run_mails os : (length (snd (spec_run os)) <= length os)%nat.
Proof.
  induction os as [|o os IH]; simpl; [lia|].
  destruct (spec_tick o) as [[|] m]; simpl; [|lia].
  destruct (spec_run os) as [s ms]. simpl in *. rewrite length_app.
  destruct m; simpl; lia.
Qed.

End Spec.

(** ** The program's collaborators *)

(** Lines 86-116: the request, [client.Do], [ioutil.ReadAll] and
    [parseAvailableSeats], observed through what the network returned. *)
#[export] Instance fetch_checker : AvailabilityChecker fetch_outcome :=
  fun f =>
    match f with
    | FetchNewRequestError => (0, Some ErrNewRequest)
    | FetchDoError => (0, Some ErrDo)
    | FetchReadError => (0, Some ErrReadBody)
    | FetchBody body => parseAvailableSeats body
    end.

(** Line 119: [sendEmailNotification(email, availableSeats, crn)]. *)
#[export] Instance email_notifier : Notifier :=
  fun email crn n => sendEmailNotification email n crn.

(** The [for]/[select] loop (lines 83-120) over the ticks the goroutine
    receives: after a [return] it receives no more. *)
Fixpoint ticks (a : watcher) (fs : list fetch_outcome) : watcher * list mail :=
  match fs with
  | [] => (a, [])
  | f :: fs' =>
      let '(a1, m) := after_tick a f in
      match w_pc a1 with
      | WDone => (a1, option_list m)
      | WSelect => let '(a2, ms) := ticks a1 fs' in (a2, option_list m ++ ms)
      end
  end.

(** A page showing five free seats. *)
Definition page_five : string := seats_prefix +:+ "5" +:+ seats_suffix.

(** One tick of the program is one tick of the spec's watcher. *)
Lemma after_tick_spec a f :
  snd (after_tick a f) = snd (spec_tick (w_email a) (w_crn a) f) /\
  (w_pc (fst (after_tick a f)) = WDone <-> fst (spec_tick (w_email a) (w_crn a) f) = Terminated).
Proof.
  unfold after_tick, tick, spec_tick, check_availability, fetch_checker, notify, email_notifier.
  destruct f as [| | |body]; simpl; try (split; [done | split; done]).
  destruct (parseAvailableSeats body) as [n [e|]]; simpl; [split; [done | split; done]|].
  destruct (0 <? n); simpl; split; try done; split; done.
Qed.

(** ** Properties *)

(** C6: Refinement of spec section 4.2: from a watcher waiting in
    [select], the program's loop over any sequence of ticks sends
    exactly the mails of the spec's watcher with the program's checker
    and notifier, and has returned exactly when the spec's watcher has
    terminated. *)
Theorem watcher_refines_spec a fs :
  w_pc a = WSelect ->
  snd (ticks a fs) = snd (spec_run (w_email a) (w_crn a) fs) /\
  (w_pc (fst (ticks a fs)) = WDone <-> fst (spec_run (w_email a) (w_crn a) fs) = Terminated).
Proof.
  revert a. induction fs as [|f fs IH]; intros a Hp; simpl; [rewrite Hp; split; done|].
  destruct (after_tick_spec a f) as [Hm [Hd1 Hd2]]. destruct (after_tick_ids a f) as (He & Hc & _).
  destruct (after_tick a f) as [a1 m] eqn:Ha. simpl in *.
  destruct (spec_tick (w_email a) (w_crn a) f) as [[|] m'] eqn:Hs; simpl in *; subst m'.
  - destruct (w_pc a1) eqn:Hp1; [|by specialize (Hd1 eq_refl)].
    destruct (IH a1 Hp1) as [IHm IHd]. rewrite He, Hc in *.
    destruct (ticks a1 fs) as [a2 ms], (spec_run (w_email a) (w_crn a) fs) as [s ms'].
    simpl in *. by subst.
  - rewrite (Hd2 eq_refl). split; [|done].
    destruct m; [|done].
    unfold spec_tick in Hs. destruct (check_availability f) as [n [e|]]; [done|].
    destruct (0 <? n); discriminate.
Qed.

Lemma watcher_refines_spec_witness :
  let a := spawn_watcher "a@b.c" "12345" 0 in
  let fs := [FetchBody page_five; FetchDoError; FetchBody page_five] in
  w_pc a = WSelect /\
  snd (ticks a fs) = [sendEmailNotification "a@b.c" 5 "12345"] /\
  snd (ticks a fs) = snd (spec_run (w_email a) (w_crn a) fs) /\
  (w_pc (fst (ticks a fs)) = WDone <-> fst (spec_run (w_email a) (w_crn a) fs) = Terminated).
Proof.
  intros a fs. split; [reflexivity|]. split; [vm_compute; reflexivity|].
  exact (watcher_refines_spec a fs eq_refl).
Defined.

End WatcherSpec.
