(* ===== verification/Logging.v ===== *)
(** * Logging: the lines the program writes with [log.Println]

    The watcher logs every [return] of the ticker branch with the stage
    that failed (new_main.go:93, 101, 108, 114) and its own end on a
    Stop (line 122); [sendEmailNotification] logs the delivery outcome
    (lines 150-154).  [log.Println(v...)] writes [fmt.Sprintln(v...)]:
    the operands printed one after the other, a space between any two,
    and a newline ([println]).  A string prints as itself, an error as
    its [Error()] text ([error_text]): the program's own
    [errors.New("could not find available seats in HTML")] (line 132),
    [strconv.Atoi]'s [*NumError] (["strconv.Atoi: parsing " + Quote(num)
    + ": " + err]), and the errors of [net/http] and [net/smtp], whose
    text comes from the network and is taken as given ([OpaqueError]).
    The date and time [log] writes before each line come from the wall
    clock and are left out.

    Theorems: a tick logs a line exactly when the goroutine returns; the
    four stages print lines that tell them apart; and the exact line of
    a seat count out of the [int] range, with the two spaces the
    program prints after each [": "] prefix. *)

From S2P Require Import Prelude Strconv Seats Notify Watcher.
From Stdlib Require Import ZArith Lia Ascii.

Local Open Scope Z_scope.

Module Logging.
Import Strconv Seats Notify Watcher.

(** ** Error values and their text *)

Inductive error_value :=
| ErrorsNew (msg : string)                        (** [errors.New(msg)] *)
| NumError (func num : string) (err : goerror)   (** [*strconv.NumError{Func, Num, Err}] *)
| OpaqueError (text : string).                    (** an error of [net/http] or [net/smtp] *)

(** [strconv.ErrSyntax] and [strconv.ErrRange]. *)
Definition sentinel_text (e : goerror) : string :=
  match e with
  | ErrSyntax => "invalid syntax"
  | ErrRange => "value out of range"
  | _ => ""
  end.

Definition lowerhex (n : Z) : ascii :=
  if n <? 10 then ascii_of_N (Z.to_N (48 + n)) else ascii_of_N (Z.to_N (87 + n)).

Definition backslash : ascii := ascii_of_nat 92.

(** [strconv.Quote] on a string of bytes: the double quote and the
    backslash escaped, printable ASCII kept, the C escapes for the control
    characters that have one, [\xHH] for any other byte.  A byte of 128
    or more is written [\xHH], as Go does for a byte that does not start
    a valid UTF-8 sequence; multi-byte UTF-8 characters are not decoded
    (the only string quoted here is an [Atoi] argument, which the seat
    regex makes [-?\d+]). *)
Definition quote_byte (c : ascii) : string :=
  let b := byte_val c in
  if (Ascii.eqb c dquote || Ascii.eqb c backslash)%bool then String backslash (String c "")
  else if (32 <=? b) && (b <? 127) then String c ""
  else match b with
       | 7 => String backslash "a" | 8 => String backslash "b" | 12 => String backslash "f"
       | 10 => String backslash "n" | 13 => String backslash "r" | 9 => String backslash "t"
       | 11 => String backslash "v"
       | _ => String backslash (String "x" (String (lowerhex (b / 16)) (String (lowerhex (b mod 16)) "")))
       end.

Fixpoint quote_bytes (s : string) : string :=
  match s with
  | EmptyString => EmptyString
  | String c s' => quote_byte c +:+ quote_bytes s'
  end.

Definition quote (s : string) : string := String dquote (quote_bytes s +:+ String dquote "").

(** [err.Error()]. *)
Definition error_text (e : error_value) : string :=
  match e with
  | ErrorsNew msg => msg
  | NumError func num err =>
      "strconv." +:+ func +:+ ": parsing " +:+ quote num +:+ ": " +:+ sentinel_text err
  | OpaqueError text => text
  end.

(** ** [log.Println] *)

Inductive operand := OStr (s : string) | OErr (e : error_value).

Definition operand_text (o : operand) : string :=
  match o with OStr s => s | OErr e => error_text e end.

Fixpoint join_spaced (ts : list string) : string :=
  match ts with
  | [] => ""
  | [t] => t
  | t :: ts' => t +:+ String " " (join_spaced ts')
  end.

Definition newline : string := String "010"%char "".

(** [fmt.Sprintln]: spaces between the operands, a newline after. *)
Definition println (os : list operand) : string :=
  join_spaced (map operand_text os) +:+ newline.

(** ** The program's log lines *)

(** Line 132. *)
Definition no_seats_msg : string := "could not find available seats in HTML".

(** The error [parseAvailableSeats] returns for a page, as a value:
    the [errors.New] of line 132, or [Atoi]'s [*NumError] on the
    captured group (both its fast path and [ParseInt] report the
    function [Atoi] and the whole argument). *)
Definition parse_error (body : string) : option error_value :=
  match find_submatch body with
  | None => Some (ErrorsNew no_seats_msg)
  | Some g => match snd (atoi g) with Some e => Some (NumError "Atoi" g e) | None => None end
  end.

(** The line a tick logs before [return] (lines 93, 101, 108, 114), given
    the error [net] of the network call that failed, if one did. *)
Definition tick_log (net : error_value) (f : fetch_outcome) : option string :=
  match f with
  | FetchNewRequestError => Some (println [OStr "Error creating request: "; OErr net])
  | FetchDoError => Some (println [OStr "Error making request: "; OErr net])
  | FetchReadError => Some (println [OStr "Error reading response body: "; OErr net])
  | FetchBody body =>
      option_map (fun e => println [OStr "Error parsing available seats: "; OErr e]) (parse_error body)
  end.

(** Line 122. *)
Definition stop_log (a : watcher) : string :=
  println [OStr "Stopping course check for"; OStr (w_email a)].

(** Lines 150-154, with the text of the SMTP error. *)
Definition send_log_text (smtp_err : error_value) (l : log_line) : string :=
  match l with
  | LogSendError _ => println [OStr "Error sending email: "; OErr smtp_err]
  | LogSent email => println [OStr "Send Notification to"; OStr email; OStr "Successfully"]
  end.

(** The stage a tick fails at, by the branch of its outcome. *)
Definition stage (f : fetch_outcome) : nat :=
  match f with
  | FetchNewRequestError => 0 | FetchDoError => 1 | FetchReadError => 2 | FetchBody _ => 3
  end%nat.

(** A body whose seat count does not fit an [int]. *)
Definition page_huge : string := seats_prefix +:+ "99999999999999999999" +:+ seats_suffix.

(** ** Lemmas *)

Lemma println_two p e : println [OStr p; OErr e] = p +:+ String " " (error_text e +:+ newline).
Proof. unfold println. simpl. by rewrite string_app_assoc, string_app_cons. Qed.

Lemma string_app_get (s t : string) n : (n < String.length s)%nat -> String.get n (s +:+ t) = String.get n s.
Proof.
  revert n. induction s as [|c s IH]; intros n Hn; simpl in Hn; [lia|].
  rewrite string_app_cons. destruct n; simpl; [done|]. apply IH. lia.
Qed.

(** Two lines with prefixes that differ at their seventh character. *)
Lemma prefixes_differ p1 p2 r1 r2 :
  (6 < String.length p1)%nat -> (6 < String.length p2)%nat -> String.get 6 p1 <> String.get 6 p2 ->
  p1 +:+ r1 <> p2 +:+ r2.
Proof.
  intros H1 H2 Hd Heq. apply (f_equal (String.get 6)) in Heq.
  rewrite !string_app_get in Heq by done. done.
Qed.

(** A string of [-?\d+] is quoted as itself between double quotes. *)
Lemma quote_bytes_digits s : all_digits s = true -> quote_bytes s = s.
Proof.
  induction s as [|c s IH]; simpl; [done|]. intros [Hc Hs]%andb_true_iff.
  rewrite IH by done. unfold quote_byte.
  pose proof (is_digit_range c Hc).
  destruct (Ascii.eqb_spec c dquote) as [->|]; [done|].
  destruct (Ascii.eqb_spec c backslash) as [->|]; [done|]. simpl.
  destruct ((32 <=? byte_val c) && (byte_val c <? 127)) eqn:E; [done|].
  apply andb_false_iff in E as [E|E]; [apply Z.leb_gt in E|apply Z.ltb_ge in E]; lia.
Qed.

Lemma quote_signed s : signed_digits s = true -> quote s = String dquote (s +:+ String dquote "").
Proof.
  intros Hd. unfold quote. do 2 f_equal.
  destruct s as [|c s]; [done|]. simpl in Hd.
  destruct (Ascii.eqb_spec c "-"%char) as [->|Hc].
  - apply andb_true_iff in Hd as [_ Hs]. cbn [quote_bytes]. rewrite quote_bytes_digits by done.
    change (quote_byte "-"%char) with (String "-"%char ""). by rewrite string_app_cons, string_app_nil_l.
  - by apply quote_bytes_digits.
Qed.

(** The error [parseAvailableSeats] returns, read from its definition. *)
Lemma parse_error_spec body :
  parse_error body = None <-> snd (parseAvailableSeats body) = None.
Proof.
  unfold parse_error, parseAvailableSeats.
  destruct (find_submatch body) as [g|]; [|done]. destruct (snd (atoi g)); done.
Qed.

(** ** Properties *)

(** C23: Every return of the ticker branch is logged, and nothing else
    it does is: a tick writes a line exactly when the goroutine returns
    (lines 93, 101, 108 and 114, each followed by [return]). *)
Theorem tick_logged_iff_returns net a f :
  w_pc (fst (after_tick a f)) = WDone <-> is_Some (tick_log net f).
Proof.
  unfold after_tick, tick, tick_log. destruct f as [| | |body]; simpl; try (split; [by eexists | done]).
  pose proof (parse_error_spec body) as Hp.
  destruct (parseAvailableSeats body) as [n [e|]]; simpl in *.
  - destruct (parse_error body) as [ev|]; simpl; [split; [by eexists | done]|].
    exfalso. by pose proof (proj1 Hp eq_refl).
  - rewrite (proj2 Hp eq_refl). simpl. split; [done|]. by intros [? ?].
Qed.

Lemma tick_logged_iff_returns_witness :
  w_pc (fst (after_tick (spawn_watcher "a@b.c" "12345" 0) (FetchBody page_huge))) = WDone /\
  is_Some (tick_log (OpaqueError "") (FetchBody page_huge)).
Proof.
  assert (H : w_pc (fst (after_tick (spawn_watcher "a@b.c" "12345" 0) (FetchBody page_huge))) = WDone)
    by (vm_compute; reflexivity).
  split; [exact H | exact (proj1 (tick_logged_iff_returns (OpaqueError "") _ _) H)].
Defined.

(** C24: The log tells the stages apart: two ticks that log the same line
    failed at the same stage (creating the request, sending it, reading
    the body, or parsing it), whatever the errors' texts. *)
Theorem stage_logs_distinct net1 net2 f1 f2 l :
  tick_log net1 f1 = Some l -> tick_log net2 f2 = Some l -> stage f1 = stage f2.
Proof.
  assert (Hb : forall body l, option_map (fun e => println [OStr "Error parsing available seats: "; OErr e])
                                (parse_error body) = Some l ->
               exists e, l = println [OStr "Error parsing available seats: "; OErr e])
    by (intros body l'; destruct (parse_error body); simpl; [intros [= <-]; eauto | done]).
  intros H1 H2.
  destruct f1 as [| | |b1], f2 as [| | |b2]; try done; unfold tick_log in H1, H2;
    first [apply (inj Some) in H1; subst l | apply Hb in H1 as [? ->]];
    first [apply (inj Some) in H2 | apply Hb in H2 as [? H2]];
    rewrite !println_two in H2; exfalso; revert H2;
    apply prefixes_differ; vm_compute; first [lia | intros ?; discriminate].
Qed.

Lemma stage_logs_distinct_witness :
  let l := println [OStr "Error making request: "; OErr (OpaqueError "timeout")] in
  tick_log (OpaqueError "timeout") FetchDoError = Some l /\
  tick_log (OpaqueError "timeout") FetchDoError = Some l /\ stage FetchDoError = stage FetchDoError.
Proof.
  intros l. assert (H : tick_log (OpaqueError "timeout") FetchDoError = Some l) by reflexivity.
  split; [exact H|]. split; [exact H|].
  exact (stage_logs_distinct _ _ _ _ _ H H).
Defined.

(** C25: The exact line of a page whose seat count does not fit an
    [int]: the prefix ["Error parsing available seats: "], a space,
    ["strconv.Atoi: parsing "], the digits in double quotes and
    [": value out of range"].  [Println] puts a space after the prefix,
    which already ends in one: the line has two. *)
Theorem overflow_log_line net body g :
  find_submatch body = Some g -> in_int64 (signed_value g) = false ->
  tick_log net (FetchBody body) =
  Some ("Error parsing available seats:  strconv.Atoi: parsing " +:+
        String dquote (g +:+ String dquote (": value out of range" +:+ newline))).
Proof.
  intros Hg Hr.
  assert (Ha : snd (atoi g) = Some ErrRange).
  { pose proof (parseAvailableSeats_spec body) as Hs. unfold parseAvailableSeats in Hs.
    rewrite Hg in Hs. rewrite Hs. unfold atoi_expected. rewrite Hr. by destruct (signed_value g <? 0). }
  unfold tick_log, parse_error. rewrite Hg, Ha. cbn [option_map]. rewrite println_two. f_equal. unfold error_text.
  rewrite (quote_signed g (find_submatch_signed _ _ Hg)).
  rewrite <- !string_app_assoc. cbn [sentinel_text].
  change "Error parsing available seats:  strconv.Atoi: parsing "
    with ("Error parsing available seats: " +:+ String " " ("strconv." +:+ "Atoi" +:+ ": parsing ")).
  rewrite !string_app_assoc, !string_app_cons, !string_app_assoc. reflexivity.
Qed.

Lemma overflow_log_line_witness :
  find_submatch page_huge = Some "99999999999999999999" /\
  in_int64 (signed_value "99999999999999999999") = false /\
  tick_log (OpaqueError "") (FetchBody page_huge) =
  Some ("Error parsing available seats:  strconv.Atoi: parsing " +:+
        String dquote ("99999999999999999999" +:+ String dquote (": value out of range" +:+ newline))).
Proof.
  assert (Hg : find_submatch page_huge = Some "99999999999999999999") by (vm_compute; reflexivity).
  assert (Hr : in_int64 (signed_value "99999999999999999999") = false) by (vm_compute; reflexivity).
  split; [exact Hg|]. split; [exact Hr|]. exact (overflow_log_line _ _ _ Hg Hr).
Defined.

End Logging.
