(* ===== verification/Leak.v ===== *)
(** * Leak: deferred body closes accumulate in a running watcher

    [defer resp.Body.Close()] (new_main.go:104) is inside the [for]
    loop of [checkCourseAvailability]: a deferred call runs when the
    function returns, not at the end of the iteration.  The watcher state
    counts the deferred closes not yet run ([w_open_bodies]); here it is
    proved that, for a watcher still running, that count is exactly the
    number of its ticks that read a page, so it grows without bound for
    as long as the subscription lives. *)

From S2P Require Import Prelude Strconv Seats Notify Watcher Registry Exec.
From Stdlib Require Import ZArith Lia Ascii.

Module Leak.
Import Seats Watcher Registry Exec.
Local Open Scope nubanner_scope.

(** A page showing no free seat: the watcher keeps polling. *)
Definition page0 : string := seats_prefix +:+ "0" +:+ seats_suffix.

Definition two_polls : list event :=
  started_run ++ [EvTick 0 (FetchBody page0) None; EvTick 0 (FetchBody page0) None].

(** The ticks that read a response body. *)
Definition is_body (f : fetch_outcome) : bool :=
  match f with FetchBody _ => true | _ => false end.

Definition body_tick (i : nat) (l : event) : bool :=
  match l with EvTick j f _ => Nat.eqb i j && is_body f | _ => false end.

(** The deferred closes of watcher [i], [0] before it is spawned. *)
Definition open_at (w : world) (i : nat) : nat :=
  from_option w_open_bodies 0%nat (watchers w !! i).

(** Watcher [i] is running, or not yet spawned. *)
Definition running_or_absent (w : world) (i : nat) : Prop :=
  forall a, watchers w !! i = Some a -> w_pc a = WSelect.

Lemma after_tick_live a f :
  w_pc (fst (after_tick a f)) = WSelect ->
  w_open_bodies (fst (after_tick a f)) = (w_open_bodies a + if is_body f then 1 else 0)%nat.
Proof.
  unfold after_tick, tick. destruct f as [| | |body]; simpl; try done.
  destruct (parseAvailableSeats body) as [? []]; done.
Qed.

Lemma open_at_set_watcher w j b i :
  i <> j -> open_at (set_watcher w j b) i = open_at w i.
Proof. intros Hne. unfold open_at; simpl. by rewrite list_lookup_insert_ne. Qed.

Lemma running_set_watcher w j b i :
  i <> j -> running_or_absent (set_watcher w j b) i -> running_or_absent w i.
Proof.
  intros Hne H a Ha. apply H. simpl. by rewrite list_lookup_insert_ne.
Qed.

Local Ltac same_watchers :=
  unfold open_at, running_or_absent in *; simpl in *; rewrite Nat.add_0_r; auto.

(** One step: the count of watcher [i] grows by one exactly on its page
    ticks, as long as it has not returned. *)
Lemma open_at_step w l w1 i :
  step w l w1 -> running_or_absent w1 i ->
  open_at w1 i = (open_at w i + if body_tick i l then 1 else 0)%nat /\ running_or_absent w i.
Proof.
  intros Hs Hr. inversion Hs; subst; simpl body_tick; try by same_watchers.
  - (* go: the watcher list grows by the new goroutine *)
    rewrite Nat.add_0_r. unfold open_at, running_or_absent in *; simpl in *.
    destruct (watchers w !! i) as [a|] eqn:Ha.
    + split; [by rewrite (lookup_app_l_Some _ _ _ _ Ha)|].
      intros a' [= <-]. apply Hr, lookup_app_l_Some, Ha.
    + apply lookup_ge_None in Ha.
      destruct (decide (i = length (watchers w))) as [->|].
      * by rewrite lookup_app_r, Nat.sub_diag by lia.
      * rewrite lookup_app_r by lia. rewrite lookup_cons_ne_0 by lia.
        rewrite lookup_nil. split; [done | by intros ? ?].
  - (* cancel: watcher [i0] returns *)
    rewrite Nat.add_0_r. destruct (decide (i = i0)) as [->|Hne].
    + exfalso. assert (i0 < length (watchers w)) by (by eapply lookup_lt_Some).
      assert (w_pc (after_stop a) = WSelect)
        by (apply Hr; simpl; by rewrite list_lookup_insert_eq). done.
    + unfold open_at, running_or_absent in *; simpl in *.
      setoid_rewrite list_lookup_insert_ne in Hr; [|done]. by rewrite list_lookup_insert_ne.
  - (* tick of watcher [i0] *)
    destruct (decide (i = i0)) as [->|Hne].
    + assert (i0 < length (watchers w)) by (by eapply lookup_lt_Some).
      assert (Hl : w_pc (fst (after_tick a f)) = WSelect)
        by (apply Hr; simpl; by rewrite list_lookup_insert_eq).
      unfold open_at; simpl. rewrite list_lookup_insert_eq by done. rewrite H.
      rewrite Nat.eqb_refl. simpl. split; [by apply after_tick_live|].
      intros a' Ha'. congruence.
    + rewrite (proj2 (Nat.eqb_neq _ _) Hne), Nat.add_0_r.
      split; [by apply open_at_set_watcher | by eapply running_set_watcher].
  - (* receive on a closed channel: watcher [i0] returns *)
    rewrite Nat.add_0_r. destruct (decide (i = i0)) as [->|Hne].
    + exfalso. assert (i0 < length (watchers w)) by (by eapply lookup_lt_Some).
      assert (w_pc (after_stop a) = WSelect)
        by (apply Hr; simpl; by rewrite list_lookup_insert_eq). done.
    + split; [by apply open_at_set_watcher | by eapply running_set_watcher].
Qed.

Lemma open_at_lstar w tr w' i :
  w ⟶[ tr ]* w' -> running_or_absent w' i ->
  open_at w' i = (open_at w i + cnt (body_tick i) tr)%nat /\ running_or_absent w i.
Proof.
  induction 1 as [|w l w1 tr w2 Hs _ IH]; intros Hr; [simpl; split; [lia | done]|].
  destruct (IH Hr) as [Hc Hr1]. destruct (open_at_step _ _ _ _ Hs Hr1) as [Hc1 Hr0].
  split; [|done]. rewrite Hc, Hc1. simpl. destruct (body_tick i l); simpl; lia.
Qed.

(** C12: Response bodies leak: in every run from the initial state, a
    watcher that is still running holds exactly as many unclosed response
    bodies as it has read pages; none is closed before the goroutine
    returns. *)
Theorem open_bodies_leak tr w i a :
  init ⟶[ tr ]* w -> watchers w !! i = Some a -> w_pc a = WSelect ->
  w_open_bodies a = cnt (body_tick i) tr.
Proof.
  intros Hrun Ha Hl.
  assert (Hr : running_or_absent w i) by (intros a' Ha'; congruence).
  destruct (open_at_lstar _ _ _ _ Hrun Hr) as [Hc _].
  unfold open_at in Hc. rewrite Ha in Hc. simpl in Hc. done.
Qed.

Lemma open_bodies_leak_witness :
  init ⟶[ two_polls ]* (state_after two_polls) /\
  watchers (state_after two_polls) !! 0 = Some (mkWatcher alice crn 0 WSelect 2) /\
  w_pc (mkWatcher alice crn 0 WSelect 2) = WSelect /\
  w_open_bodies (mkWatcher alice crn 0 WSelect 2) = cnt (body_tick 0) two_polls.
Proof.
  assert (Hrun : init ⟶[ two_polls ]* (state_after two_polls))
    by (apply run_lstar; vm_compute; reflexivity).
  assert (Ha : watchers (state_after two_polls) !! 0 = Some (mkWatcher alice crn 0 WSelect 2))
    by (vm_compute; reflexivity).
  split; [done|]. split; [done|]. split; [reflexivity|].
  exact (open_bodies_leak _ _ 0 _ Hrun Ha eq_refl).
Defined.

End Leak.
