(* ===== verification/Timed.v ===== *)
(** * Timed: the 60-second ticker and the clock (new_main.go:80-81, 84-85)

    [Registry] lets a watcher tick whenever it waits in [select]; this
    file puts the real timing back and shows that nothing is lost.
    [checkCourseAvailability] starts with
    [ticker := time.NewTicker(60 * time.Second)] and
    [defer ticker.Stop()].  A Go ticker is a runtime timer and a channel
    [ticker.C] holding at most one value: every period the timer fires,
    puts a tick in [C] unless one is already waiting (the new one is then
    dropped), and rearms for one period later; [Stop] disarms it.  The
    case [<-ticker.C] of the [select] is ready only while a tick waits.

    [tworld] is a [world] with the clock [tw_now] (nanoseconds) and one
    [ticker] per watcher, by the watcher's index.  [tstep] has four
    rules: a registry step other than a tick, with the tickers brought in
    line with the watchers ([sync_tickers]: a spawned watcher creates its
    ticker, a watcher that returned has run its deferred [Stop]); a tick
    of watcher [i], which needs and takes the tick waiting in its [C];
    the firing of a ticker at its deadline; and time passing, never
    beyond the deadline of a running ticker.  [texec] computes the same
    steps.  The watcher's first statements are taken to run when it is
    spawned: a later start only shifts the phase of its ticker.

    Theorems: the invariant [tinv] (one ticker per watcher, stopped
    exactly when its watcher returned, deadlines within one period), the
    erasure of a timed run to a registry run, and the rate of polls. *)

From S2P Require Import Prelude Strconv Seats Notify Watcher Registry Invariant Exec Leak.
From Stdlib Require Import ZArith Lia Ascii.

Module Timed.
Import Watcher Registry Exec Leak.
Local Open Scope nubanner_scope.
Local Open Scope Z_scope.

(** ** Time and tickers *)

(** [time.Second], in nanoseconds (Go's [time.Duration]). *)
Definition second : Z := 1000000000.

(** [60 * time.Second], line 80. *)
Definition period : Z := 60 * second.

Record ticker := mkTicker {
  tk_start : Z;        (** when [time.NewTicker] ran *)
  tk_next : Z;         (** when the runtime timer fires next *)
  tk_pending : bool;   (** a tick waits in [ticker.C] (capacity 1) *)
  tk_stopped : bool    (** [ticker.Stop()] has run *)
}.

(** [time.NewTicker(60 * time.Second)] at time [now]. *)
Definition new_ticker (now : Z) : ticker := mkTicker now (now + period) false false.

(** The timer fires: a non-blocking send of a tick on [C] (dropped when
    one waits already), and the next deadline one period later. *)
Definition fire (tk : ticker) : ticker :=
  mkTicker (tk_start tk) (tk_next tk + period) true (tk_stopped tk).

(** [<-ticker.C] takes the waiting tick. *)
Definition recv (tk : ticker) : ticker :=
  mkTicker (tk_start tk) (tk_next tk) false (tk_stopped tk).

(** [ticker.Stop()], deferred at line 81. *)
Definition stop_ticker (tk : ticker) : ticker :=
  mkTicker (tk_start tk) (tk_next tk) (tk_pending tk) true.

Record tworld := mkTWorld {
  tw_world : world;
  tw_now : Z;              (** nanoseconds since the server started *)
  tw_tickers : list ticker (** the ticker of watcher [i] at index [i] *)
}.

Definition tinit : tworld := mkTWorld init 0 [].

(** The tickers after a registry step: a new watcher has created its
    ticker now; a watcher that returned has stopped its own. *)
Definition sync_tickers (ws : list watcher) (now : Z) (tks : list ticker) : list ticker :=
  imap (fun i a => let tk := default (new_ticker now) (tks !! i) in
                   if live a then tk else stop_ticker tk) ws.

Inductive tevent :=
| TEv (l : event)      (** a step of the program *)
| TFire (i : nat)      (** the timer of watcher [i]'s ticker fires *)
| TAdvance (d : Z).    (** [d] nanoseconds pass *)

Definition is_tick (l : event) : bool :=
  match l with EvTick _ _ _ => true | _ => false end.

Inductive tstep : tworld -> tevent -> tworld -> Prop :=
| tstep_world tw l w' :
    is_tick l = false ->
    step (tw_world tw) l w' ->
    tstep tw (TEv l) (mkTWorld w' (tw_now tw) (sync_tickers (watchers w') (tw_now tw) (tw_tickers tw)))
| tstep_tick tw i f m w' tk :
    step (tw_world tw) (EvTick i f m) w' ->
    tw_tickers tw !! i = Some tk -> tk_pending tk = true ->
    tstep tw (TEv (EvTick i f m))
      (mkTWorld w' (tw_now tw) (sync_tickers (watchers w') (tw_now tw) (<[i:=recv tk]> (tw_tickers tw))))
| tstep_fire tw i tk :
    tw_tickers tw !! i = Some tk -> tk_stopped tk = false -> tk_next tk = tw_now tw ->
    tstep tw (TFire i) (mkTWorld (tw_world tw) (tw_now tw) (<[i:=fire tk]> (tw_tickers tw)))
| tstep_advance tw d :
    0 < d ->
    (forall i tk, tw_tickers tw !! i = Some tk -> tk_stopped tk = false -> tw_now tw + d <= tk_next tk) ->
    tstep tw (TAdvance d) (mkTWorld (tw_world tw) (tw_now tw + d) (tw_tickers tw)).

Notation "tw ⟶t[ tr ]* tw'" := (lstar tstep tw tr tw')
  (at level 70, tr at level 200, format "tw  ⟶t[ tr ]*  tw'") : nubanner_scope.

(** The program's events of a timed run. *)
Definition tev_event (e : tevent) : option event :=
  match e with TEv l => Some l | _ => None end.

Definition erase (tr : list tevent) : list event := omap tev_event tr.

(** ** The same steps, computed *)

Definition texec (tw : tworld) (e : tevent) : option tworld :=
  match e with
  | TEv l =>
      match exec (tw_world tw) l with
      | None => None
      | Some w' =>
          match l with
          | EvTick i _ _ =>
              match tw_tickers tw !! i with
              | Some tk =>
                  if tk_pending tk then
                    Some (mkTWorld w' (tw_now tw)
                            (sync_tickers (watchers w') (tw_now tw) (<[i:=recv tk]> (tw_tickers tw))))
                  else None
              | None => None
              end
          | _ => Some (mkTWorld w' (tw_now tw) (sync_tickers (watchers w') (tw_now tw) (tw_tickers tw)))
          end
      end
  | TFire i =>
      match tw_tickers tw !! i with
      | Some tk =>
          if negb (tk_stopped tk) && Z.eqb (tk_next tk) (tw_now tw) then
            Some (mkTWorld (tw_world tw) (tw_now tw) (<[i:=fire tk]> (tw_tickers tw)))
          else None
      | None => None
      end
  | TAdvance d =>
      if Z.ltb 0 d && forallb (fun tk => tk_stopped tk || Z.leb (tw_now tw + d) (tk_next tk)) (tw_tickers tw)
      then Some (mkTWorld (tw_world tw) (tw_now tw + d) (tw_tickers tw))
      else None
  end.

Fixpoint trun (tw : tworld) (tr : list tevent) : option tworld :=
  match tr with
  | [] => Some tw
  | e :: tr' => match texec tw e with Some tw' => trun tw' tr' | None => None end
  end.

Definition tstate_after (tr : list tevent) : tworld :=
  match trun tinit tr with Some tw => tw | None => tinit end.

(** Alice subscribes; a minute later her ticker fires and she polls a
    page with no free seat; a minute later it fires again. *)
Definition timed_polls : list tevent :=
  map TEv started_run ++
  [TAdvance period; TFire 0; TEv (EvTick 0 (FetchBody page0) None);
   TAdvance period; TFire 0].

(** ** How a registry step changes the watchers *)

Local Ltac replaced_running :=
  right; do 3 eexists; split; [eassumption|]; split; [|reflexivity];
  unfold live; match goal with H : w_pc _ = WSelect |- _ => by rewrite H end.

(** A step appends running watchers, or replaces a running one. *)
Lemma step_watchers w l w' :
  step w l w' ->
  (exists ws, watchers w' = watchers w ++ ws /\ Forall (fun a => live a = true) ws) \/
  (exists i a a', watchers w !! i = Some a /\ live a = true /\ watchers w' = <[i:=a']> (watchers w)).
Proof.
  intros Hs. inversion Hs; subst; simpl;
    try (left; exists []; rewrite app_nil_r; by split);
    try (left; eexists; split; [reflexivity | apply Forall_singleton; reflexivity]);
    replaced_running.
Qed.

Lemma step_watchers_len w l w' i a :
  step w l w' -> watchers w !! i = Some a -> exists a', watchers w' !! i = Some a'.
Proof.
  intros Hs Ha. destruct (step_watchers _ _ _ Hs) as [(ws & Hw & _)|(j & b & b' & Hb & _ & Hw)];
    rewrite Hw.
  - exists a. by apply lookup_app_l_Some.
  - destruct (decide (i = j)) as [->|].
    + exists b'. apply list_lookup_insert_eq. by eapply lookup_lt_Some.
    + exists a. by rewrite list_lookup_insert_ne.
Qed.

(** A watcher that returned stays returned. *)
Lemma step_no_revive w l w' i a a' :
  step w l w' -> watchers w !! i = Some a -> watchers w' !! i = Some a' ->
  live a' = true -> live a = true.
Proof.
  intros Hs Ha Ha'. destruct (step_watchers _ _ _ Hs) as [(ws & Hw & _)|(j & b & b' & Hb & Hl & Hw)];
    rewrite Hw in Ha'.
  - rewrite (lookup_app_l_Some _ _ _ _ Ha) in Ha'. congruence.
  - destruct (decide (i = j)) as [->|]; [congruence|].
    rewrite list_lookup_insert_ne in Ha' by done. congruence.
Qed.

(** ** The invariant of timed states *)

Record tinv_of (w : world) (now : Z) (tks : list ticker) : Prop := {
  ti_len : length tks = length (watchers w);
  ti_stopped : forall i a tk, watchers w !! i = Some a -> tks !! i = Some tk ->
               tk_stopped tk = negb (live a);
  ti_next : forall i tk, tks !! i = Some tk -> tk_next tk <= now + period;
  ti_now : forall i tk, tks !! i = Some tk -> tk_stopped tk = false -> now <= tk_next tk
}.

Definition tinv (tw : tworld) : Prop := tinv_of (tw_world tw) (tw_now tw) (tw_tickers tw).

Lemma sync_lookup_Some ws now tks i tk' :
  sync_tickers ws now tks !! i = Some tk' ->
  exists a', ws !! i = Some a' /\
    tk' = (if live a' then default (new_ticker now) (tks !! i)
           else stop_ticker (default (new_ticker now) (tks !! i))).
Proof.
  unfold sync_tickers. rewrite list_lookup_imap.
  destruct (ws !! i) as [a'|]; simpl; [|done]. intros [= <-]. by exists a'.
Qed.

(** The tickers of a watcher's slot before and after [sync_tickers]
    agree on everything but [Stop]. *)
Definition tk_clock (tk : ticker) : Z * Z * bool := (tk_start tk, tk_next tk, tk_pending tk).

Lemma sync_clock ws now tks i tk' :
  sync_tickers ws now tks !! i = Some tk' ->
  tk_clock tk' = tk_clock (default (new_ticker now) (tks !! i)).
Proof. intros (a' & _ & ->)%sync_lookup_Some. by destruct (live a'). Qed.

Lemma sync_none ws now tks i :
  (length tks <= length ws)%nat -> sync_tickers ws now tks !! i = None -> tks !! i = None.
Proof.
  intros Hl. unfold sync_tickers. rewrite list_lookup_imap, fmap_None, !lookup_ge_None. lia.
Qed.

Lemma tinv_sync w l w' now tks :
  tinv_of w now tks -> step w l w' -> tinv_of w' now (sync_tickers (watchers w') now tks).
Proof.
  intros [Hlen Hst Hnx Hnw] Hs. split.
  - unfold sync_tickers. by rewrite length_imap.
  - intros i a' tk' Ha' (b & Hb & ->)%sync_lookup_Some. rewrite Ha' in Hb. injection Hb as <-.
    destruct (tks !! i) as [tk|] eqn:Ht; simpl; [|by destruct (live a')].
    destruct (lookup_lt_is_Some_2 (watchers w) i) as [a Ha];
      [rewrite <- Hlen; by eapply lookup_lt_Some|].
    destruct (live a') eqn:Hl'; [|done]. rewrite (Hst _ _ _ Ha Ht).
    by rewrite (step_no_revive _ _ _ _ _ _ Hs Ha Ha' Hl').
  - intros i tk' (b & _ & ->)%sync_lookup_Some.
    destruct (tks !! i) as [tk|] eqn:Ht; simpl;
      [destruct (live b); simpl; by eapply Hnx | destruct (live b); simpl; lia].
  - intros i tk' (b & _ & ->)%sync_lookup_Some.
    destruct (tks !! i) as [tk|] eqn:Ht; simpl;
      [destruct (live b); simpl; [by eapply Hnw | done] | destruct (live b); simpl; [|done]].
    unfold period, second. lia.
Qed.

Lemma tinv_insert w now tks i tk tk' :
  tinv_of w now tks -> tks !! i = Some tk -> tk_stopped tk' = tk_stopped tk ->
  tk_next tk' <= now + period -> (tk_stopped tk' = false -> now <= tk_next tk') ->
  tinv_of w now (<[i:=tk']> tks).
Proof.
  intros [Hlen Hst Hnx Hnw] Ht Hs Hn1 Hn2. split.
  - by rewrite length_insert.
  - intros j a tk0 Ha Hj. list_lookup_cases; [rewrite Hs|]; by eapply Hst.
  - intros j tk0 Hj. list_lookup_cases; [done|]. by eapply Hnx.
  - intros j tk0 Hj. list_lookup_cases; [done|]. by eapply Hnw.
Qed.

Lemma tinv_tstep : stable tstep tinv.
Proof.
  intros tw e tw' Hi Hs.
  inversion Hs as [? l w' _ Hs'|? i f m w' tk Hs' Ht _|? i tk Ht Hst Hnx|? d Hd Hadv]; subst;
    unfold tinv in *; simpl.
  - by eapply tinv_sync.
  - eapply tinv_sync; [|exact Hs']. eapply tinv_insert; [exact Hi|exact Ht|done|..];
      simpl; [by eapply ti_next | by eapply ti_now].
  - eapply tinv_insert; [exact Hi|exact Ht|done|..]; simpl; unfold period, second; lia.
  - destruct Hi as [Hlen Hst Hnx Hnw]. split; [done|done| |].
    + intros i tk Ht. specialize (Hnx i tk Ht). lia.
    + intros i tk Ht Hstop. by apply Hadv with i.
Qed.

Lemma tinv_init : tinv tinit.
Proof. split; simpl; try done; intros ??; rewrite lookup_nil; done. Qed.

Lemma tinv_lstar tr tw : tinit ⟶t[ tr ]* tw -> tinv tw.
Proof. intros H. eapply lstar_stable; [apply tinv_tstep | exact H | apply tinv_init]. Qed.

(** ** [texec] is [tstep] *)

Lemma texec_sound tw e tw' : texec tw e = Some tw' -> tstep tw e tw'.
Proof.
  destruct e as [l|i|d]; simpl.
  - destruct (exec (tw_world tw) l) as [w'|] eqn:E; [|done].
    apply exec_sound in E.
    destruct l as [| |i f m| | |]; try (intros [= <-]; by constructor).
    destruct (tw_tickers tw !! i) as [tk|] eqn:Ht; [|done].
    destruct (tk_pending tk) eqn:Hp; [|done]. intros [= <-]. by econstructor.
  - destruct (tw_tickers tw !! i) as [tk|] eqn:Ht; [|done].
    destruct (negb (tk_stopped tk) && Z.eqb (tk_next tk) (tw_now tw)) eqn:Hc; [|done].
    apply andb_true_iff in Hc as [Hs%negb_true_iff Hn%Z.eqb_eq]. intros [= <-]. by econstructor.
  - destruct (Z.ltb 0 d && forallb _ _) eqn:Hc; [|done].
    apply andb_true_iff in Hc as [Hd%Z.ltb_lt Hall]. rewrite forallb_forall in Hall.
    intros [= <-]. constructor; [done|]. intros i tk Ht Hs.
    specialize (Hall tk (proj1 (list_elem_of_In _ _) (list_elem_of_lookup_2 _ _ _ Ht))).
    rewrite Hs in Hall. by apply Z.leb_le.
Qed.

Lemma trun_lstar tw tr tw' : trun tw tr = Some tw' -> tw ⟶t[ tr ]* tw'.
Proof.
  revert tw. induction tr as [|e tr IH]; simpl; intros tw H; [injection H as ->; constructor|].
  destruct (texec tw e) as [tw1|] eqn:E; [|done]. econstructor; [by apply texec_sound | by apply IH].
Qed.

(** ** Erasing the clock *)

Lemma erase_cons_ev l tr : erase (TEv l :: tr) = l :: erase tr.
Proof. done. Qed.

Lemma tstep_erase tw e tw' :
  tstep tw e tw' -> match tev_event e with
                    | Some l => step (tw_world tw) l (tw_world tw')
                    | None => tw_world tw' = tw_world tw
                    end.
Proof. by destruct 1. Qed.

(** A timed run is a registry run once the clock is erased. *)
Lemma timed_erase tw tr tw' : tw ⟶t[ tr ]* tw' -> tw_world tw ⟶[ erase tr ]* tw_world tw'.
Proof.
  induction 1 as [|tw e tw1 tr tw2 Hs _ IH]; [constructor|].
  pose proof (tstep_erase _ _ _ Hs) as He. unfold erase. simpl. fold (erase tr).
  destruct (tev_event e); [by econstructor | by rewrite <- He].
Qed.

(** ** The rate of polls *)

(** A poll of watcher [i]: one run of the ticker branch, lines 85-120. *)
Definition is_poll (i : nat) (l : event) : bool :=
  match l with EvTick j _ _ => Nat.eqb i j | _ => false end.

(** [c] polls so far, against the slot of watcher [i]: every poll and
    the waiting tick each used one firing, one period apart from the
    creation of the ticker. *)
Definition rate_at (c : nat) (otk : option ticker) : Prop :=
  match otk with
  | Some tk => (Z.of_nat c + (if tk_pending tk then 1 else 0) + 1) * period <= tk_next tk - tk_start tk
  | None => c = 0%nat
  end.

Definition rate_ok (i : nat) (tr : list tevent) (tw : tworld) : Prop :=
  rate_at (cnt (is_poll i) (erase tr)) (tw_tickers tw !! i).

Lemma step_len_le w l w' : step w l w' -> (length (watchers w) <= length (watchers w'))%nat.
Proof.
  intros Hs. destruct (step_watchers _ _ _ Hs) as [(ws & -> & _)|(j & b & b' & _ & _ & ->)].
  - rewrite length_app. lia.
  - rewrite length_insert. lia.
Qed.

Lemma rate_sync c ws now tks i :
  (length tks <= length ws)%nat -> rate_at c (tks !! i) -> rate_at c (sync_tickers ws now tks !! i).
Proof.
  intros Hl Hr. destruct (sync_tickers ws now tks !! i) as [tk'|] eqn:E.
  - pose proof (sync_clock _ _ _ _ _ E) as Hc. unfold tk_clock in Hc. simpl.
    destruct (tks !! i) as [tk|]; simpl in *; injection Hc as -> -> ->; [done|].
    subst c. unfold period, second. lia.
  - by rewrite (sync_none _ _ _ _ Hl E) in Hr.
Qed.

Lemma erase_snoc tr e : erase (tr ++ [e]) = erase tr ++ default [] (option_map (fun l => [l]) (tev_event e)).
Proof. unfold erase. rewrite omap_app. by destruct e. Qed.

Lemma rate_step i tr tw e tw' :
  tinv tw -> rate_ok i tr tw -> tstep tw e tw' -> rate_ok i (tr ++ [e]) tw'.
Proof.
  unfold rate_ok. intros [Hlen _ _ _] Hr Hs. rewrite erase_snoc, cnt_app.
  inversion Hs as [? l w' Hl Hw|? j f m w' tk Hw Ht Hp|? j tk Ht _ _|? d _ _]; subst; simpl.
  - apply rate_sync; [rewrite Hlen; by eapply step_len_le|].
    destruct l; simpl in *; try done; rewrite Nat.add_0_r; done.
  - apply rate_sync; [rewrite length_insert, Hlen; by eapply step_len_le|].
    destruct (Nat.eqb_spec i j) as [->|Hne].
    + rewrite list_lookup_insert_eq by (by eapply lookup_lt_Some).
      rewrite Ht in Hr. simpl in *. rewrite Hp in Hr. lia.
    + rewrite list_lookup_insert_ne by done. by rewrite Nat.add_0_r.
  - rewrite Nat.add_0_r. destruct (decide (i = j)) as [->|Hne].
    + rewrite list_lookup_insert_eq by (by eapply lookup_lt_Some). rewrite Ht in Hr. simpl in *.
      destruct (tk_pending tk); unfold period, second in *; lia.
    + by rewrite list_lookup_insert_ne.
  - by rewrite Nat.add_0_r.
Qed.

Lemma rate_lstar i tr tw : tinit ⟶t[ tr ]* tw -> rate_ok i tr tw.
Proof.
  revert tr tw. apply lstar_ind_snoc.
  - unfold rate_ok, rate_at. simpl. by destruct i.
  - intros tr tw e tw' Hrun Hr Hs. eapply rate_step; [by eapply tinv_lstar|done|done].
Qed.

(** ** Properties *)

(** C13: Rate of polls: in every timed run, watcher [i] has run the
    ticker branch at most once per 60 seconds since its ticker was
    created: [polls * 60 s <= now - start].  In particular no poll
    happens in the first minute of a subscription. *)
Theorem poll_rate tr tw i tk :
  tinit ⟶t[ tr ]* tw -> tw_tickers tw !! i = Some tk ->
  Z.of_nat (cnt (is_poll i) (erase tr)) * period <= tw_now tw - tk_start tk.
Proof.
  intros Hrun Ht. pose proof (rate_lstar i _ _ Hrun) as Hr. unfold rate_ok in Hr. rewrite Ht in Hr.
  pose proof (ti_next _ _ _ (tinv_lstar _ _ Hrun) i tk Ht). simpl in Hr.
  destruct (tk_pending tk); unfold period, second in *; lia.
Qed.

Lemma poll_rate_witness :
  let tw := tstate_after timed_polls in
  tinit ⟶t[ timed_polls ]* tw /\ tw_tickers tw !! 0%nat = Some (mkTicker 0 (3 * period) true false) /\
  Z.of_nat (cnt (is_poll 0) (erase timed_polls)) * period <= tw_now tw - 0.
Proof.
  intros tw.
  assert (Hrun : tinit ⟶t[ timed_polls ]* tw) by (apply trun_lstar; vm_compute; reflexivity).
  assert (Ht : tw_tickers tw !! 0%nat = Some (mkTicker 0 (3 * period) true false))
    by (vm_compute; reflexivity).
  split; [done|]. split; [done|]. exact (poll_rate _ _ 0 _ Hrun Ht).
Defined.

End Timed.
