(* ===== verification/Adequacy.v ===== *)
(** * Adequacy: every run of the untimed model happens with the real ticker

    [Registry] abstracts the 60-second ticker: a watcher waiting in
    [select] may tick at any moment.  [Timed] adds the clock and the
    tickers.  Here the two are shown to have the same runs: erasing the
    clock from a timed run gives a registry run ([Timed.timed_erase]),
    and every registry run is the erasure of a timed run.  For the
    second, before each tick of watcher [i] the clock is run forward, one
    nanosecond at a time, firing every ticker whose deadline comes,
    until [i]'s ticker has a tick waiting ([clock_pending]); the measure
    is the time left to [i]'s deadline, weighted by the number of
    tickers, plus the number of tickers due now.

    So every behaviour proved possible in the untimed model (the zombie
    entry, the deadlocked Stop, the notification overtaking a Stop) is
    possible with the real 60-second timing, and every property of all
    untimed runs holds of all timed runs. *)

From S2P Require Import Prelude Strconv Seats Notify Watcher Registry Invariant Exec Leak Timed.
From Stdlib Require Import ZArith Lia Ascii.

Module Adequacy.
Import Watcher Registry Exec Timed.
Local Open Scope nubanner_scope.
Local Open Scope Z_scope.

(** A running ticker whose deadline is now. *)
Definition due (now : Z) (tk : ticker) : bool := negb (tk_stopped tk) && Z.eqb (tk_next tk) now.

(** ** Running the clock *)

Lemma fire_not_due now tk : tk_next tk = now -> due now (fire tk) = false.
Proof.
  intros Hn. unfold due, fire. simpl. destruct (negb _); [|done].
  apply Z.eqb_neq. unfold period, second. lia.
Qed.

Lemma tinv_step1 tw e tw' : tinv tw -> tstep tw e tw' -> tinv tw'.
Proof. intros Hi Hs. exact (tinv_tstep tw e tw' Hi Hs). Qed.

(** From a timed state, clock steps alone bring a tick into the [C] of a
    running ticker. *)
Lemma clock_pending (n : nat) :
  forall tw i tk,
  tinv tw -> tw_tickers tw !! i = Some tk -> tk_stopped tk = false ->
  (Z.to_nat (tk_next tk - tw_now tw) * S (length (tw_tickers tw)) +
   cnt (due (tw_now tw)) (tw_tickers tw) < n)%nat ->
  exists ctr tw', tw ⟶t[ ctr ]* tw' /\ erase ctr = [] /\ tw_world tw' = tw_world tw /\
                  exists tk', tw_tickers tw' !! i = Some tk' /\ tk_pending tk' = true.
Proof.
  induction n as [|n IH]; intros tw i tk Hi Ht Hs Hm; [by apply Nat.nlt_0_r in Hm|].
  destruct (tk_pending tk) eqn:Hp; [exists [], tw; repeat split; eauto using lstar|].
  destruct (cnt (due (tw_now tw)) (tw_tickers tw)) as [|c] eqn:Hc.
  - (* nothing is due: one nanosecond passes *)
    pose proof (proj1 (cnt_zero _ _) Hc) as Hnd.
    assert (Hadv : forall j tj, tw_tickers tw !! j = Some tj -> tk_stopped tj = false ->
                   tw_now tw + 1 <= tk_next tj).
    { intros j tj Hj Hsj. pose proof (ti_now _ _ _ Hi j tj Hj Hsj). specialize (Hnd j tj Hj).
      unfold due in Hnd. rewrite Hsj in Hnd. simpl in Hnd. apply Z.eqb_neq in Hnd. lia. }
    pose proof (tstep_advance tw 1 ltac:(lia) Hadv) as S1.
    set (tw1 := mkTWorld _ _ _) in S1.
    destruct (IH tw1 i tk) as (ctr & tw' & Hrun & He & Hw & Hpend); try done.
    + exact (tinv_step1 _ _ _ Hi S1).
    + simpl. pose proof (cnt_le_length (due (tw_now tw + 1)) (tw_tickers tw)).
      pose proof (Hadv i tk Ht Hs).
      replace (Z.to_nat (tk_next tk - tw_now tw)) with (S (Z.to_nat (tk_next tk - (tw_now tw + 1)))) in Hm
        by lia.
      simpl in Hm. nia.
    + exists (TAdvance 1 :: ctr), tw'. split; [by econstructor|]. done.
  - (* a ticker is due: it fires *)
    destruct (cnt_lookup (due (tw_now tw)) (tw_tickers tw) ltac:(lia)) as (j & tj & Hj & Hdj).
    unfold due in Hdj. apply andb_true_iff in Hdj as [Hsj%negb_true_iff Hnj%Z.eqb_eq].
    pose proof (tstep_fire tw j tj Hj Hsj Hnj) as S1.
    set (tw1 := mkTWorld _ _ _) in S1.
    destruct (decide (j = i)) as [->|Hne].
    + exists [TFire i], tw1. split; [by apply lstar_one|]. split; [done|]. split; [done|].
      exists (fire tj). split; [|done]. simpl. apply list_lookup_insert_eq. by eapply lookup_lt_Some.
    + destruct (IH tw1 i tk) as (ctr & tw' & Hrun & He & Hw & Hpend); try done.
      * exact (tinv_step1 _ _ _ Hi S1).
      * simpl. by rewrite list_lookup_insert_ne.
      * simpl. rewrite length_insert.
        pose proof (cnt_insert (due (tw_now tw)) (tw_tickers tw) j tj (fire tj) Hj) as Hci.
        rewrite fire_not_due in Hci by done. unfold due in Hci at 2. rewrite Hsj, Hnj, Z.eqb_refl in Hci.
        simpl in Hci. lia.
      * exists (TFire j :: ctr), tw'. split; [by econstructor|]. done.
Qed.

(** Every timed state lets a waiting watcher tick: the clock brings a
    tick into its [C]. *)
Lemma timed_tick tw i f m w' :
  tinv tw -> step (tw_world tw) (EvTick i f m) w' ->
  exists ctr tw', tw ⟶t[ ctr ++ [TEv (EvTick i f m)] ]* tw' /\ erase ctr = [] /\ tw_world tw' = w'.
Proof.
  intros Hi Hs. inversion Hs as [| | | | | | | | | | | | | | | | |? ? a ? Ha Hp|]; subst.
  destruct (lookup_lt_is_Some_2 (tw_tickers tw) i) as [tk Ht];
    [rewrite (ti_len _ _ _ Hi); by eapply lookup_lt_Some|].
  assert (Hst : tk_stopped tk = false) by (rewrite (ti_stopped _ _ _ Hi i a tk Ha Ht); unfold live; by rewrite Hp).
  destruct (clock_pending _ tw i tk Hi Ht Hst (Nat.lt_succ_diag_r _))
    as (ctr & tw1 & Hrun & He & Hw & tk' & Ht' & Hp').
  eexists ctr, _. split.
  - eapply lstar_snoc; [exact Hrun|]. eapply tstep_tick; [rewrite Hw; exact Hs | exact Ht' | exact Hp'].
  - split; [done|reflexivity].
Qed.

Lemma untimed_timed tr w :
  init ⟶[ tr ]* w -> exists ttr tw, tinit ⟶t[ ttr ]* tw /\ erase ttr = tr /\ tw_world tw = w.
Proof.
  revert tr w. apply lstar_ind_snoc; [by exists [], tinit; repeat constructor|].
  intros tr w l w' _ (ttr & tw & Hrun & He & <-) Hs.
  pose proof (tinv_lstar _ _ Hrun) as Hi.
  destruct (is_tick l) eqn:Hl.
  - destruct l as [| |i f m| | |]; try done.
    destruct (timed_tick tw i f m w' Hi Hs) as (ctr & tw' & Hrun' & Hce & Hw).
    exists (ttr ++ ctr ++ [TEv (EvTick i f m)]), tw'. split; [by eapply lstar_app|].
    split; [|done]. unfold erase in *. by rewrite !omap_app, Hce, He.
  - eexists (ttr ++ [TEv l]), _. split; [eapply lstar_snoc; [exact Hrun | by apply tstep_world]|].
    split; [by rewrite erase_snoc, He | reflexivity].
Qed.

(** ** Properties *)

(** C5: The abstraction of time is exact: a schedule is a run of the
    untimed model exactly when it is the schedule of a run with the
    clock and the 60-second tickers (the tick of a watcher taking the
    tick its ticker put in [C], the clock never passing a running
    ticker's deadline). *)
Theorem timing_adequate tr w :
  init ⟶[ tr ]* w <-> exists ttr tw, tinit ⟶t[ ttr ]* tw /\ erase ttr = tr /\ tw_world tw = w.
Proof.
  split; [apply untimed_timed|]. intros (ttr & tw & Hrun & <- & <-). exact (timed_erase _ _ _ Hrun).
Qed.

(** The zombie scenario happens with the real timing. *)
Lemma timing_adequate_witness :
  init ⟶[ zombie_run ]* (state_after zombie_run) /\
  exists ttr tw, tinit ⟶t[ ttr ]* tw /\ erase ttr = zombie_run /\ tw_world tw = state_after zombie_run.
Proof.
  assert (H : init ⟶[ zombie_run ]* (state_after zombie_run)) by (apply run_lstar; vm_compute; reflexivity).
  split; [exact H | exact (proj1 (timing_adequate _ _) H)].
Defined.

End Adequacy.
