(* ===== verification/Refinement.v ===== *)
(** * Refinement: the handlers implement the registry contract

    Spec section 4.1 describes the registry abstractly: a set of active
    keys, [Start k] answers [AlreadyActive] when [k] is in it and adds it
    otherwise, [Stop k] removes it or answers [NotFound].  [spec_op] is
    that contract on a [gset].  The concrete handlers are not atomic;
    each validated request takes effect at one step of its handler, its
    linearization point, taken under [subscriptionsMux]: the branch of
    line 44 (insert, or refuse) for a Start, the branch of line 66 for an
    unknown Stop, and [close]/[delete] (lines 68-69) for a known one.
    [lin] reads the point and its result off the branch the handler
    takes (its pc after the step), not off the map, and
    [registry_refines] shows that (1) replaying the linearization points
    of any run on the abstract registry from the empty set gives the
    concrete map's key set and the results the handlers chose, and (2)
    every answer a handler gives to a validated request (its [c.JSON],
    a step of its own) follows its linearization point and reports its
    result. *)

From S2P Require Import Prelude Strconv Seats Notify Watcher Registry Invariant Exec.
From Stdlib Require Import ZArith Lia Ascii.

Module Refinement.
Import Watcher Registry Invariant Exec.
Local Open Scope nubanner_scope.

(** ** The contract *)
Inductive aop :=
| AStart (key : string)
| AStop (key : string).

Inductive aresult := AStarted | AAlreadyActive | AStopped | ANotFound.

Definition spec_op (active : gset string) (op : aop) : gset string * aresult :=
  match op with
  | AStart k => if decide (k ∈ active) then (active, AAlreadyActive) else ({[k]} ∪ active, AStarted)
  | AStop k => if decide (k ∈ active) then (active ∖ {[k]}, AStopped) else (active, ANotFound)
  end.

Fixpoint spec_run (active : gset string) (ops : list aop) : gset string * list aresult :=
  match ops with
  | [] => (active, [])
  | op :: ops' =>
      let '(active1, r) := spec_op active op in
      let '(active2, rs) := spec_run active1 ops' in
      (active2, r :: rs)
  end.

(** The abstract operation of a request, and the answer that reports a
    result of the contract. *)
Definition aop_of (r : request) : aop :=
  match r with
  | ReqStart e _ => AStart e
  | ReqStop e => AStop e
  end.

Definition aop_key (op : aop) : string :=
  match op with AStart k | AStop k => k end.

Definition resp_of (op : aop) (res : aresult) : response :=
  match res with
  | AStarted => RespStarted (aop_key op)
  | AAlreadyActive => RespAlreadyRunning
  | AStopped => RespStopped (aop_key op)
  | ANotFound => RespNotFound
  end.

(** The operations and the results of a list of linearization points. *)
Definition lin_ops (ls : list (nat * (aop * aresult))) : list aop := map (fun x => fst (snd x)) ls.
Definition lin_results (ls : list (nat * (aop * aresult))) : list aresult :=
  map (fun x => snd (snd x)) ls.

(** ** Linearization points *)

(** The step [w -[l]-> w'] is a linearization point of handler [t] when
    [t] leaves its critical section's decision point; the branch it
    takes is the result. *)
Definition lin (w : world) (l : event) (w' : world) : option (nat * (aop * aresult)) :=
  match l with
  | EvTau t =>
      match handlers w !! t, handlers w' !! t with
      | Some (HStartCrit e _), Some (HStartGo _ _ _) => Some (t, (AStart e, AStarted))
      | Some (HStartCrit e _), Some (HAnswer _ _) => Some (t, (AStart e, AAlreadyActive))
      | Some (HStopCrit e), Some (HAnswer _ _) => Some (t, (AStop e, ANotFound))
      | Some (HStopClose e _), Some (HAnswer _ _) => Some (t, (AStop e, AStopped))
      | _, _ => None
      end
  | _ => None
  end.

(** The linearization points of a schedule, in order, with their handler. *)
Fixpoint lin_run (w : world) (tr : list event) : list (nat * (aop * aresult)) :=
  match tr with
  | [] => []
  | l :: tr' =>
      match exec w l with
      | Some w1 => option_list (lin w l w1) ++ lin_run w1 tr'
      | None => []
      end
  end.

(** Spec section 8's round trip: Alice subscribes, stops, and stops again. *)
Definition round_trip : list event :=
  stop_run ++
  [EvTau 1; EvRespond 1 (ReqStop alice) (RespStopped alice);
   EvRequest (ReqStop alice); EvTau 2; EvTau 2; EvTau 2;
   EvRespond 2 (ReqStop alice) RespNotFound].

(** ** Simulation *)

Local Ltac lin_compute :=
  unfold lin, set_handler, set_locked, after_insert, after_go, after_close; simpl;
  repeat match goal with
  | H : handlers ?w !! ?t = Some _ |- context [<[?t:=_]> (handlers ?w) !! ?t] =>
      rewrite list_lookup_insert_eq by (eapply lookup_lt_Some; exact H)
  | H : handlers ?w !! ?t = Some _ |- context [handlers ?w !! ?t] => rewrite H
  end; simpl.

(** Every step is a linearization point that does what the contract
    says, or leaves the key set alone. *)
Lemma lin_step w l w' :
  inv w -> step w l w' ->
  match lin w l w' with
  | Some (_, (op, r)) => spec_op (dom (subscriptions w)) op = (dom (subscriptions w'), r)
  | None => dom (subscriptions w') = dom (subscriptions w)
  end.
Proof.
  intros Hi Hs. inversion Hs; subst; lin_compute; try done.
  - (* refused Start *)
    case_decide as Hd; [done|]. by destruct Hd; eapply elem_of_dom_2.
  - (* the insert *)
    case_decide as Hd; [by apply elem_of_dom in Hd as [? ?]; congruence|].
    by rewrite dom_insert_L.
  - (* unknown Stop *)
    case_decide as Hd; [by apply elem_of_dom in Hd as [? ?]; congruence | done].
  - (* close and delete *)
    destruct (inv_close _ Hi _ _ _ H) as (Hsub & _).
    case_decide as Hd; [by rewrite dom_delete_L|]. by destruct Hd; eapply elem_of_dom_2.
Qed.

Lemma lin_run_app w tr w1 tr' :
  w ⟶[ tr ]* w1 -> lin_run w (tr ++ tr') = lin_run w tr ++ lin_run w1 tr'.
Proof.
  induction 1 as [|w l w0 tr w1 Hs _ IH]; [done|]. simpl.
  rewrite (exec_complete _ _ _ Hs), IH. by rewrite app_assoc.
Qed.

Lemma lin_run_snoc w tr w1 l w2 :
  w ⟶[ tr ]* w1 -> step w1 l w2 ->
  lin_run w (tr ++ [l]) = lin_run w tr ++ option_list (lin w1 l w2).
Proof.
  intros Hr Hs. rewrite (lin_run_app _ _ _ _ Hr). simpl.
  by rewrite (exec_complete _ _ _ Hs), app_nil_r.
Qed.

Lemma refines_lstar w tr w' :
  inv w -> w ⟶[ tr ]* w' ->
  spec_run (dom (subscriptions w)) (lin_ops (lin_run w tr)) =
  (dom (subscriptions w'), lin_results (lin_run w tr)).
Proof.
  intros Hi Hrun. revert Hi.
  induction Hrun as [|w l w1 tr w2 Hs _ IH]; intros Hi; [done|]. simpl.
  rewrite (exec_complete _ _ _ Hs). pose proof (lin_step w l w1 Hi Hs) as Hl.
  specialize (IH (inv_step _ _ _ Hi Hs)).
  destruct (lin w l w1) as [[t [op r]]|]; simpl.
  - rewrite Hl. simpl in IH. rewrite IH. done.
  - by rewrite <- Hl.
Qed.

(** ** Answers follow their linearization point *)

(** Handler [t]'s answer [resp] to [r] reports a linearization point of
    [t] in [ls]. *)
Definition reported (ls : list (nat * (aop * aresult))) (t : nat) (r : request) (resp : response) :=
  exists op res, In (t, (op, res)) ls /\ op = aop_of r /\ resp = resp_of op res.

(** After a run whose linearization points are [ls]: a handler about to
    [go] has inserted, and a handler about to answer reports its point. *)
Definition post_lin (ls : list (nat * (aop * aresult))) (w : world) : Prop :=
  (forall t e c ch, handlers w !! t = Some (HStartGo e c ch) -> In (t, (AStart e, AStarted)) ls) /\
  (forall t r resp, handlers w !! t = Some (HAnswer r resp) -> reported ls t r resp).

Local Ltac post_intros := split; [intros t' e' c' ch' Ht' | intros t' r' resp' Ht'].

Lemma post_lin_step ls w l w' :
  post_lin ls w -> step w l w' -> post_lin (ls ++ option_list (lin w l w')) w'.
Proof.
  intros [Hgo Hans] Hs.
  inversion Hs; subst; lin_compute;
    unfold post_lin, set_handler, set_watcher, set_locked, after_insert, after_go, after_close in *;
    simpl in *; post_intros; list_lookup_cases; simplify_eq/=;
    rewrite ?app_nil_r; try by destruct r.
  all: try (by eapply Hgo).
  all: try (by apply in_app_iff; left; eapply Hgo).
  all: try (by destruct (Hans _ _ _ Ht') as (op & res & Hin & Hop & Hr);
                exists op, res; rewrite ?in_app_iff; auto).
  all: try (by exists (AStart e), AStarted; rewrite ?in_app_iff; eauto).
  all: try (by apply in_app_iff; right; left).
  all: by eexists _, _; split; [apply in_app_iff; right; left; reflexivity | split; reflexivity].
Qed.

Lemma post_lin_lstar tr w : init ⟶[ tr ]* w -> post_lin (lin_run init tr) w.
Proof.
  revert tr w. apply lstar_ind_snoc; [by split; intros *; unfold init; simpl; rewrite lookup_nil|].
  intros tr w l w' Hr Hp Hs. rewrite (lin_run_snoc _ _ _ _ _ Hr Hs).
  by apply post_lin_step.
Qed.

(** ** Properties *)

(** C4: Linearizability of the registry (spec section 4.1): in every run
    from the initial state, (1) replaying the linearization points (the
    branch each validated handler takes under the mutex) on the abstract
    registry from the empty set yields exactly the set of e-mails in
    [subscriptions] at the end and exactly the results the handlers
    chose; (2) every answer other than a 400 for a missing parameter is
    given after a linearization point of the same handler, for the
    request's operation, and reports its result. *)
Theorem registry_refines tr w :
  init ⟶[ tr ]* w ->
  spec_run ∅ (lin_ops (lin_run init tr)) = (dom (subscriptions w), lin_results (lin_run init tr)) /\
  forall tr1 t r resp tr2,
    tr = tr1 ++ EvRespond t r resp :: tr2 ->
    resp <> RespStartBadRequest -> resp <> RespStopBadRequest ->
    reported (lin_run init tr1) t r resp.
Proof.
  intros Hrun. split.
  - rewrite <- (dom_empty_L (M := gmap string) (A := nat)).
    exact (refines_lstar init tr w inv_init Hrun).
  - intros tr1 t r resp tr2 -> Hb1 Hb2.
    apply lstar_app_inv in Hrun as (w1 & Hr1 & Hr2).
    inversion Hr2 as [|? ? w2 ? ? Hs]; subst.
    destruct (post_lin_lstar _ _ Hr1) as [_ Hans].
    inversion Hs; subst; [done | done | by apply Hans].
Qed.

Lemma registry_refines_witness :
  init ⟶[ round_trip ]* (state_after round_trip) /\
  lin_results (lin_run init round_trip) = [AStarted; AStopped; ANotFound] /\
  (spec_run ∅ (lin_ops (lin_run init round_trip)) =
   (dom (subscriptions (state_after round_trip)), lin_results (lin_run init round_trip)) /\
   forall tr1 t r resp tr2,
    round_trip = tr1 ++ EvRespond t r resp :: tr2 ->
    resp <> RespStartBadRequest -> resp <> RespStopBadRequest ->
    reported (lin_run init tr1) t r resp).
Proof.
  assert (Hrun : init ⟶[ round_trip ]* (state_after round_trip))
    by (apply run_lstar; vm_compute; reflexivity).
  split; [done|]. split; [vm_compute; reflexivity|].
  exact (registry_refines _ _ Hrun).
Defined.

End Refinement.
