(* ===== verification/Progress.v ===== *)
(** * Progress: the runs in which Start and Stop complete

    The safety theorems say what cannot happen; these say what can.  A
    Stop that takes the mutex while its e-mail's watcher is running
    completes with "stopped" and frees the e-mail; a Start for a free
    e-mail that takes the mutex completes with "started" and spawns a
    watcher (the re-subscription of spec section 8; [Dispatch] runs it
    from the HTTP call).  The scheduler's
    freedom also allows a run the spec excludes: a watcher waiting in
    [select] while a Stop is about to send may take the ticker case first
    and notify, since Go's [select] picks a ready case at random, and
    the Stop still answers "stopped" afterwards (spec section 5 gives the
    cancellation priority). *)

From S2P Require Import Prelude Strconv Seats Notify Watcher Registry Invariant Exec.
From Stdlib Require Import ZArith Lia Ascii.

Module Progress.
Import Seats Notify Watcher Registry Invariant Exec.
Local Open Scope nubanner_scope.

(** ** Scenarios *)

(** Alice's Stop has taken the mutex, found her channel and is about to
    send on it. *)
Definition stop_sending : list event := firstn 10 stop_run.

(** Alice's Stop is validated and waits for the (free) mutex. *)
Definition stop_waiting : list event := firstn 8 stop_run.

(** A page showing five free seats. *)
Definition page5 : string := seats_prefix +:+ "5" +:+ seats_suffix.

(** ** The end of a Stop *)

Lemma stop_finish w t e ch i a :
  inv w -> handlers w !! t = Some (HStopSend e ch) -> watchers w !! i = Some a ->
  w_pc a = WSelect -> w_chan a = ch ->
  exists w', w ⟶[ [EvCancel t i; EvTau t; EvRespond t (ReqStop e) (RespStopped e)] ]* w' /\
             subscriptions w' !! e = None /\ locked w' = false.
Proof.
  intros Hi Ht Ha Hp Hc. pose proof (send_chan_open w t e ch Hi Ht) as Ho.
  pose proof (lookup_lt_Some _ _ _ Ht) as Hlt.
  set (w1 := set_watcher (set_handler w t (HStopClose e ch)) i (after_stop a)).
  assert (Ht1 : handlers w1 !! t = Some (HStopClose e ch))
    by (simpl; by rewrite list_lookup_insert_eq).
  exists (set_handler (after_close w1 t e ch) t (HDone (RespStopped e))).
  split; [|simpl; split; [apply lookup_delete_eq | done]].
  econstructor; [by eapply step_cancel|]. econstructor; [by apply step_stop_close|].
  apply lstar_one, step_answer. simpl. rewrite list_lookup_insert_eq; [done|].
  rewrite length_insert. by eapply lookup_lt_Some.
Qed.

(** ** Properties *)

(** C15: A Stop for an e-mail whose watcher is running, once validated,
    completes when the mutex is free: it takes the mutex, finds the
    channel, meets the watcher on it, closes it and answers "stopped",
    leaving the e-mail out of the map and the mutex free. *)
Theorem stop_completes w t e i a :
  reachable w -> handlers w !! t = Some (HStopLock e) -> locked w = false ->
  watchers w !! i = Some a -> w_pc a = WSelect -> w_email a = e ->
  exists w', w ⟶[ [EvTau t; EvTau t; EvCancel t i; EvTau t;
                          EvRespond t (ReqStop e) (RespStopped e)] ]* w' /\
             subscriptions w' !! e = None /\ locked w' = false.
Proof.
  intros Hr Ht Hl Ha Hp He. pose proof (inv_reachable w Hr) as Hi.
  pose proof (inv_live _ Hi _ _ Ha Hp) as Hs. rewrite He in Hs.
  pose proof (lookup_lt_Some _ _ _ Ht) as Hlt.
  pose proof (step_stop_lock w t e Ht Hl) as S1.
  set (w1 := set_handler (set_locked w true) t (HStopCrit e)) in S1.
  assert (S2 : step w1 (EvTau t) (set_handler w1 t (HStopSend e (w_chan a))))
    by (apply step_stop_found; [simpl; by rewrite list_lookup_insert_eq | done]).
  set (w2 := set_handler w1 t (HStopSend e (w_chan a))) in S2.
  assert (Hi2 : inv w2) by (eapply inv_step; [eapply inv_step|]; eauto).
  destruct (stop_finish w2 t e (w_chan a) i a Hi2) as (w' & Hrun & Hw'); try done.
  - simpl. rewrite list_lookup_insert_eq; [done|]. by rewrite length_insert.
  - exists w'. split; [|done]. by do 2 (econstructor; [eassumption|]).
Qed.

Lemma stop_completes_witness :
  let w := state_after stop_waiting in
  reachable w /\ handlers w !! 1 = Some (HStopLock alice) /\ locked w = false /\
  watchers w !! 0 = Some (spawn_watcher alice crn 0) /\
  w_pc (spawn_watcher alice crn 0) = WSelect /\ w_email (spawn_watcher alice crn 0) = alice /\
  exists w', w ⟶[ [EvTau 1; EvTau 1; EvCancel 1 0; EvTau 1;
                          EvRespond 1 (ReqStop alice) (RespStopped alice)] ]* w' /\
             subscriptions w' !! alice = None /\ locked w' = false.
Proof.
  intros w.
  assert (Hr : reachable w) by (apply state_after_reachable; eexists; vm_compute; reflexivity).
  assert (Ht : handlers w !! 1 = Some (HStopLock alice)) by (vm_compute; reflexivity).
  assert (Hl : locked w = false) by (vm_compute; reflexivity).
  assert (Ha : watchers w !! 0 = Some (spawn_watcher alice crn 0)) by (vm_compute; reflexivity).
  do 6 (split; [done|]).
  exact (stop_completes w 1 alice 0 _ Hr Ht Hl Ha eq_refl eq_refl).
Defined.

(** A validated Start for an e-mail that is not in the map (never
    started, or stopped) completes when the mutex is free: it inserts a
    fresh channel, answers "started" and spawns the e-mail's watcher on
    that channel, leaving the mutex free. *)
Lemma start_completes w t e c :
  handlers w !! t = Some (HStartLock e c) -> locked w = false ->
  subscriptions w !! e = None ->
  exists w', w ⟶[ [EvTau t; EvTau t; EvTau t; EvRespond t (ReqStart e c) (RespStarted e)] ]* w' /\
             subscriptions w' !! e = Some (next_chan w) /\
             watchers w' = watchers w ++ [spawn_watcher e c (next_chan w)] /\ locked w' = false.
Proof.
  intros Ht Hl He. pose proof (lookup_lt_Some _ _ _ Ht) as Hlt.
  pose proof (step_start_lock w t e c Ht Hl) as S1.
  set (w1 := set_handler (set_locked w true) t (HStartCrit e c)) in S1.
  assert (S2 : step w1 (EvTau t) (after_insert w1 t e c))
    by (apply step_start_insert; [simpl; by rewrite list_lookup_insert_eq | done]).
  assert (S3 : step (after_insert w1 t e c) (EvTau t)
                 (after_go (after_insert w1 t e c) t e c (next_chan w))).
  { apply step_start_go. simpl. rewrite list_lookup_insert_eq; [done|]. by rewrite length_insert. }
  set (w3 := after_go (after_insert w1 t e c) t e c (next_chan w)) in S3.
  assert (S4 : step w3 (EvRespond t (ReqStart e c) (RespStarted e))
                 (set_handler w3 t (HDone (RespStarted e)))).
  { apply step_answer. simpl. rewrite list_lookup_insert_eq; [done|]. by rewrite !length_insert. }
  eexists. split; [by do 3 (econstructor; [eassumption|]); apply lstar_one|].
  simpl. split; [apply lookup_insert_eq | done].
Qed.

(** C14: No priority for cancellation: while a Stop holds the mutex and is
    about to send on a running watcher's channel, the watcher may still
    take the ticker case, poll and notify; if it keeps running, the Stop
    then meets it and answers "stopped".  Spec section 5 says the
    cancellation takes priority when both are ready. *)
Theorem notify_during_stop w t e ch i a f :
  reachable w -> handlers w !! t = Some (HStopSend e ch) -> watchers w !! i = Some a ->
  w_pc a = WSelect -> w_chan a = ch -> w_pc (fst (after_tick a f)) = WSelect ->
  exists w1 w2, step w (EvTick i f (snd (after_tick a f))) w1 /\
                w1 ⟶[ [EvCancel t i; EvTau t; EvRespond t (ReqStop e) (RespStopped e)] ]* w2.
Proof.
  intros Hr Ht Ha Hp Hc Hp'. pose proof (inv_reachable w Hr) as Hi.
  pose proof (step_tick w i a f Ha Hp) as S1.
  destruct (after_tick_ids a f) as (_ & _ & Hch).
  destruct (stop_finish (set_watcher w i (fst (after_tick a f))) t e ch i (fst (after_tick a f)))
    as (w2 & Hrun & _); try done.
  - by eapply inv_step.
  - simpl. rewrite list_lookup_insert_eq; [done|]. by eapply lookup_lt_Some.
  - congruence.
  - by exists (set_watcher w i (fst (after_tick a f))), w2.
Qed.

Lemma notify_during_stop_witness :
  let w := state_after stop_sending in
  let a := spawn_watcher alice crn 0 in
  reachable w /\ handlers w !! 1 = Some (HStopSend alice 0) /\ watchers w !! 0 = Some a /\
  w_pc a = WSelect /\ w_chan a = 0 /\ w_pc (fst (after_tick a (FetchBody page5))) = WSelect /\
  snd (after_tick a (FetchBody page5)) = Some (sendEmailNotification alice 5 crn) /\
  exists w1 w2, step w (EvTick 0 (FetchBody page5) (snd (after_tick a (FetchBody page5)))) w1 /\
                w1 ⟶[ [EvCancel 1 0; EvTau 1; EvRespond 1 (ReqStop alice) (RespStopped alice)] ]* w2.
Proof.
  intros w a.
  assert (Hr : reachable w) by (apply state_after_reachable; eexists; vm_compute; reflexivity).
  assert (Ht : handlers w !! 1 = Some (HStopSend alice 0)) by (vm_compute; reflexivity).
  assert (Ha : watchers w !! 0 = Some a) by (vm_compute; reflexivity).
  assert (Hp : w_pc (fst (after_tick a (FetchBody page5))) = WSelect) by (vm_compute; reflexivity).
  do 3 (split; [done|]). split; [reflexivity|]. split; [reflexivity|].
  split; [done|]. split; [vm_compute; reflexivity|].
  exact (notify_during_stop w 1 alice 0 0 a (FetchBody page5) Hr Ht Ha eq_refl eq_refl Hp).
Defined.

End Progress.
