(* ===== verification/Answers.v ===== *)
(** * Answers: every handler answers its own request, once, in kind

    The HTTP contract of the two handlers, as a well-formedness invariant
    of runs.  The [t]-th request of a run is served by handler goroutine
    [t]; its program counter always carries that request's parameters
    ([fits]), a handler past the validation of lines 38 and 60 has
    non-empty parameters, and a handler that has answered has answered
    exactly once, with a response of its request's kind that agrees with
    the validation ([resp_fits]): the 400 for a missing parameter
    exactly when one is missing, the other answers (the 400s of lines 46
    and 76, the 200s) only for set parameters. *)

From S2P Require Import Prelude Strconv Seats Notify Watcher Registry Invariant Exec.
From Stdlib Require Import ZArith Lia Ascii.

Module Answers.
Import Watcher Registry Exec.
Local Open Scope nubanner_scope.

(** ** Requests, answers and what fits them *)

(** The requests of a run, in arrival order: handler [t] serves the
    [t]-th. *)
Definition requests (tr : list event) : list request :=
  omap (fun l => match l with EvRequest r => Some r | _ => None end) tr.

(** An answer of handler [t]. *)
Definition is_answer (t : nat) (l : event) : bool :=
  match l with EvRespond t' _ _ => Nat.eqb t t' | _ => false end.

Definition is_done (h : hpc) : bool := match h with HDone _ => true | _ => false end.

(** The responses a request may get: the 400 for a missing parameter
    exactly when one is missing, the others only for valid parameters. *)
Definition resp_fits (r : request) (resp : response) : bool :=
  match r, resp with
  | ReqStart e c, RespStartBadRequest => bool_decide (e = "" \/ c = "")
  | ReqStart e c, RespAlreadyRunning => bool_decide (e <> "" /\ c <> "")
  | ReqStart e c, RespStarted e' => bool_decide (e' = e /\ e <> "" /\ c <> "")
  | ReqStop e, RespStopBadRequest => bool_decide (e = "")
  | ReqStop e, RespNotFound => bool_decide (e <> "")
  | ReqStop e, RespStopped e' => bool_decide (e' = e /\ e <> "")
  | _, _ => false
  end.

(** The program counters of the handler serving [r]. *)
Definition fits (r : request) (h : hpc) : bool :=
  match r, h with
  | ReqStart e c, HStart e' c' => bool_decide (e' = e /\ c' = c)
  | ReqStart e c, HStartLock e' c' | ReqStart e c, HStartCrit e' c'
  | ReqStart e c, HStartGo e' c' _ => bool_decide (e' = e /\ c' = c /\ e <> "" /\ c <> "")
  | ReqStop e, HStop e' => bool_decide (e' = e)
  | ReqStop e, HStopLock e' | ReqStop e, HStopCrit e' | ReqStop e, HStopSend e' _
  | ReqStop e, HStopClose e' _ => bool_decide (e' = e /\ e <> "")
  | _, HAnswer r' resp => bool_decide (r' = r) && resp_fits r resp
  | _, HDone resp => resp_fits r resp
  | _, HPanic => true
  | _, _ => false
  end.

(** ** The invariant *)
Record wf (tr : list event) (w : world) : Prop := {
  wf_len : length (handlers w) = length (requests tr);
  wf_fits : forall t h r, handlers w !! t = Some h -> requests tr !! t = Some r -> fits r h = true;
  wf_count : forall t h, handlers w !! t = Some h -> cnt (is_answer t) tr = if is_done h then 1 else 0;
  wf_events : forall t r resp, In (EvRespond t r resp) tr ->
              requests tr !! t = Some r /\ handlers w !! t = Some (HDone resp)
}.

Lemma requests_snoc tr l :
  requests (tr ++ [l]) = requests tr ++ match l with EvRequest r => [r] | _ => [] end.
Proof. unfold requests. rewrite omap_app. by destruct l. Qed.

Lemma cnt_answer_snoc t tr l :
  cnt (is_answer t) (tr ++ [l]) = (cnt (is_answer t) tr + if is_answer t l then 1 else 0)%nat.
Proof. apply cnt_snoc. Qed.

(** Steps that leave the handlers alone: requests and answers unchanged. *)
Lemma wf_same tr w l w' :
  wf tr w -> handlers w' = handlers w ->
  (forall r, l <> EvRequest r) -> (forall t, is_answer t l = false) -> (forall t r resp, l <> EvRespond t r resp) ->
  wf (tr ++ [l]) w'.
Proof.
  intros [Hl Hf Hc He] Hh Hr Ha Hresp.
  assert (Hreq : requests (tr ++ [l]) = requests tr)
    by (rewrite requests_snoc; destruct l as [r0| | | | |]; [by destruct (Hr r0)|..]; apply app_nil_r).
  constructor; rewrite ?Hreq, ?Hh; try done.
  - intros t h Ht. rewrite cnt_answer_snoc, Ha, (Hc t h Ht). lia.
  - intros t r resp [Hin|[Heq|[]]]%in_app_or; [by apply He|]. by destruct (Hresp t r resp).
Qed.

(** One handler moves from [h] to [h'] on an event of its own. *)
Lemma wf_update tr w l w' t h h' :
  wf tr w -> handlers w !! t = Some h -> handlers w' = <[t:=h']> (handlers w) ->
  (forall r, l <> EvRequest r) -> is_done h = false ->
  (forall r, requests tr !! t = Some r -> fits r h = true -> fits r h' = true) ->
  (forall t' r resp, l = EvRespond t' r resp ->
     t' = t /\ h' = HDone resp /\ forall r0, requests tr !! t = Some r0 -> fits r0 h = true -> r0 = r) ->
  (if is_answer t l then 1 else 0) = (if is_done h' then 1 else 0) ->
  (forall t', t' <> t -> is_answer t' l = false) ->
  wf (tr ++ [l]) w'.
Proof.
  intros [Hl Hf Hc He] Ht Hh Hr Hd Hfit Hresp Hcount Hother.
  assert (Hreq : requests (tr ++ [l]) = requests tr)
    by (rewrite requests_snoc; destruct l as [r0| | | | |]; [by destruct (Hr r0)|..]; apply app_nil_r).
  pose proof (lookup_lt_Some _ _ _ Ht) as Hlt.
  constructor; rewrite ?Hreq, ?Hh.
  - by rewrite length_insert.
  - intros t' h0 r Ht' Hr'. list_lookup_cases; [|by eapply Hf].
    apply Hfit; [done|]. by eapply Hf.
  - intros t' h0 Ht'. rewrite cnt_answer_snoc. list_lookup_cases.
    + rewrite (Hc _ _ Ht), Hd, Hcount. lia.
    + rewrite (Hc _ _ Ht'), Hother by done. lia.
  - intros t' r resp [Hin|[Heq|[]]]%in_app_or.
    + destruct (He _ _ _ Hin) as [Hr' Hd']. split; [done|].
      assert (t' <> t) by (intros ->; rewrite Ht in Hd'; injection Hd' as ->; discriminate Hd). by rewrite list_lookup_insert_ne.
    + subst l. destruct (Hresp t' r resp eq_refl) as (-> & -> & Hr0).
      destruct (lookup_lt_is_Some_2 (requests tr) t) as [r0 Hr0']; [lia|].
      rewrite (Hr0 r0 Hr0' (Hf _ _ _ Ht Hr0')) in Hr0'. split; [done|].
      by rewrite list_lookup_insert_eq.
Qed.

(** An answer of [t] in the run is an event of the run. *)
Lemma cnt_answer_in t tr : (1 <= cnt (is_answer t) tr)%nat -> exists r resp, In (EvRespond t r resp) tr.
Proof.
  induction tr as [|l tr IH]; simpl; [lia|]. intros H.
  destruct (is_answer t l) eqn:E.
  - destruct l; try done. apply Nat.eqb_eq in E as ->. eauto.
  - destruct (IH ltac:(lia)) as (r & resp & Hin). eauto.
Qed.

(** A request arrives: its handler is the [length]-th. *)
Lemma wf_request tr w r :
  wf tr w ->
  wf (tr ++ [EvRequest r]) (mkWorld (subscriptions w) (locked w) (closed_chans w) (next_chan w)
                                    (handlers w ++ [handler_of r]) (watchers w)).
Proof.
  intros [Hl Hf Hc He]. constructor; rewrite ?requests_snoc; simpl;
    [rewrite !length_app; simpl; lia| | |].
  - intros t h r' Ht Hr. apply lookup_snoc_Some in Ht as [(? & Ht)|(-> & <-)].
    + apply (Hf t); [done|]. by rewrite lookup_app_l in Hr by lia.
    + rewrite Hl, lookup_app_r, Nat.sub_diag in Hr by lia. injection Hr as <-.
      destruct r; simpl; by apply bool_decide_eq_true_2.
  - intros t h Ht. rewrite cnt_answer_snoc. simpl. rewrite Nat.add_0_r.
    apply lookup_snoc_Some in Ht as [(? & Ht)|(-> & <-)]; [by apply Hc|].
    destruct (cnt (is_answer (length (handlers w))) tr) eqn:E; [by destruct r|].
    destruct (cnt_answer_in (length (handlers w)) tr ltac:(lia)) as (r' & resp & Hin).
    destruct (He _ _ _ Hin) as [Hr' _]. apply lookup_lt_Some in Hr'. lia.
  - intros t r' resp [Hin|[Heq|[]]]%in_app_or; [|done].
    destruct (He _ _ _ Hin) as [Hr' Ht]. pose proof (lookup_lt_Some _ _ _ Hr').
    split; by apply lookup_app_l_Some.
Qed.

(** The side conditions of [wf_update] and [wf_same] on a concrete rule. *)
Local Ltac wf_side :=
  first
  [ reflexivity
  | intros ? ?; discriminate
  | intros ? ? ? ?; discriminate
  | intros ? ? ? Heq; discriminate Heq
  | intros ? ? ? [= <- <- <-]; split; [done|]; split; [done|];
    intros [] _ Hfit; simpl in Hfit; try discriminate; case_bool_decide; naive_solver
  | intros ? ? ? [= <- <- <-]; split; [done|]; split; [done|];
    intros [] _ Hfit; simpl in Hfit; apply andb_true_iff in Hfit as [Hfit _];
    by apply bool_decide_eq_true in Hfit
  | intros ? ?; simpl; by apply Nat.eqb_neq
  | simpl; by rewrite ?Nat.eqb_refl
  | intros [] _ Hfit; simpl in *; repeat case_bool_decide; naive_solver ].

Lemma wf_step tr w l w' : wf tr w -> step w l w' -> wf (tr ++ [l]) w'.
Proof.
  intros Hw Hs. inversion Hs; subst; [by apply wf_request|..];
    first [eapply wf_update; [exact Hw|eassumption|..] | eapply wf_same; [exact Hw|..]];
    wf_side.
Qed.

Lemma wf_run tr w : init ⟶[ tr ]* w -> wf tr w.
Proof.
  revert tr w. apply lstar_ind_snoc; [by constructor|].
  intros tr w l w' _ Hw Hs. by eapply wf_step.
Qed.

(** ** Properties *)

(** C11: Every answer in a run is the answer of the handler serving it to
    that very request: the [t]-th request of the run, answered exactly
    once, with a response of its kind that agrees with the validation:
    the 400 "Email and CRN are required" (or "Email is required")
    exactly when a parameter is empty; the 400 "A check is already
    running" (or "No active check found") and the 200 answers only when
    the parameters are set, the 200 message naming the request's own
    e-mail. *)
Theorem answers_match_requests tr w t r resp :
  init ⟶[ tr ]* w -> In (EvRespond t r resp) tr ->
  requests tr !! t = Some r /\ cnt (is_answer t) tr = 1%nat /\ resp_fits r resp = true.
Proof.
  intros Hrun Hin. pose proof (wf_run tr w Hrun) as Hw.
  destruct (wf_events _ _ Hw _ _ _ Hin) as [Hr Ht]. split; [done|]. split.
  - by rewrite (wf_count _ _ Hw _ _ Ht).
  - pose proof (wf_fits _ _ Hw _ _ _ Ht Hr) as Hf. by destruct r.
Qed.

Lemma answers_match_requests_witness :
  init ⟶[ stop_run ]* (state_after stop_run) /\
  In (EvRespond 0 (ReqStart alice crn) (RespStarted alice)) stop_run /\
  requests stop_run !! 0 = Some (ReqStart alice crn) /\ cnt (is_answer 0) stop_run = 1%nat /\
  resp_fits (ReqStart alice crn) (RespStarted alice) = true.
Proof.
  assert (Hrun : init ⟶[ stop_run ]* (state_after stop_run))
    by (apply run_lstar; vm_compute; reflexivity).
  assert (Hin : In (EvRespond 0 (ReqStart alice crn) (RespStarted alice)) stop_run)
    by (simpl; tauto).
  split; [done|]. split; [done|].
  exact (answers_match_requests _ _ 0 _ _ Hrun Hin).
Defined.

End Answers.
