(* ===== verification/Dispatch.v ===== *)
(** * Dispatch: [main] and the way from an HTTP call to a handler (new_main.go:23-37, 59)

    [main] builds a gin engine ([gin.Default()]), registers two routes,
    [POST /start-course-check] and [POST /stop-course-check], and runs
    the server; [router.Run] returns only on an error, and [log.Fatal]
    then exits with status 1 ([main]).  Any other method or path is
    answered by gin itself and never reaches the handlers
    ([route_lookup] on the engine's route table): with gin.Default's
    [RedirectTrailingSlash], a path that differs from a route of the
    same method only by a trailing ['/'] is redirected to it (301 for
    GET, 307 for other methods; the [X-Forwarded-Prefix] header is
    taken to be absent), and anything else gets 404 ([HandleMethodNotAllowed]
    is off by default).  A handler reads its
    parameters with [c.Query], which parses the raw query with
    [url.ParseQuery] and returns the first value of the key, or [""].
    [dispatch] is that composition: the request the handler goroutine of
    [Registry] starts from.  [start_call] and [stop_call] are the calls a
    client builds with [url.Values.Encode].

    The theorems: [main]'s engine routes exactly its two paths and
    redirects their trailing-slash forms; and,
    composed with the registry, a Start call for a free e-mail, with the
    mutex free, runs to the "started" answer, while a Start call whose
    e-mail parameter is not a valid escape is treated as a missing
    e-mail and answered 400. *)

From S2P Require Import Prelude Strconv Url Seats Notify Watcher Registry Invariant Exec Progress.
From Stdlib Require Import ZArith Lia Ascii.

Module Dispatch.
Import Url Watcher Registry Exec Progress.
Local Open Scope nubanner_scope.

(** ** Calls and routing *)
Record http_call := mkCall {
  call_method : string;
  call_path : string;
  call_query : string     (** the raw query string, after ['?'] *)
}.

(** ** [main]: the engine and its routes (lines 23-33) *)

(** The two handler functions [main] registers. *)
Inductive handler_name := StartCourseCheck | StopCourseCheck.

Record route := mkRoute {
  route_method : string;
  route_path : string;
  route_handler : handler_name
}.

(** A gin engine, by its route table; [gin.Default()] (line 24) has no
    route yet (its Logger and Recovery middleware do not route). *)
Definition engine := list route.

Definition gin_default : engine := [].

(** [router.POST(path, handler)]. *)
Definition router_post (r : engine) (path : string) (h : handler_name) : engine :=
  r ++ [mkRoute "POST" path h].

(** Lines 24-27. *)
Definition main_router : engine :=
  router_post (router_post gin_default "/start-course-check" StartCourseCheck)
              "/stop-course-check" StopCourseCheck.

(** The handler registered for the method and the path. *)
Definition find_route (r : engine) (m p : string) : option handler_name :=
  route_handler <$> (snd <$> list_find (fun rt => route_method rt = m /\ route_path rt = p) r).

(** [p] without its final ['/'], when it ends with one. *)
Fixpoint strip_trailing_slash (p : string) : option string :=
  match p with
  | EmptyString => None
  | String c EmptyString => if Ascii.eqb c "/"%char then Some EmptyString else None
  | String c rest => String c <$> strip_trailing_slash rest
  end.

(** gin's [redirectTrailingSlash]: the path with its trailing ['/']
    removed, or with one added. *)
Definition redirect_path (p : string) : string :=
  match strip_trailing_slash p with
  | Some q => q
  | None => p +:+ "/"
  end.

(** What gin's [handleHTTPRequest] does with a call. *)
Inductive route_result :=
| RouteHandler (h : handler_name)             (** the registered handler runs *)
| RouteRedirect (code : Z) (path : string)    (** [redirectRequest] to [path] *)
| RouteNotFound.                              (** gin's own 404 page *)

(** gin's router with its defaults: the registered handler; else, when
    the path with or without a trailing slash is a route of the method
    (the tree's [tsr]) and the path is not ["/"] nor the method CONNECT,
    a redirect, 301 for GET and 307 otherwise; else 404. *)
Definition route_lookup (r : engine) (m p : string) : route_result :=
  match find_route r m p with
  | Some h => RouteHandler h
  | None =>
      if bool_decide (m <> "CONNECT" /\ p <> "/" /\ is_Some (find_route r m (redirect_path p)))
      then RouteRedirect (if String.eqb m "GET" then 301 else 307) (redirect_path p)
      else RouteNotFound
  end.

(** What [main] does once [router.Run(":8080")] (line 29) returns, with
    its error text [err]: [log.Fatal] (line 31) writes the line and exits
    with status 1.  [Run] returns only on an error; while it serves,
    [main] does not return. *)
Inductive main_outcome :=
| MainServing (r : engine)
| MainFatal (log_line : string) (status : Z).

Definition main (run_err : option string) : main_outcome :=
  match run_err with
  | None => MainServing main_router
  | Some err => MainFatal ("Failed to run server: " +:+ err) 1
  end.

(** The request a handler reads from the raw query with [c.Query]
    (lines 36-37 and 59). *)
Definition handler_request (h : handler_name) (q : string) : request :=
  match h with
  | StartCourseCheck => ReqStart (query_get q "email") (query_get q "CRN")
  | StopCourseCheck => ReqStop (query_get q "email")
  end.

(** An HTTP call reaching the server [main] runs: the request of the
    handler it is routed to, if any. *)
Definition dispatch (call : http_call) : option request :=
  match route_lookup main_router (call_method call) (call_path call) with
  | RouteHandler h => Some (handler_request h (call_query call))
  | _ => None
  end.

(** The calls a client sends, with [url.Values.Encode] queries. *)
Definition start_call (e c : string) : http_call :=
  mkCall "POST" "/start-course-check" (encode_pairs [("CRN", c); ("email", e)]).

Definition stop_call (e : string) : http_call :=
  mkCall "POST" "/stop-course-check" (encode_pairs [("email", e)]).

(** A Start call whose e-mail parameter is the raw text [bad]. *)
Definition start_call_raw (bad c : string) : http_call :=
  mkCall "POST" "/start-course-check" ("email=" +:+ bad +:+ String "&"%char (encode_pair ("CRN", c))).

(** Alice subscribed and stopped; the server is idle. *)
Definition after_stop_run : list event :=
  stop_run ++ [EvTau 1; EvRespond 1 (ReqStop alice) (RespStopped alice)].

(** ** Routing *)

Lemma strip_trailing_slash_app p : strip_trailing_slash (p +:+ "/") = Some p.
Proof.
  induction p as [|c p IH]; [done|]. destruct p as [|c' p']; [done|].
  rewrite !string_app_cons in *. change (String c <$> strip_trailing_slash (String c' (p' +:+ "/")) =
    Some (String c (String c' p'))). by rewrite IH.
Qed.

Lemma strip_trailing_slash_Some p q : strip_trailing_slash p = Some q -> p = q +:+ "/".
Proof.
  revert q. induction p as [|c p IH]; intros q H; [done|]. simpl in H.
  destruct p as [|c' p'].
  - destruct (Ascii.eqb_spec c "/"%char) as [->|]; [by injection H as <-|done].
  - destruct (strip_trailing_slash (String c' p')) as [q'|] eqn:E; [|done].
    injection H as <-. rewrite (IH q' eq_refl). done.
Qed.

(** The redirect target is a path [q] without a trailing slash exactly
    when the call was for [q] with one. *)
Lemma redirect_path_eq p q :
  strip_trailing_slash q = None -> (redirect_path p = q <-> p = q +:+ "/").
Proof.
  intros Hq. unfold redirect_path. split.
  - destruct (strip_trailing_slash p) as [q'|] eqn:E; [intros <-; by apply strip_trailing_slash_Some|].
    intros <-. by rewrite strip_trailing_slash_app in Hq.
  - intros ->. by rewrite strip_trailing_slash_app.
Qed.

Lemma find_main m p :
  find_route main_router m p =
  if String.eqb m "POST" then
    if String.eqb p "/start-course-check" then Some StartCourseCheck
    else if String.eqb p "/stop-course-check" then Some StopCourseCheck
    else None
  else None.
Proof.
  unfold find_route, main_router, router_post, gin_default. simpl.
  destruct (String.eqb_spec m "POST") as [->|Hm];
    [destruct (String.eqb_spec p "/start-course-check") as [->|Hp1];
     [|destruct (String.eqb_spec p "/stop-course-check") as [->|Hp2]]|];
    repeat case_decide; naive_solver.
Qed.

(** ** Parsing the calls *)

Lemma dispatch_route m p q h :
  route_lookup main_router m p = RouteHandler h -> dispatch (mkCall m p q) = Some (handler_request h q).
Proof. intros H. unfold dispatch. cbn [call_method call_path call_query]. by rewrite H. Qed.

Lemma dispatch_start e c : dispatch (start_call e c) = Some (ReqStart e c).
Proof.
  unfold start_call. rewrite (dispatch_route _ _ _ StartCourseCheck) by reflexivity.
  unfold handler_request, query_get. by rewrite parse_query_encode.
Qed.

Lemma dispatch_stop e : dispatch (stop_call e) = Some (ReqStop e).
Proof.
  unfold stop_call. rewrite (dispatch_route _ _ _ StopCourseCheck) by reflexivity.
  unfold handler_request, query_get. by rewrite parse_query_encode.
Qed.

(** A piece [email=bad] with a malformed escape is dropped. *)
Lemma parse_pair_bad bad : query_unescape bad = None -> parse_pair ("email=" +:+ bad) = None.
Proof.
  intros Hbad. unfold parse_pair.
  destruct (has_char ";"%char _); [done|]. destruct (String.eqb _ _); [done|].
  change ("email=" +:+ bad)
    with (String "e" (String "m" (String "a" (String "i" (String "l" (String "=" bad)))))).
  simpl. by rewrite Hbad.
Qed.

Lemma parse_query_bad bad c :
  avoids "&"%char bad = true -> query_unescape bad = None ->
  parse_query ("email=" +:+ bad +:+ String "&"%char (encode_pair ("CRN", c))) = [("CRN", c)].
Proof.
  intros Hamp Hbad. unfold parse_query. rewrite <- string_app_assoc.
  assert (Ha : avoids "&"%char ("email=" +:+ bad) = true) by (rewrite avoids_app; done).
  destruct (split_on_cons "&"%char (encode_pair ("CRN", c))) as (q & qs & Hq).
  assert (Hsep : split_on "&"%char (String "&"%char (encode_pair ("CRN", c))) =
                 EmptyString :: q :: qs) by (rewrite <- Hq; reflexivity).
  assert (HX : split_on "&"%char (encode_pair ("CRN", c)) = [encode_pair ("CRN", c)]).
  { destruct (avoids_spec _ _ (encode_pair_avoids ("CRN", c) "&"%char (or_introl eq_refl)))
      as (Hs & _ & _).
    rewrite <- (string_app_nil_r (encode_pair ("CRN", c))).
    by rewrite (Hs EmptyString EmptyString [] eq_refl), string_app_nil_r. }
  rewrite (proj1 (avoids_spec _ _ Ha) _ _ _ Hsep), string_app_nil_r, <- Hq, HX.
  simpl. by rewrite parse_pair_bad, parse_pair_encode.
Qed.

Lemma dispatch_bad bad c :
  avoids "&"%char bad = true -> query_unescape bad = None ->
  dispatch (start_call_raw bad c) = Some (ReqStart "" c).
Proof.
  intros Hamp Hbad. unfold start_call_raw. rewrite (dispatch_route _ _ _ StartCourseCheck) by reflexivity.
  unfold handler_request, query_get. by rewrite parse_query_bad.
Qed.

(** The request arrives: its handler is the last goroutine. *)
Lemma request_step w r :
  step w (EvRequest r) (mkWorld (subscriptions w) (locked w) (closed_chans w) (next_chan w)
                                (handlers w ++ [handler_of r]) (watchers w)) /\
  (handlers w ++ [handler_of r]) !! length (handlers w) = Some (handler_of r).
Proof. split; [constructor | by rewrite lookup_app_r, Nat.sub_diag by lia]. Qed.

(** ** Properties *)

(** C19: The engine [main] builds routes exactly the two POST paths it
    registers, each to its handler; a POST to either path with a
    trailing slash is redirected to it with 307 (gin.Default's
    [RedirectTrailingSlash]); any other method or path gets gin's 404.
    No call other than the two exact POSTs reaches a handler. *)
Theorem main_routes m p :
  route_lookup main_router m p =
  if String.eqb m "POST" then
    if String.eqb p "/start-course-check" then RouteHandler StartCourseCheck
    else if String.eqb p "/stop-course-check" then RouteHandler StopCourseCheck
    else if String.eqb p "/start-course-check/" then RouteRedirect 307 "/start-course-check"
    else if String.eqb p "/stop-course-check/" then RouteRedirect 307 "/stop-course-check"
    else RouteNotFound
  else RouteNotFound.
Proof.
  unfold route_lookup. rewrite !find_main.
  destruct (String.eqb_spec m "POST") as [->|Hm]; [|by rewrite bool_decide_eq_false_2 by naive_solver].
  destruct (String.eqb_spec p "/start-course-check") as [->|Hp1]; [done|].
  destruct (String.eqb_spec p "/stop-course-check") as [->|Hp2]; [done|].
  destruct (String.eqb_spec p "/start-course-check/") as [->|Hp3]; [by rewrite bool_decide_eq_true_2|].
  destruct (String.eqb_spec p "/stop-course-check/") as [->|Hp4]; [by rewrite bool_decide_eq_true_2|].
  rewrite bool_decide_eq_false_2; [done|]. intros (_ & _ & Hs).
  destruct (String.eqb_spec (redirect_path p) "/start-course-check") as [E|];
    [by apply (redirect_path_eq p "/start-course-check" eq_refl) in E|].
  destruct (String.eqb_spec (redirect_path p) "/stop-course-check") as [E|];
    [by apply (redirect_path_eq p "/stop-course-check" eq_refl) in E|].
  by inversion Hs.
Qed.

(** C17: End to end, a Start call for an e-mail that is not subscribed,
    sent while the mutex is free, is routed to [startCourseCheckHandler]
    with its two parameters, passes the validation, inserts a fresh
    channel, answers "started" and spawns the e-mail's watcher. *)
Theorem http_start_started w e c :
  e <> "" -> c <> "" -> locked w = false -> subscriptions w !! e = None ->
  dispatch (start_call e c) = Some (ReqStart e c) /\
  exists w', w ⟶[ [EvRequest (ReqStart e c); EvTau (length (handlers w));
                   EvTau (length (handlers w)); EvTau (length (handlers w));
                   EvTau (length (handlers w));
                   EvRespond (length (handlers w)) (ReqStart e c) (RespStarted e)] ]* w' /\
             subscriptions w' !! e = Some (next_chan w) /\
             watchers w' = watchers w ++ [spawn_watcher e c (next_chan w)] /\ locked w' = false.
Proof.
  intros He Hc Hl Hs. split; [apply dispatch_start|].
  destruct (request_step w (ReqStart e c)) as [S1 Ht]. simpl in Ht.
  set (w1 := mkWorld _ _ _ _ _ _) in S1.
  pose proof (step_start_valid w1 (length (handlers w)) e c Ht He Hc) as S2.
  destruct (start_completes (set_handler w1 (length (handlers w)) (HStartLock e c))
              (length (handlers w)) e c) as (w' & Hrun & Hw'); try done.
  - simpl. rewrite list_lookup_insert_eq; [done|]. apply lookup_lt_Some in Ht. done.
  - exists w'. split; [|done]. by do 2 (econstructor; [eassumption|]).
Qed.

Lemma http_start_started_witness :
  let w := state_after after_stop_run in
  alice <> "" /\ crn <> "" /\ locked w = false /\ subscriptions w !! alice = None /\
  dispatch (start_call alice crn) = Some (ReqStart alice crn) /\
  exists w', w ⟶[ [EvRequest (ReqStart alice crn); EvTau (length (handlers w));
                   EvTau (length (handlers w)); EvTau (length (handlers w));
                   EvTau (length (handlers w));
                   EvRespond (length (handlers w)) (ReqStart alice crn) (RespStarted alice)] ]* w' /\
             subscriptions w' !! alice = Some (next_chan w) /\
             watchers w' = watchers w ++ [spawn_watcher alice crn (next_chan w)] /\
             locked w' = false.
Proof.
  intros w.
  assert (Hl : locked w = false) by (vm_compute; reflexivity).
  assert (Hs : subscriptions w !! alice = None) by (vm_compute; reflexivity).
  split; [done|]. split; [done|]. split; [done|]. split; [done|].
  exact (http_start_started w alice crn ltac:(done) ltac:(done) Hl Hs).
Defined.

(** C18: A Start call whose [email] parameter is not a valid escape (a
    ['%'] not followed by two hex digits) reaches the handler with an
    empty e-mail: [url.ParseQuery] drops the pair and gin ignores the
    error, so the client gets the 400 "Email and CRN are required"
    although it sent an e-mail. *)
Theorem malformed_email_rejected w bad c :
  avoids "&"%char bad = true -> query_unescape bad = None ->
  dispatch (start_call_raw bad c) = Some (ReqStart "" c) /\
  exists w', w ⟶[ [EvRequest (ReqStart "" c);
                   EvRespond (length (handlers w)) (ReqStart "" c) RespStartBadRequest] ]* w' /\
             handlers w' !! length (handlers w) = Some (HDone RespStartBadRequest).
Proof.
  intros Ha Hb. split; [by apply dispatch_bad|].
  destruct (request_step w (ReqStart "" c)) as [S1 Ht]. simpl in Ht.
  set (w1 := mkWorld _ _ _ _ _ _) in S1.
  pose proof (step_start_invalid w1 (length (handlers w)) "" c Ht (or_introl eq_refl)) as S2.
  eexists. split; [by econstructor; [eassumption|]; apply lstar_one|].
  simpl. rewrite list_lookup_insert_eq; [done|]. apply lookup_lt_Some in Ht. done.
Qed.

Lemma malformed_email_rejected_witness :
  avoids "&"%char "%zz" = true /\ query_unescape "%zz" = None /\
  dispatch (start_call_raw "%zz" crn) = Some (ReqStart "" crn) /\
  exists w', init ⟶[ [EvRequest (ReqStart "" crn);
                      EvRespond 0 (ReqStart "" crn) RespStartBadRequest] ]* w' /\
             handlers w' !! 0 = Some (HDone RespStartBadRequest).
Proof.
  split; [reflexivity|]. split; [reflexivity|].
  exact (malformed_email_rejected init "%zz" crn eq_refl eq_refl).
Defined.

End Dispatch.
